(** * Rate limiting and quota enforcement of repazoo

    A shallow embedding of the two rate limiters of the repository,
    - [workflows/utils/rate_limiter.py] (module [Workflow]): the synchronous
      [RedisRateLimiter], its registry [LIMITS], the upstream header sync and
      the [exponential_backoff] retry decorator;
    - [backend/middleware/rate_limiter.py] (module [Middleware]): the
      asynchronous [RateLimiter], its monthly quota check over
      [backend/database/supabase_client.py], and [RateLimitMiddleware];
    over a model of the Redis commands both of them send (module [Redis]);
    module [Backend] has two further callers, [check_quota] of the database
    client and the Redis health check of [backend/main.py].

    Python code that talks to the outside (Redis round trips, database
    queries, the wrapped call, [time.sleep]) is a value of the free monad
    [prog]: one [Vis] node per interaction, in program order.  A sequential
    run answers the nodes one after the other; a concurrent run interleaves
    the nodes of two programs over one shared store. *)

From Stdlib Require Import ZArith List Lia Bool String Ascii Sorted.
From stdpp Require Import base option list gmap strings pretty.

Local Open Scope Z_scope.

(** ** Programs with interactions *)

Inductive prog (E : Type) (R : E → Type) (A : Type) : Type :=
| Ret (a : A)
| Vis (e : E) (k : R e → prog E R A).

Arguments Ret {E R A} a.
Arguments Vis {E R A} e k.

Fixpoint bind {E R A B} (p : prog E R A) (f : A → prog E R B) : prog E R B :=
  match p with
  | Ret a => f a
  | Vis e k => Vis e (λ r, bind (k r) f)
  end.

Notation "x <- p ;; q" := (bind p (λ x, q))
  (at level 100, p at next level, right associativity, only parsing).

Definition trigger {E R} (e : E) : prog E R (R e) := Vis e Ret.

(** Number of interactions on the path a program takes when its
    interactions are answered by [h]. *)
Fixpoint interactions {E R A St} (h : ∀ e : E, St → R e * St)
    (p : prog E R A) (s : St) : nat :=
  match p with
  | Ret _ => O
  | Vis e k => let '(r, s') := h e s in S (interactions h (k r) s')
  end.

(** Sequential run: every interaction is answered at once by [h]. *)
Fixpoint run {E R A St} (h : ∀ e : E, St → R e * St)
    (p : prog E R A) (s : St) : A * St :=
  match p with
  | Ret a => (a, s)
  | Vis e k => let '(r, s') := h e s in run h (k r) s'
  end.

(** A Python call either returns or raises. *)
Inductive exc (X A : Type) : Type :=
| Return (a : A)
| Raise (x : X).

Arguments Return {X A} a.
Arguments Raise {X A} x.

(** ** The Redis commands the limiters send *)

Module Redis.

(** Clock readings ([time.time()], [datetime.now()], the server clock) are
    counted in ticks: a float reading is taken as a whole number of
    microseconds. *)
Definition ticks_per_second : Z := 1000000.

(** A sorted-set member.  The synchronous limiter adds the member
    [f"{now}:{user_id}"], the asynchronous one [str(current_time)]; both
    formats are injective, so a member is kept as the values it prints. *)
Inductive member : Type :=
| MStamp (now : Z) (user_id : string)
| MSecond (current_time : Z).

#[global] Instance member_eq_dec : EqDecision member.
Proof. solve_decision. Defined.

(** A sorted set: member ↦ score, no member twice (see [zadd]). *)
Abbreviation zset := (list (member * Z)).

Inductive value : Type :=
| VZSet (z : zset)
| VString (v : Z).

Record entry : Type := mkEntry { e_val : value; e_expire : option Z }.

Abbreviation store := (gmap string entry).

Inductive command : Type :=
| ZREMRANGEBYSCORE (key : string) (lo hi : Z)
| ZCARD (key : string)
| ZADD (key : string) (m : member) (score : Z)
| EXPIRE (key : string) (seconds : Z)
| ZRANGE_0_0_WITHSCORES (key : string)
| SETEX (key : string) (seconds : Z) (v : Z)
| DEL (key : string).

Inductive reply : Type :=
| RInt (n : Z)
| RPairs (l : zset)
| RError.

Definition key_of (c : command) : string :=
  match c with
  | ZREMRANGEBYSCORE key _ _ | ZCARD key | ZADD key _ _ | EXPIRE key _
  | ZRANGE_0_0_WITHSCORES key | SETEX key _ _ | DEL key => key
  end.

Definition expired (now : Z) (e : entry) : bool :=
  match e_expire e with
  | Some t => t <=? now
  | None => false
  end.

(** What is under a key at [now]: a key whose time to live has run out is
    gone when it is next touched. *)
Definition live (now : Z) (slot : option entry) : option entry :=
  match slot with
  | Some e => if expired now e then None else Some e
  | None => None
  end.

Definition in_range (lo hi : Z) (p : member * Z) : Prop := lo ≤ p.2 ∧ p.2 ≤ hi.

#[global] Instance in_range_dec lo hi p : Decision (in_range lo hi p).
Proof. unfold in_range. apply _. Defined.

Definition zremrangebyscore (lo hi : Z) (z : zset) : zset :=
  filter (λ p, ¬ in_range lo hi p) z.

Definition zadd (m : member) (score : Z) (z : zset) : zset :=
  (m, score) :: filter (λ p, p.1 ≠ m) z.

(** The entry of least score; of the ties the one listed first (the callers
    read the score only). *)
Fixpoint zmin (z : zset) : option (member * Z) :=
  match z with
  | [] => None
  | p :: z' =>
      match zmin z' with
      | None => Some p
      | Some q => if p.2 <=? q.2 then Some p else Some q
      end
  end.

(** A sorted set that loses its last member is deleted. *)
Definition zset_entry (z : zset) (ttl : option Z) : option entry :=
  match z with
  | [] => None
  | _ => Some (mkEntry (VZSet z) ttl)
  end.

(** One command on the key it names: the reply and what is under the key
    afterwards. *)
Definition step (now : Z) (c : command) (slot : option entry) : reply * option entry :=
  match c with
  | ZREMRANGEBYSCORE _ lo hi =>
      match live now slot with
      | None => (RInt 0, None)
      | Some (mkEntry (VZSet z) ttl) =>
          let z' := zremrangebyscore lo hi z in
          (RInt (Z.of_nat (length z) - Z.of_nat (length z')), zset_entry z' ttl)
      | Some (mkEntry (VString _) _ as e) => (RError, Some e)
      end
  | ZCARD _ =>
      match live now slot with
      | None => (RInt 0, None)
      | Some (mkEntry (VZSet z) _ as e) => (RInt (Z.of_nat (length z)), Some e)
      | Some (mkEntry (VString _) _ as e) => (RError, Some e)
      end
  | ZADD _ m score =>
      match live now slot with
      | None => (RInt 1, Some (mkEntry (VZSet [(m, score)]) None))
      | Some (mkEntry (VZSet z) ttl) =>
          (RInt (Z.of_nat (length (zadd m score z)) - Z.of_nat (length z)),
           Some (mkEntry (VZSet (zadd m score z)) ttl))
      | Some (mkEntry (VString _) _ as e) => (RError, Some e)
      end
  | EXPIRE _ seconds =>
      match live now slot with
      | None => (RInt 0, None)
      | Some (mkEntry v _) =>
          if seconds <=? 0 then (RInt 1, None)
          else (RInt 1, Some (mkEntry v (Some (now + seconds * ticks_per_second))))
      end
  | ZRANGE_0_0_WITHSCORES _ =>
      match live now slot with
      | None => (RPairs [], None)
      | Some (mkEntry (VZSet z) _ as e) => (RPairs (option_list (zmin z)), Some e)
      | Some (mkEntry (VString _) _ as e) => (RError, Some e)
      end
  | SETEX _ seconds v =>
      if seconds <=? 0 then (RError, live now slot)
      else (RInt 1, Some (mkEntry (VString v) (Some (now + seconds * ticks_per_second))))
  | DEL _ =>
      match live now slot with
      | None => (RInt 0, None)
      | Some _ => (RInt 1, None)
      end
  end.

Definition exec (now : Z) (c : command) (s : store) : reply * store :=
  let '(r, slot) := step now c (s !! key_of c) in
  (r, partial_alter (λ _, slot) (key_of c) s).

(** A pipeline ([MULTI] ... [EXEC]): the commands run back to back, nothing
    of another client in between; a command that fails leaves its error in
    the replies and the others still take effect. *)
Fixpoint exec_all (now : Z) (cmds : list command) (s : store) : list reply * store :=
  match cmds with
  | [] => ([], s)
  | c :: cmds' =>
      let '(r, s1) := exec now c s in
      let '(rs, s2) := exec_all now cmds' s1 in
      (r :: rs, s2)
  end.

(** The same for commands that all name one key. *)
Fixpoint steps (now : Z) (cmds : list command) (slot : option entry)
    : list reply * option entry :=
  match cmds with
  | [] => ([], slot)
  | c :: cmds' =>
      let '(r, slot1) := step now c slot in
      let '(rs, slot2) := steps now cmds' slot1 in
      (r :: rs, slot2)
  end.

Definition is_error (r : reply) : bool :=
  match r with RError => true | _ => false end.

(** What the client gets from one round trip.  [up = false]: the server is
    not reached, nothing runs and [redis.RedisError] is raised.  An error
    reply is raised as well ([ResponseError] is a [RedisError]). *)
Definition round_trip (up : bool) (now : Z) (cmds : list command) (s : store)
    : exc unit (list reply) * store :=
  if up then
    let '(rs, s') := exec_all now cmds s in
    (if existsb is_error rs then Raise () else Return rs, s')
  else (Raise (), s).

(** The sorted set stored under a key (none, or a string: no members). *)
Definition zset_of (slot : option entry) : zset :=
  match slot with
  | Some (mkEntry (VZSet z) _) => z
  | _ => []
  end.

(** The sorted set at [key] as a client reading at [now] finds it. *)
Definition zset_at (now : Z) (key : string) (s : store) : zset :=
  zset_of (live now (s !! key)).

(** Whether a string is stored under the key. *)
Definition holds_string (slot : option entry) : bool :=
  match slot with
  | Some (mkEntry (VString _) _) => true
  | _ => false
  end.

(** What the eviction leaves under the key. *)
Definition evicted (now lo hi : Z) (slot : option entry) : option entry :=
  match live now slot with
  | Some e => zset_entry (zremrangebyscore lo hi (zset_of (live now slot))) (e_expire e)
  | None => None
  end.

(** [results[i]] read as an integer. *)
Definition int_at (rs : list reply) (i : nat) : option Z :=
  match rs !! i with
  | Some (RInt n) => Some n
  | _ => None
  end.

End Redis.

(** ** workflows/utils/rate_limiter.py *)

Module Workflow.
Import Redis.

Record limit_config : Type := mkLimit {
  requests : Z;
  window_seconds : Z;
  description : string
}.

(** [self.LIMITS] as [RedisRateLimiter.__init__] fills it.  It is an
    attribute of the instance (the tests add services to it), so the
    methods below take the table as their [limits] argument. *)
Definition LIMITS : gmap string limit_config :=
  list_to_map [
    ("twitter_user_timeline", mkLimit 900 900 "Twitter User Timeline API");
    ("twitter_user_lookup", mkLimit 900 900 "Twitter User Lookup API");
    ("twitter_tweet_lookup", mkLimit 300 900 "Twitter Tweet Lookup API");
    ("anthropic_api", mkLimit 50 60 "Anthropic Claude API");
    ("anthropic_api_tier2", mkLimit 100 60 "Anthropic Claude API (Pro Tier)")
  ]%string.

Definition _get_key (service user_id : string) : string :=
  ("ratelimit:" +:+ service +:+ ":" +:+ user_id)%string.

(** A method of the limiter: its interactions are Redis round trips, each
    answered by the replies or by [redis.RedisError]. *)
Abbreviation redis_prog := (prog (list command) (λ _, exc unit (list reply))).

Definition execute (cmds : list command) : redis_prog (exc unit (list reply)) :=
  trigger cmds.

(** [int((oldest_timestamp + window_seconds) - now) + 1]: [int] of a float
    truncates towards zero. *)
Definition retry_after_of (oldest_timestamp window_seconds now : Z) : Z :=
  (oldest_timestamp + window_seconds * ticks_per_second - now) ÷ ticks_per_second + 1.

(** [check_and_increment(service, user_id)], with [now = time.time()].
    Returns [(allowed, retry_after)]. *)
Definition check_and_increment (limits : gmap string limit_config)
    (service user_id : string) (now : Z) : redis_prog (bool * Z) :=
  match limits !! service with
  | None => Ret (true, 0)
  | Some config =>
      let max_requests := requests config in
      let window_seconds := window_seconds config in
      let key := _get_key service user_id in
      let window_start := now - window_seconds * ticks_per_second in
      results <- execute [ZREMRANGEBYSCORE key 0 window_start; ZCARD key] ;;
      match results with
      | Raise _ => Ret (true, 0)
      | Return results =>
          let current_count := default 0 (int_at results 1) in
          if max_requests <=? current_count then
            oldest <- execute [ZRANGE_0_0_WITHSCORES key] ;;
            match oldest with
            | Raise _ => Ret (true, 0)
            | Return [RPairs ((_, oldest_timestamp) :: _)] =>
                Ret (false, retry_after_of oldest_timestamp window_seconds now)
            | Return _ => Ret (false, window_seconds)
            end
          else
            _ <- execute [ZADD key (MStamp now user_id) now;
                          EXPIRE key (window_seconds + 60)] ;;
            Ret (true, 0)
      end
  end.

(** [get_current_usage(service, user_id)]: [(current_count, max_allowed)];
    a [RedisError] is not caught here. *)
Definition get_current_usage (limits : gmap string limit_config)
    (service user_id : string) (now : Z) : redis_prog (exc unit (Z * Z)) :=
  match limits !! service with
  | None => Ret (Return (0, 0))
  | Some config =>
      let key := _get_key service user_id in
      let window_start := now - window_seconds config * ticks_per_second in
      results <- execute [ZREMRANGEBYSCORE key 0 window_start; ZCARD key] ;;
      match results with
      | Raise e => Ret (Raise e)
      | Return results => Ret (Return (default 0 (int_at results 1), requests config))
      end
  end.

Definition reset_limit (service user_id : string) : redis_prog (exc unit unit) :=
  r <- execute [DEL (_get_key service user_id)] ;;
  match r with
  | Raise e => Ret (Raise e)
  | Return _ => Ret (Return ())
  end.

(** A response header as [int(...)] takes it: a text that reads as the
    integer [n], or a text [int] refuses with [ValueError]. *)
Inductive header_value : Type :=
| HInt (n : Z)
| HText (s : string).

(** [int(headers.get(name, 0))] *)
Definition header_int (headers : gmap string header_value) (name : string)
    (dflt : Z) : option Z :=
  match headers !! name with
  | None => Some dflt
  | Some (HInt n) => Some n
  | Some (HText _) => None
  end.

Record limit_info : Type := mkInfo {
  li_limit : Z;
  li_remaining : Z;
  li_reset : Z;
  li_retry_after : Z
}.

(** The time zone of the process as the C library's [localtime] gives
    it: the offset of local time from UTC, in seconds, in force at a
    [time_t]; [None] where [localtime] fails ([EOVERFLOW], the year does
    not fit in an [int]).  The zone counts no leap seconds. *)
Definition zone : Type := Z → option Z.

(** A naive [datetime]: a reading of the local clock, in ticks from
    1970-01-01 00:00:00 on that clock; or the exception raised instead. *)
Inductive fromtimestamp_result : Type :=
| Datetime (wall : Z)
| RaisesValueError
| RaisesOverflowError
| RaisesOSError.

(** [MINYEAR <= year <= MAXYEAR] for a local clock reading in seconds:
    from 0001-01-01 00:00:00 to 9999-12-31 23:59:59. *)
Definition year_in_range (wall_seconds : Z) : bool :=
  (-62135596800 <=? wall_seconds) && (wall_seconds <=? 253402300799).

(** [local(u)] of [_datetimemodule.c]: the local time at a [time_t];
    [OSError] where [localtime] fails, [ValueError] ("year is out of
    range") outside the years 1 to 9999. *)
Definition local (tz : zone) (timet : Z) : fromtimestamp_result :=
  match tz timet with
  | None => RaisesOSError
  | Some utcoffset =>
      if year_in_range (timet + utcoffset)
      then Datetime ((timet + utcoffset) * ticks_per_second)
      else RaisesValueError
  end.

Definition max_fold_seconds : Z := 24 * 3600.

(** [datetime_from_timet_and_us] with [localtime] and no [tzinfo]: the
    local time at [timet], after the probes that detect a repeated hour
    (the local time a day earlier and, where the offset has gone down
    since, the local time that much earlier), each of which can raise. *)
Definition datetime_from_timet (tz : zone) (timet : Z) : fromtimestamp_result :=
  match local tz timet with
  | Datetime result =>
      match local tz (timet - max_fold_seconds) with
      | Datetime probe =>
          let transition :=
            result / ticks_per_second - probe / ticks_per_second - max_fold_seconds in
          if transition <? 0 then
            match local tz (timet + transition) with
            | Datetime _ => Datetime result
            | raised => raised
            end
          else Datetime result
      | raised => raised
      end
  | raised => raised
  end.

(** [datetime.fromtimestamp(ts)] for an [int]: [OverflowError] for a value
    no [time_t] holds. *)
Definition fromtimestamp (tz : zone) (ts : Z) : fromtimestamp_result :=
  if (ts <? - 2 ^ 63) || (2 ^ 63 <=? ts) then RaisesOverflowError
  else datetime_from_timet tz ts.

(** [datetime.now()] at the clock reading [now] (in ticks): the local time
    at the whole second, with the microseconds of [now]. *)
Definition datetime_now (tz : zone) (now : Z) : fromtimestamp_result :=
  match datetime_from_timet tz (now / ticks_per_second) with
  | Datetime wall => Datetime (wall + now mod ticks_per_second)
  | raised => raised
  end.

(** [(reset_time - now).seconds] for two naive datetimes: the seconds
    field of the difference of the two local clock readings, which is
    normalised to [0 <= seconds < 86400] (the days are a field apart). *)
Definition timedelta_seconds (reset_time now : Z) : Z :=
  ((reset_time - now) / ticks_per_second) mod 86400.

(** [parse_twitter_headers(headers)] at the clock reading [now], in a
    process whose time zone is [tz].  [Return None] is the
    [ValueError]/[TypeError] branch; [OverflowError] and [OSError] are not
    caught. *)
Definition parse_twitter_headers (tz : zone) (headers : gmap string header_value)
    (now : Z) : exc unit (option limit_info) :=
  match header_int headers "x-rate-limit-limit" 0,
        header_int headers "x-rate-limit-remaining" 0,
        header_int headers "x-rate-limit-reset" 0 with
  | Some limit, Some remaining, Some reset =>
      match fromtimestamp tz reset with
      | Datetime reset_time =>
          match datetime_now tz now with
          | Datetime now_time =>
              Return (Some (mkInfo limit remaining reset
                              (Z.max 0 (timedelta_seconds reset_time now_time))))
          | RaisesValueError => Return None
          | RaisesOverflowError | RaisesOSError => Raise ()
          end
      | RaisesValueError => Return None
      | RaisesOverflowError | RaisesOSError => Raise ()
      end
  | _, _, _ => Return None
  end.

Definition reset_key (service user_id : string) : string :=
  ("twitter_reset:" +:+ service +:+ ":" +:+ user_id)%string.

(** [sync_with_twitter_headers(service, user_id, headers)].  The branch on
    [remaining < 10] only logs a warning.  Exceptions are not caught. *)
Definition sync_with_twitter_headers (tz : zone) (service user_id : string)
    (headers : gmap string header_value) (now : Z) : redis_prog (exc unit unit) :=
  match parse_twitter_headers tz headers now with
  | Raise e => Ret (Raise e)
  | Return None => Ret (Return ())
  | Return (Some limit_info) =>
      r <- execute [SETEX (reset_key service user_id)
                          (li_retry_after limit_info + 60) (li_reset limit_info)] ;;
      match r with
      | Raise e => Ret (Raise e)
      | Return _ => Ret (Return ())
      end
  end.

(** *** The retry decorator *)

Inductive exn : Type :=
| RateLimitExceeded (retry_after : Z) (limit_type : string)
| ResponseError (status_code : option Z) (retry_after : option header_value)
| ValueError
| OverflowError
| OtherError.

(** The interactions of [exponential_backoff]'s wrapper: the call of the
    wrapped function, which returns or raises, and the sleep of the
    platform behind [time.sleep], which returns when the time is over or
    raises ([OSError] from the system call, the exception of a signal
    handler). *)
Inductive retry_event : Type :=
| Invoke
| Sleep (seconds : Z).

Section Retry.

Variable V : Type.

Definition retry_answer (e : retry_event) : Type :=
  match e with
  | Invoke => exc exn V
  | Sleep _ => exc exn unit
  end.

Abbreviation retry_prog := (prog retry_event retry_answer).

(** [time.sleep(delay)] for an [int]: the delay is taken in nanoseconds
    as a 64-bit integer ([OverflowError] where it does not fit) and must
    not be negative ([ValueError]); then the platform sleeps.  Whatever is
    raised leaves the wrapper: the call stands in an [except] block. *)
Definition sleep (delay : Z) (next : retry_prog (exc exn (option V)))
    : retry_prog (exc exn (option V)) :=
  if (delay * 10 ^ 9 <? - 2 ^ 63) || (2 ^ 63 - 1 <? delay * 10 ^ 9)
  then Ret (Raise OverflowError)
  else if delay <? 0 then Ret (Raise ValueError)
  else Vis (Sleep delay) (λ r : exc exn unit,
         match r with
         | Return _ => next
         | Raise e => Ret (Raise e)
         end).

(** The body of [for attempt in range(max_retries + 1)], [rounds] rounds of
    the loop left. *)
Fixpoint attempts (max_retries base_delay : Z) (rounds : nat) (attempt : Z)
    : retry_prog (exc exn (option V)) :=
  match rounds with
  | O => Ret (Return None)
  | S rounds' =>
      Vis Invoke (λ r : exc exn V,
        match r with
        | Return v => Ret (Return (Some v))
        | Raise (RateLimitExceeded retry_after limit_type as e) =>
            if attempt =? max_retries then Ret (Raise e)
            else
              let delay := Z.min (base_delay * 2 ^ attempt) retry_after in
              sleep delay (attempts max_retries base_delay rounds' (attempt + 1))
        | Raise (ResponseError (Some 429) header as e) =>
            if attempt =? max_retries then Ret (Raise e)
            else
              match header with
              | Some (HText _) => Ret (Raise ValueError)
              | Some (HInt retry_after) =>
                  sleep retry_after (attempts max_retries base_delay rounds' (attempt + 1))
              | None =>
                  sleep (base_delay * 2 ^ attempt)
                        (attempts max_retries base_delay rounds' (attempt + 1))
              end
        | Raise e => Ret (Raise e)
        end)
  end.

(** [exponential_backoff(max_retries, base_delay)(func)] *)
Definition exponential_backoff (max_retries base_delay : Z)
    : retry_prog (exc exn (option V)) :=
  attempts max_retries base_delay (Z.to_nat (max_retries + 1)) 0.

(** A run of the wrapper against the outcomes of the successive calls of
    the wrapped function and the outcomes [naps] of the successive sleeps
    of the platform (a sleep returns once [naps] is used up): the delays
    the platform was asked to sleep, in order, and the result (none when
    the outcomes run out before the wrapper is done). *)
Fixpoint retry_run (outcomes : list (exc exn V)) (naps : list (exc exn unit))
    (p : retry_prog (exc exn (option V))) : list Z * option (exc exn (option V)) :=
  match p with
  | Ret r => ([], Some r)
  | Vis Invoke k =>
      match outcomes with
      | [] => ([], None)
      | o :: outcomes' => retry_run outcomes' naps (k o)
      end
  | Vis (Sleep d) k =>
      let '(ds, r) := retry_run outcomes (tl naps) (k (hd (Return ()) naps)) in
      (d :: ds, r)
  end.

(** A rejection the wrapper retries: the local limiter's exception with
    its [retry_after], or an HTTP 429 error with its [Retry-After] header,
    if any. *)
Inductive rejection : Type :=
| LimitExceeded (retry_after : Z) (limit_type : string)
| Http429 (retry_after : option Z).

Definition rejected (r : rejection) : exc exn V :=
  match r with
  | LimitExceeded retry_after limit_type =>
      Raise (RateLimitExceeded retry_after limit_type)
  | Http429 retry_after =>
      Raise (ResponseError (Some 429) (option_map HInt retry_after))
  end.

(** The delay the source computes for a rejection at [attempt]. *)
Definition delay_of (base_delay attempt : Z) (r : rejection) : Z :=
  match r with
  | LimitExceeded retry_after _ => Z.min (base_delay * 2 ^ attempt) retry_after
  | Http429 (Some retry_after) => retry_after
  | Http429 None => base_delay * 2 ^ attempt
  end.

Fixpoint delays_from (base_delay attempt : Z) (rs : list rejection) : list Z :=
  match rs with
  | [] => []
  | r :: rs' => delay_of base_delay attempt r :: delays_from base_delay (attempt + 1) rs'
  end.

(** A rejection whose delay the wrapper computes itself. *)
Definition local_backoff (r : rejection) : Prop :=
  match r with
  | Http429 (Some _) => False
  | _ => True
  end.

(** How many times the wrapped function is called in a run. *)
Fixpoint invocations (outcomes : list (exc exn V)) (naps : list (exc exn unit))
    (p : retry_prog (exc exn (option V))) : nat :=
  match p with
  | Ret _ => O
  | Vis Invoke k =>
      match outcomes with
      | [] => O
      | o :: outcomes' => S (invocations outcomes' naps (k o))
      end
  | Vis (Sleep _) k => invocations outcomes (tl naps) (k (hd (Return ()) naps))
  end.

End Retry.

Arguments invocations {V} outcomes naps p.
Arguments exponential_backoff {V} max_retries base_delay.
Arguments attempts {V} max_retries base_delay rounds attempt.
Arguments retry_run {V} outcomes naps p.
Arguments rejected {V} r.

(** *** Running the limiter *)

(** One call made alone.  [net] says for each round trip in turn whether
    the server is reached (all reached once [net] is used up); the server
    clock reads [now] like the caller's. *)
Definition serve (now : Z) (cmds : list command) (w : list bool * store)
    : exc unit (list reply) * (list bool * store) :=
  let up := hd true w.1 in
  let '(r, s) := round_trip up now cmds w.2 in
  (r, (tl w.1, s)).

Definition call {A} (net : list bool) (now : Z) (p : redis_prog A) (s : store)
    : A * store :=
  let '(a, w) := run (serve now) p (net, s) in (a, w.2).

(** Consecutive [check_and_increment] calls of one caller, at the clock
    readings [times], the server reached throughout. *)
Fixpoint checks (limits : gmap string limit_config) (service user_id : string)
    (times : list Z) (s : store) : list (bool * Z) * store :=
  match times with
  | [] => ([], s)
  | now :: times' =>
      let '(d, s1) := call [] now (check_and_increment limits service user_id now) s in
      let '(ds, s2) := checks limits service user_id times' s1 in
      (d :: ds, s2)
  end.

(** Two callers at once.  The server takes one round trip at a time; the
    schedule names whose round trip is next ([true]: the first caller's). *)
Definition advance {A} (now : Z) (p : redis_prog A) (s : store)
    : redis_prog A * store :=
  match p with
  | Ret a => (Ret a, s)
  | Vis cmds k => let '(r, s') := round_trip true now cmds s in (k r, s')
  end.

Fixpoint interleave {A B} (now : Z) (schedule : list bool)
    (p : redis_prog A) (q : redis_prog B) (s : store)
    : redis_prog A * redis_prog B * store :=
  match schedule with
  | [] => (p, q, s)
  | true :: schedule' =>
      let '(p', s') := advance now p s in interleave now schedule' p' q s'
  | false :: schedule' =>
      let '(q', s') := advance now q s in interleave now schedule' p q' s'
  end.

(** A program none of whose commands names the key [k]. *)
Inductive avoids {A} (k : string) : redis_prog A → Prop :=
| avoids_ret (a : A) : avoids k (Ret a)
| avoids_vis (cmds : list command) (cont : exc unit (list reply) → redis_prog A) :
    Forall (λ c, key_of c ≠ k) cmds →
    (∀ r, avoids k (cont r)) →
    avoids k (Vis cmds cont).

Definition finished {A} (p : redis_prog A) : option A :=
  match p with
  | Ret a => Some a
  | Vis _ _ => None
  end.

End Workflow.

(** ** backend/middleware/rate_limiter.py, backend/database/supabase_client.py *)

Module Middleware.
Import Redis.

(** A header value of an [HTTPException]: a text, or [None]. *)
Inductive hval : Type :=
| HStr (s : string)
| HNone.

Inductive exn : Type :=
| APIError
| ConnectError
| AttributeError
| HTTPException (status_code : Z) (detail : string) (headers : list (string * hval))
| HandlerError (msg : string).

(** A row of [subscriptions]; [None] is SQL [NULL]. *)
Record subscription : Type := mkSubscription {
  sub_tier : option string;
  current_period_start : option string;
  current_period_end : option string
}.

(** The dict [get_current_usage] returns: three keys, or with [u_more] the
    further keys [tier], [period_start], [period_end]. *)
Record usage : Type := mkUsage {
  u_requests_used : Z;
  u_quota : Z;
  u_remaining : Z;
  u_more : option (string * option string * option string)
}.

(** The dict [check_monthly_quota] returns; [q_period = None]: without the
    keys [period_start] and [period_end]. *)
Record quota_info : Type := mkQuota {
  q_requests_used : Z;
  q_quota : Z;
  q_remaining : Z;
  q_tier : string;
  q_period : option (option string * option string)
}.

Record rate_info : Type := mkRate {
  ri_requests : Z;
  ri_limit : Z;
  ri_remaining : Z;
  ri_reset_at : Z;
  ri_window_seconds : Z
}.

Record request : Type := mkRequest {
  path : string;
  state_user_id : option string;
  client_host : option string;
  state_quota_info : option quota_info
}.

Record response : Type := mkResponse {
  status_code : Z;
  headers : list (string * string)
}.

Record settings : Type := mkSettings {
  rate_limit_per_minute : Z;
  rate_limit_per_hour : Z
}.

(** [config.py]: the defaults of the two fields. *)
Definition default_settings : settings := mkSettings 60 1000.

Inductive event : Type :=
| Pipeline (cmds : list command)
| SelectSubscription (user_id : string)
| SelectApiUsage (user_id : string) (period_start : option string)
| CallNext (req : request).

Definition answer (e : event) : Type :=
  match e with
  | Pipeline _ => exc unit (list reply)
  | SelectSubscription _ => exc exn (list subscription)
  | SelectApiUsage _ _ => exc exn (list Z)
  | CallNext _ => exc exn response
  end.

Abbreviation app_prog := (prog event answer).

Definition perform (e : event) : app_prog (answer e) := trigger e.

(** *** config.py: TierLimits *)

Definition upper_ascii (c : ascii) : ascii :=
  let n := nat_of_ascii c in
  if (97 <=? n)%nat && (n <=? 122)%nat then ascii_of_nat (n - 32) else c.

Fixpoint upper (s : string) : string :=
  match s with
  | EmptyString => EmptyString
  | String c s' => String (upper_ascii c) (upper s')
  end.

(** [getattr(cls, tier.upper(), cls.BASIC).get("monthly_quota", 1000)] *)
Definition get_monthly_quota (tier : string) : Z :=
  if decide (upper tier = "PRO"%string) then 10000 else 1000.

(** *** supabase_client.py *)

Definition get_user_subscription (user_id : string)
    : app_prog (exc exn (option subscription)) :=
  r <- perform (SelectSubscription user_id) ;;
  match r with
  | Return data => Ret (Return (head data))
  | Raise APIError => Ret (Return None)
  | Raise e => Ret (Raise e)
  end.

Definition no_usage : usage := mkUsage 0 0 0 None.

Definition get_current_usage (user_id : string) : app_prog (exc exn usage) :=
  sub <- get_user_subscription user_id ;;
  match sub with
  | Raise APIError => Ret (Return no_usage)
  | Raise e => Ret (Raise e)
  | Return None => Ret (Return no_usage)
  | Return (Some subscription) =>
      r <- perform (SelectApiUsage user_id (current_period_start subscription)) ;;
      match r with
      | Raise APIError => Ret (Return no_usage)
      | Raise e => Ret (Raise e)
      | Return data =>
          let requests_used := default 0 (head data) in
          match sub_tier subscription with
          | None => Ret (Raise AttributeError)
          | Some tier =>
              let quota := get_monthly_quota tier in
              Ret (Return (mkUsage requests_used quota
                             (Z.max 0 (quota - requests_used))
                             (Some (tier, current_period_start subscription,
                                    current_period_end subscription))))
          end
      end
  end.

(** *** rate_limiter.py: RateLimiter *)

Definition redis_key (key : string) (window_seconds : Z) : string :=
  ("ratelimit:" +:+ key +:+ ":" +:+ pretty window_seconds)%string.

(** The pipeline of [is_rate_limited]. *)
Definition window_cmds (k : string) (current_time window_seconds : Z) : list command :=
  [ZREMRANGEBYSCORE k 0 (current_time - window_seconds); ZCARD k;
   ZADD k (MSecond current_time) current_time; EXPIRE k window_seconds].

(** [is_rate_limited(key, limit, window_seconds)], with [now] the reading
    of [datetime.now(timezone.utc).timestamp()].
    Returns [(is_limited, info)]. *)
Definition is_rate_limited (key : string) (limit window_seconds now : Z)
    : app_prog (bool * rate_info) :=
  let current_time := now ÷ ticks_per_second in
  let window_start := current_time - window_seconds in
  let redis_key := redis_key key window_seconds in
  results <- perform (Pipeline [ZREMRANGEBYSCORE redis_key 0 window_start;
                                ZCARD redis_key;
                                ZADD redis_key (MSecond current_time) current_time;
                                EXPIRE redis_key window_seconds]) ;;
  match results with
  | Return results =>
      let current_requests := default 0 (int_at results 1) in
      let is_limited := limit <=? current_requests in
      let reset_at := current_time + window_seconds in
      Ret (is_limited,
           mkRate current_requests limit (Z.max 0 (limit - current_requests))
                  reset_at window_seconds)
  | Raise _ =>
      Ret (false, mkRate 0 limit limit (current_time + window_seconds) window_seconds)
  end.

(** [check_monthly_quota(user_id)]: [(quota_exceeded, quota_info)]. *)
Definition check_monthly_quota (user_id : string) : app_prog (bool * quota_info) :=
  usage <- get_current_usage user_id ;;
  match usage with
  | Return usage =>
      let quota_exceeded := u_remaining usage <=? 0 in
      Ret (quota_exceeded,
           mkQuota (u_requests_used usage) (u_quota usage) (u_remaining usage)
                   (match u_more usage with Some (tier, _, _) => tier | None => "basic"%string end)
                   (Some (match u_more usage with
                          | Some (_, period_start, period_end) => (period_start, period_end)
                          | None => (None, None)
                          end)))
  | Raise _ =>
      Ret (false, mkQuota 0 1000 1000 "basic" None)
  end.

(** *** rate_limiter.py: RateLimitMiddleware *)

Definition EXEMPT_ROUTES : list string :=
  ["/docs"; "/redoc"; "/openapi.json"; "/healthz"; "/api/webhooks"]%string.

Definition _is_exempt (path : string) : bool :=
  existsb (λ route, String.prefix route path) EXEMPT_ROUTES.

(** [hasattr(request.state, "user_id") and request.state.user_id] *)
Definition authenticated (req : request) : option string :=
  match state_user_id req with
  | Some user_id => if decide (user_id = ""%string) then None else Some user_id
  | None => None
  end.

Definition HTTP_429_TOO_MANY_REQUESTS : Z := 429.

Definition rate_limit_headers (info : rate_info) : list (string * hval) :=
  [("X-RateLimit-Limit", HStr (pretty (ri_limit info)));
   ("X-RateLimit-Remaining", HStr (pretty (ri_remaining info)));
   ("X-RateLimit-Reset", HStr (pretty (ri_reset_at info)));
   ("Retry-After", HStr (pretty (ri_window_seconds info)))]%string.

(** [response.headers[name] = value] *)
Fixpoint set_header (name value : string) (hs : list (string * string))
    : list (string * string) :=
  match hs with
  | [] => [(name, value)]
  | (n, v) :: hs' =>
      if decide (n = name) then (name, value) :: hs'
      else (n, v) :: set_header name value hs'
  end.

Section Dispatch.

(** [hashlib.sha256(...).hexdigest()] *)
Variable sha256_hexdigest : string → string.

Variable cfg : settings.

Definition _get_identifier (req : request) : string :=
  match authenticated req with
  | Some user_id => ("user:" +:+ user_id)%string
  | None =>
      let client_ip := default "unknown"%string (client_host req) in
      ("ip:" +:+ substring 0 16 (sha256_hexdigest client_ip))%string
  end.

(** [dispatch(request, call_next)]; [now_minute] and [now_hour] are the
    clock readings of the two [is_rate_limited] calls. *)
Definition dispatch (req : request) (now_minute now_hour : Z)
    : app_prog (exc exn response) :=
  if _is_exempt (path req) then perform (CallNext req)
  else
    let identifier := _get_identifier req in
    minute <- is_rate_limited ("minute:" +:+ identifier)
                (rate_limit_per_minute cfg) 60 now_minute ;;
    let '(is_limited, rate_info) := minute in
    if is_limited then
      Ret (Raise (HTTPException HTTP_429_TOO_MANY_REQUESTS
                    "Rate limit exceeded. Please try again later."
                    (rate_limit_headers rate_info)))
    else
      hour <- is_rate_limited ("hour:" +:+ identifier)
                (rate_limit_per_hour cfg) 3600 now_hour ;;
      let '(is_limited_hour, hour_info) := hour in
      if is_limited_hour then
        Ret (Raise (HTTPException HTTP_429_TOO_MANY_REQUESTS
                      "Hourly rate limit exceeded. Please try again later."
                      (rate_limit_headers hour_info)))
      else
        checked <-
          match authenticated req with
          | Some user_id =>
              quota <- check_monthly_quota user_id ;;
              let '(quota_exceeded, quota_info) := quota in
              if quota_exceeded then
                Ret (Raise (HTTPException HTTP_429_TOO_MANY_REQUESTS
                              "Monthly quota exceeded. Upgrade to Pro for higher limits."
                              [("X-Quota-Limit", HStr (pretty (q_quota quota_info)));
                               ("X-Quota-Remaining", HStr "0");
                               ("X-Quota-Reset",
                                match q_period quota_info with
                                | Some (_, Some period_end) => HStr period_end
                                | Some (_, None) => HNone
                                | None => HStr ""
                                end)]%string))
              else
                Ret (Return (mkRequest (path req) (state_user_id req) (client_host req)
                                       (Some quota_info)))
          | None => Ret (Return req)
          end ;;
        match checked with
        | Raise e => Ret (Raise e)
        | Return req' =>
            called <- perform (CallNext req') ;;
            match called with
            | Raise e => Ret (Raise e)
            | Return resp =>
                let hs := set_header "X-RateLimit-Limit" (pretty (ri_limit rate_info)) (headers resp) in
                let hs := set_header "X-RateLimit-Remaining" (pretty (ri_remaining rate_info)) hs in
                let hs := set_header "X-RateLimit-Reset" (pretty (ri_reset_at rate_info)) hs in
                let hs :=
                  match state_quota_info req' with
                  | Some quota =>
                      let hs := set_header "X-Quota-Limit" (pretty (q_quota quota)) hs in
                      let hs := set_header "X-Quota-Remaining" (pretty (q_remaining quota)) hs in
                      set_header "X-Quota-Used" (pretty (q_requests_used quota)) hs
                  | None => hs
                  end in
                Ret (Return (mkResponse (status_code resp) hs))
            end
        end.

End Dispatch.

(** *** Running the middleware *)

(** What surrounds one request: whether Redis is reached, the server clock,
    the two tables of the database (a query returns rows or raises) and the
    route handler behind the middleware. *)
Record world : Type := mkWorld {
  redis_up : bool;
  server_now : Z;
  subscriptions : string → exc exn (list subscription);
  api_usage : string → option string → exc exn (list Z);
  app : request → exc exn response
}.

Definition serve (w : world) (e : event) (s : store) : answer e * store :=
  match e with
  | Pipeline cmds => round_trip (redis_up w) (server_now w) cmds s
  | SelectSubscription user_id => (subscriptions w user_id, s)
  | SelectApiUsage user_id period_start => (api_usage w user_id period_start, s)
  | CallNext req => (app w req, s)
  end.

(** The events of a run, in order. *)
Fixpoint events {A} (w : world) (p : app_prog A) (s : store) : list event :=
  match p with
  | Ret _ => []
  | Vis e k => let '(r, s') := serve w e s in e :: events w (k r) s'
  end.

(** A query of [get_current_usage] raises [e]: the one on [subscriptions],
    or, a subscription found, the one on [api_usage]. *)
Definition quota_store_fails (w : world) (user_id : string) (e : exn) : Prop :=
  subscriptions w user_id = Raise e
  ∨ ∃ sub rest, subscriptions w user_id = Return (sub :: rest)
                ∧ api_usage w user_id (current_period_start sub) = Raise e.

(** A database that answers every query with an error response
    ([APIError]). *)
Definition failing_database : world :=
  mkWorld true 1700000000000000 (λ _, Raise APIError) (λ _ _, Raise APIError)
          (λ _, Return (mkResponse 200 [])).

(** A database that is not reached: every query raises a connection
    error (not an [APIError]). *)
Definition unreachable_database : world :=
  mkWorld true 1700000000000000 (λ _, Raise ConnectError) (λ _ _, Raise ConnectError)
          (λ _, Return (mkResponse 200 [])).

(** [headers.get(name)] of an exception raised by [dispatch]. *)
Fixpoint header (name : string) (hs : list (string * hval)) : option hval :=
  match hs with
  | [] => None
  | (n, v) :: hs' => if decide (n = name) then Some v else header name hs'
  end.

Definition raised_header (name : string) (r : exc exn response) : option hval :=
  match r with
  | Raise (HTTPException _ _ hs) => header name hs
  | _ => None
  end.

(** A request served with Redis reached, the server clock at [now]. *)
Definition online (now : Z) : world :=
  mkWorld true now (λ _, Return []) (λ _ _, Return [])
          (λ _, Return (mkResponse 200 [])).

Definition offline (now : Z) : world :=
  mkWorld false now (λ _, Return []) (λ _ _, Return [])
          (λ _, Return (mkResponse 200 [])).

(** Consecutive [is_rate_limited] calls on one key; a call is the pair of
    whether Redis is reached and the clock reading. *)
Fixpoint rate_checks (key : string) (limit window_seconds : Z)
    (calls : list (bool * Z)) (s : store) : list (bool * rate_info) * store :=
  match calls with
  | [] => ([], s)
  | (up, now) :: calls' =>
      let '(d, s1) := run (serve (if up then online now else offline now))
                          (is_rate_limited key limit window_seconds now) s in
      let '(ds, s2) := rate_checks key limit window_seconds calls' s1 in
      (d :: ds, s2)
  end.

(** The [status_code] of the [HTTPException] that [dispatch] raises, if it
    raises one. *)
Definition raised_status (r : exc exn response) : option Z :=
  match r with
  | Raise (HTTPException code _ _) => Some code
  | _ => None
  end.

(** Consecutive requests of one caller through [dispatch], Redis and the
    database reached: [db] gives the world at a clock reading. *)
Fixpoint dispatches (sha256_hexdigest : string → string) (cfg : settings)
    (db : Z → world) (req : request) (times : list Z) (s : store)
    : list (exc exn response) * store :=
  match times with
  | [] => ([], s)
  | now :: times' =>
      let '(r, s1) := run (serve (db now)) (dispatch sha256_hexdigest cfg req now now) s in
      let '(rs, s2) := dispatches sha256_hexdigest cfg db req times' s1 in
      (r :: rs, s2)
  end.

End Middleware.

(** ** backend/database/supabase_client.py, backend/main.py: further callers *)

Module Backend.
Import Redis Middleware.

(** [SupabaseClient.check_quota(user_id)] *)
Definition check_quota (user_id : string) : app_prog (exc exn bool) :=
  usage <- get_current_usage user_id ;;
  match usage with
  | Return usage => Ret (Return (0 <? u_remaining usage))
  | Raise e => Ret (Raise e)
  end.

Definition HTTP_200_OK : Z := 200.
Definition HTTP_503_SERVICE_UNAVAILABLE : Z := 503.

(** [health_check_redis()] of [main.py], by the status code of its answer;
    [connect] is the outcome of [await rate_limiter.connect()]. *)
Definition health_check_redis (connect : exc exn unit) (now : Z) : app_prog Z :=
  match connect with
  | Raise _ => Ret HTTP_503_SERVICE_UNAVAILABLE
  | Return _ =>
      _ <- is_rate_limited "healthcheck" 1000 60 now ;;
      Ret HTTP_200_OK
  end.

(** The kinds of interaction of a run. *)
Definition is_query (e : event) : bool :=
  match e with
  | SelectSubscription _ | SelectApiUsage _ _ => true
  | _ => false
  end.

Definition is_call_next (e : event) : bool :=
  match e with
  | CallNext _ => true
  | _ => false
  end.

End Backend.

(** ** Concrete situations *)

Module Scenario.
Import Redis.

Definition seconds (t : Z) : Z := t * ticks_per_second.

(** [n] clock readings from the second [t0] on, a millisecond apart. *)
Definition readings (t0 : Z) (n : nat) : list Z :=
  map (λ i, seconds t0 + Z.of_nat i * 1000) (seq 0 n).

Definition anthropic_key : string := Workflow._get_key "anthropic_api" "user-1".

(** The window of "user-1" for "anthropic_api" (50 requests a minute)
    after 49 admitted calls: one slot left. *)
Definition one_slot_left : store :=
  (Workflow.checks Workflow.LIMITS "anthropic_api" "user-1"
     (readings 1700000000 49) ∅).2.

Definition caller_a : Workflow.redis_prog (bool * Z) :=
  Workflow.check_and_increment Workflow.LIMITS "anthropic_api" "user-1"
    (seconds 1700000001).

Definition caller_b : Workflow.redis_prog (bool * Z) :=
  Workflow.check_and_increment Workflow.LIMITS "anthropic_api" "user-1"
    (seconds 1700000001 + 1).

(** Both callers count, then both add. *)
Definition race : Workflow.redis_prog (bool * Z) * Workflow.redis_prog (bool * Z) * store :=
  Workflow.interleave (seconds 1700000001) [true; false; true; false]
    caller_a caller_b one_slot_left.

Definition timeline_key : string := Workflow._get_key "twitter_user_timeline" "user-1".

(** The window of "user-1" for "twitter_user_timeline" (900 requests in 15
    minutes) after 850 admitted calls: 50 left. *)
Definition fifty_left : store :=
  (Workflow.checks Workflow.LIMITS "twitter_user_timeline" "user-1"
     (readings 1700000000 850) ∅).2.

(** The provider reports 5 requests left, reset 30 seconds after the sync. *)
Definition provider_headers : gmap string Workflow.header_value :=
  list_to_map [("x-rate-limit-limit", Workflow.HInt 900);
               ("x-rate-limit-remaining", Workflow.HInt 5);
               ("x-rate-limit-reset", Workflow.HInt 1700000031)]%string.

(** A time zone under glibc, whose [localtime] fails where the year of
    the local time does not fit in an [int]. *)
Definition glibc (utcoffset : Z → Z) : Workflow.zone :=
  λ t, if (-67768040609740800 <=? t + utcoffset t)
          && (t + utcoffset t <=? 67768036191676799)
       then Some (utcoffset t) else None.

Definition utc : Workflow.zone := glibc (λ _, 0).

(** US Eastern time around 2024-11-03 06:00:00 UTC, when the clocks go
    back from 02:00 EDT to 01:00 EST. *)
Definition eastern : Workflow.zone :=
  glibc (λ t, if t <? 1730613600 then -14400 else -18000).

(** The provider's reset 40 minutes ahead, at 01:30 EST, read at 01:50
    EDT. *)
Definition clock_change_headers : gmap string Workflow.header_value :=
  list_to_map [("x-rate-limit-limit", Workflow.HInt 900);
               ("x-rate-limit-remaining", Workflow.HInt 5);
               ("x-rate-limit-reset", Workflow.HInt 1730615400)]%string.

Definition after_sync : exc unit unit * store :=
  Workflow.call [] (seconds 1700000001)
    (Workflow.sync_with_twitter_headers utc "twitter_user_timeline" "user-1"
       provider_headers (seconds 1700000001))
    fifty_left.

(** 61 requests of one caller within 61 milliseconds, Redis reached. *)
Definition burst : list (bool * Z) :=
  map (λ now, (true, now)) (readings 1700000000 61).

Definition webhook_request : Middleware.request :=
  Middleware.mkRequest "/api/webhooks/stripe" (Some "42"%string)
    (Some "10.0.0.7"%string) None.

(** "user-1" has used up "anthropic_api": 50 admitted calls; the 51st,
    ten seconds after the first, is denied. *)
Definition full_window : store :=
  (Workflow.checks Workflow.LIMITS "anthropic_api" "user-1"
     (readings 1700000000 50) ∅).2.

Definition denial : (bool * Z) * store :=
  Workflow.call [] (seconds 1700000010)
    (Workflow.check_and_increment Workflow.LIMITS "anthropic_api" "user-1"
       (seconds 1700000010))
    full_window.

(** Tenant "42" on the basic tier, 5 requests used this month. *)
Definition tenant_request : Middleware.request :=
  Middleware.mkRequest "/api/analyze" (Some "42"%string) (Some "10.0.0.7"%string) None.

Definition database (now : Z) : Middleware.world :=
  Middleware.mkWorld true now
    (λ _, Return [Middleware.mkSubscription (Some "basic"%string)
                    (Some "2023-11-01"%string) (Some "2023-12-01"%string)])
    (λ _ _, Return [5])
    (λ _, Return (Middleware.mkResponse 200 [])).

Definition minute_key : string := Middleware.redis_key "minute:user:42" 60.

(** One request of the tenant in each of the seconds 1700000001 to
    1700000060, under the default limits (60 a minute, 1000 an hour). *)
Definition full_minute : store :=
  (Middleware.dispatches (λ x, x) Middleware.default_settings database tenant_request
     (map seconds (seqZ 1700000001 60)) ∅).2.

(** The hour limit set to 2; the tenant has made a request in each of the
    seconds 1700000001 and 1700000002. *)
Definition two_an_hour : Middleware.settings := Middleware.mkSettings 60 2.

Definition full_hour : store :=
  (Middleware.dispatches (λ x, x) two_an_hour database tenant_request
     (map seconds (seqZ 1700000001 2)) ∅).2.

(** The table of the repository's tests: "test_service", 3 requests in 10
    seconds, added to the default services. *)
Definition test_limits : gmap string Workflow.limit_config :=
  <["test_service"%string := Workflow.mkLimit 3 10 ""]> Workflow.LIMITS.

Definition quarter_seconds : list Z :=
  [seconds 1700000000 + 250000; seconds 1700000000 + 500000;
   seconds 1700000000 + 750000].

(** A caller without a session, and a database in which nobody has a
    subscription. *)
Definition anonymous_request : Middleware.request :=
  Middleware.mkRequest "/api/analyze" None (Some "10.0.0.7"%string) None.

Definition no_subscriptions (now : Z) : Middleware.world :=
  Middleware.mkWorld true now (λ _, Return []) (λ _ _, Return [])
    (λ _, Return (Middleware.mkResponse 200 [])).

Definition other_tenant_request : Middleware.request :=
  Middleware.mkRequest "/api/analyze" (Some "7"%string) (Some "10.0.0.7"%string) None.

End Scenario.

(** * Properties *)

Lemma run_bind {E R A B St} (h : ∀ e : E, St → R e * St)
    (p : prog E R A) (f : A → prog E R B) (s : St) :
  run h (bind p f) s = run h (f (run h p s).1) (run h p s).2.
Proof.
  revert s. induction p as [a|e k IH]; intros s; cbn [bind run]; [reflexivity|].
  destruct (h e s) as [r s1]. apply IH.
Qed.

(** ** Unknown services (workflows limiter) *)

Section UnknownService.
Import Redis Workflow.

(** C4, as the code has it: a service missing from the table is admitted,
    [check_and_increment] returns [(True, 0)] without any round trip to
    the store (and [get_current_usage] reports [(0, 0)]); nothing is
    raised. *)
Theorem unknown_service_is_admitted
    (limits : gmap string limit_config) (service user_id : string) (now : Z) (s : store) :
  limits !! service = None →
  check_and_increment limits service user_id now = Ret (true, 0)
  ∧ interactions (Workflow.serve now) (check_and_increment limits service user_id now) ([], s) = O
  ∧ get_current_usage limits service user_id now = Ret (Return (0, 0)).
Proof.
  intros Hnone. unfold check_and_increment, get_current_usage.
  rewrite Hnone. repeat split.
Qed.

Lemma unknown_service_is_admitted_witness :
  check_and_increment LIMITS "payments_api" "user-1" 1700000000000000 = Ret (true, 0)
  ∧ interactions (Workflow.serve 1700000000000000)
      (check_and_increment LIMITS "payments_api" "user-1" 1700000000000000) ([], ∅) = O
  ∧ get_current_usage LIMITS "payments_api" "user-1" 1700000000000000 = Ret (Return (0, 0)).
Proof.
  apply (unknown_service_is_admitted LIMITS "payments_api" "user-1" 1700000000000000 ∅).
  vm_compute. reflexivity.
Defined.

(** C4 refuted as stated: the unregistered service "payments_api" is not
    refused, the check returns [allowed = True]. *)
Lemma unknown_service_not_refused :
  LIMITS !! "payments_api"%string = None
  ∧ call [] 1700000000000000
      (check_and_increment LIMITS "payments_api" "user-1" 1700000000000000) ∅
    = ((true, 0), ∅).
Proof. split; vm_compute; reflexivity. Qed.

End UnknownService.

(** ** Store failures *)

Section StoreFailure.
Import Redis.

Lemma call_ret {A} (net : list bool) (now : Z) (a : A) (s : store) :
  Workflow.call net now (Ret a) s = (a, s).
Proof. reflexivity. Qed.

Lemma call_vis {A} (net : list bool) (now : Z) (cmds : list command)
    (k : exc unit (list reply) → Workflow.redis_prog A) (s : store) :
  Workflow.call net now (Vis cmds k) s
  = Workflow.call (tl net) now (k (round_trip (hd true net) now cmds s).1)
      (round_trip (hd true net) now cmds s).2.
Proof.
  unfold Workflow.call. cbn [run]. unfold Workflow.serve at 1. cbn [fst snd].
  destruct (round_trip (hd true net) now cmds s) as [r s1]. reflexivity.
Qed.

Lemma round_trip_down (now : Z) (cmds : list command) (s : store) :
  round_trip false now cmds s = (Raise (), s).
Proof. reflexivity. Qed.

Lemma check_and_increment_fails_open
    (limits : gmap string Workflow.limit_config) (service user_id : string)
    (now : Z) (net : list bool) (s : store) :
  hd true net = false ∨ hd true (tl net) = false →
  (Workflow.call net now (Workflow.check_and_increment limits service user_id now) s).1
  = (true, 0).
Proof.
  intros Hdown. unfold Workflow.check_and_increment.
  destruct (limits !! service) as [config|]; [|reflexivity].
  cbn [bind Workflow.execute trigger]. rewrite call_vis.
  destruct (hd true net) eqn:Hup.
  - destruct Hdown as [Hdown|Hdown]; [discriminate|].
    destruct (round_trip true now _ s) as [[rs|[]] s1]; cbn [fst snd]; [|reflexivity].
    destruct (Workflow.requests config <=? default 0 (int_at rs 1));
      cbn [bind Workflow.execute trigger]; rewrite call_vis, Hdown, round_trip_down;
      reflexivity.
  - rewrite round_trip_down. reflexivity.
Qed.

Lemma check_and_increment_admission_value
    (limits : gmap string Workflow.limit_config) (service user_id : string)
    (now : Z) (net : list bool) (s : store) :
  (Workflow.call net now (Workflow.check_and_increment limits service user_id now) s).1.1 = true →
  (Workflow.call net now (Workflow.check_and_increment limits service user_id now) s).1 = (true, 0).
Proof.
  unfold Workflow.check_and_increment.
  destruct (limits !! service) as [config|]; [|reflexivity].
  cbn [bind Workflow.execute trigger]. rewrite call_vis.
  destruct (round_trip (hd true net) now _ s) as [[rs|[]] s1]; cbn [fst snd]; [|reflexivity].
  destruct (Workflow.requests config <=? default 0 (int_at rs 1));
    cbn [bind Workflow.execute trigger]; rewrite call_vis.
  - destruct (round_trip (hd true (tl net)) now _ s1) as [[rs2|[]] s2];
      cbn [fst snd]; [|reflexivity].
    destruct rs2 as [|[n|[|[m o] l]|] [|r2 rs2]]; cbn; intros; congruence.
  - reflexivity.
Qed.

Lemma is_rate_limited_fails_open
    (w : Middleware.world) (key : string) (limit window_seconds now : Z) (s : store) :
  Middleware.redis_up w = false →
  run (Middleware.serve w) (Middleware.is_rate_limited key limit window_seconds now) s
  = ((false, Middleware.mkRate 0 limit limit (now ÷ ticks_per_second + window_seconds)
                               window_seconds), s).
Proof.
  intros Hdown. unfold Middleware.is_rate_limited.
  cbn [bind Middleware.perform trigger run Middleware.serve].
  rewrite Hdown. reflexivity.
Qed.

(** C3, as the code has it: when the coordination store is not reached
    during a check, the request is admitted (fail-open) and the decision
    carries no degraded marker.  [check_and_increment] returns [(True, 0)],
    the value of every admission; [is_rate_limited] returns [False] with
    the info of an unused window ([requests = 0], [remaining = limit]). *)
Theorem store_failure_admits_without_marker
    (limits : gmap string Workflow.limit_config) (service user_id : string)
    (now : Z) (net : list bool) (s : store)
    (w : Middleware.world) (key : string) (limit window_seconds : Z) :
  hd true net = false ∨ hd true (tl net) = false →
  Middleware.redis_up w = false →
  (Workflow.call net now (Workflow.check_and_increment limits service user_id now) s).1
    = (true, 0)
  ∧ (∀ net', (Workflow.call net' now
                (Workflow.check_and_increment limits service user_id now) s).1.1 = true →
             (Workflow.call net' now
                (Workflow.check_and_increment limits service user_id now) s).1 = (true, 0))
  ∧ run (Middleware.serve w) (Middleware.is_rate_limited key limit window_seconds now) s
    = ((false, Middleware.mkRate 0 limit limit (now ÷ ticks_per_second + window_seconds)
                                 window_seconds), s).
Proof.
  intros Hnet Hdown. split; [|split].
  - by apply check_and_increment_fails_open.
  - intros net'. apply check_and_increment_admission_value.
  - by apply is_rate_limited_fails_open.
Qed.

Lemma store_failure_admits_without_marker_witness :
  (Workflow.call [false] 1700000000000000
     (Workflow.check_and_increment Workflow.LIMITS "anthropic_api" "user-1"
        1700000000000000) ∅).1 = (true, 0)
  ∧ run (Middleware.serve (Middleware.mkWorld false 1700000000000000
                             (λ _, Return []) (λ _ _, Return [])
                             (λ _, Return (Middleware.mkResponse 200 []))))
        (Middleware.is_rate_limited "minute:user:42" 60 60 1700000000000000) ∅
    = ((false, Middleware.mkRate 0 60 60 1700000060 60), ∅).
Proof.
  pose proof (store_failure_admits_without_marker Workflow.LIMITS
                "anthropic_api" "user-1" 1700000000000000 [false] ∅
                (Middleware.mkWorld false 1700000000000000
                   (λ _, Return []) (λ _ _, Return [])
                   (λ _, Return (Middleware.mkResponse 200 [])))
                "minute:user:42" 60 60) as H.
  destruct H as (Hsync & _ & Hasync); [left; reflexivity | reflexivity |].
  split; [exact Hsync | exact Hasync].
Defined.

(** C3 refuted as stated: with the store down the decision is the very
    value a healthy store gives for the same call, so no degraded flag can
    be read off it. *)
Lemma degraded_admission_not_marked :
  (Workflow.call [false] 1700000000000000
     (Workflow.check_and_increment Workflow.LIMITS "anthropic_api" "user-1"
        1700000000000000) ∅).1
  = (Workflow.call [true; true] 1700000000000000
       (Workflow.check_and_increment Workflow.LIMITS "anthropic_api" "user-1"
          1700000000000000) ∅).1
  ∧ (run (Middleware.serve (Middleware.mkWorld false 1700000000000000
                              (λ _, Return []) (λ _ _, Return [])
                              (λ _, Return (Middleware.mkResponse 200 []))))
         (Middleware.is_rate_limited "minute:user:42" 60 60 1700000000000000) ∅).1
  = (run (Middleware.serve (Middleware.mkWorld true 1700000000000000
                              (λ _, Return []) (λ _ _, Return [])
                              (λ _, Return (Middleware.mkResponse 200 []))))
         (Middleware.is_rate_limited "minute:user:42" 60 60 1700000000000000) ∅).1.
Proof. split; vm_compute; reflexivity. Qed.

End StoreFailure.

(** ** Exempt routes *)

Section Exempt.
Import Redis Middleware.

Lemma exempt_prefix (p : string) :
  (∃ route, In route ["/docs"; "/redoc"; "/openapi.json"; "/healthz"; "/api/webhooks"]%string
            ∧ String.prefix route p = true) →
  _is_exempt p = true.
Proof.
  intros (route & Hin & Hpre). unfold _is_exempt, EXEMPT_ROUTES.
  apply existsb_exists. exists route. split; assumption.
Qed.

(** C10: a request whose path starts with "/docs", "/redoc",
    "/openapi.json", "/healthz" or "/api/webhooks" is handed to [call_next]
    as it is, whoever the caller: [dispatch] is the single interaction
    [call_next(request)], so no Redis round trip (minute, hour) and no
    database query (monthly quota) is made, the store is left as it was and
    the handler's answer is returned unchanged. *)
Theorem exempt_route_is_forwarded_unchecked
    (sha256_hexdigest : string → string) (cfg : settings) (req : request)
    (now_minute now_hour : Z) (w : world) (s : store) :
  (∃ route, In route ["/docs"; "/redoc"; "/openapi.json"; "/healthz"; "/api/webhooks"]%string
            ∧ String.prefix route (path req) = true) →
  dispatch sha256_hexdigest cfg req now_minute now_hour = perform (CallNext req)
  ∧ events w (dispatch sha256_hexdigest cfg req now_minute now_hour) s = [CallNext req]
  ∧ run (serve w) (dispatch sha256_hexdigest cfg req now_minute now_hour) s = (app w req, s).
Proof.
  intros Hex. apply exempt_prefix in Hex. unfold dispatch. rewrite Hex.
  repeat split.
Qed.

Lemma exempt_route_is_forwarded_unchecked_witness :
  dispatch (λ x, x) default_settings Scenario.webhook_request
           1700000000000000 1700000000000000
    = perform (CallNext Scenario.webhook_request)
  ∧ events unreachable_database
      (dispatch (λ x, x) default_settings Scenario.webhook_request
                1700000000000000 1700000000000000) ∅
    = [CallNext Scenario.webhook_request]
  ∧ run (serve unreachable_database)
      (dispatch (λ x, x) default_settings Scenario.webhook_request
                1700000000000000 1700000000000000) ∅
    = (app unreachable_database Scenario.webhook_request, ∅).
Proof.
  apply (exempt_route_is_forwarded_unchecked (λ x, x) default_settings
           Scenario.webhook_request 1700000000000000 1700000000000000
           unreachable_database ∅).
  exists "/api/webhooks"%string. split; [simpl; tauto | reflexivity].
Defined.

End Exempt.

(** ** The retry decorator *)

Section RetryDelays.
Import Workflow.

Variable V : Type.

Lemma sleep_cases (delay : Z)
    (next : prog retry_event (retry_answer V) (exc exn (option V))) :
  sleep V delay next
  = if decide (delay < -9223372036 ∨ 9223372036 < delay) then Ret (Raise OverflowError)
    else if decide (delay < 0) then Ret (Raise ValueError)
    else Vis (Sleep delay) (λ r : exc exn unit,
           match r with
           | Return _ => next
           | Raise e => Ret (Raise e)
           end).
Proof.
  unfold sleep.
  assert (10 ^ 9 = 1000000000) as E9 by reflexivity.
  assert (2 ^ 63 = 9223372036854775808) as E63 by reflexivity.
  destruct (Z.ltb_spec (delay * 10 ^ 9) (- 2 ^ 63));
    destruct (Z.ltb_spec (2 ^ 63 - 1) (delay * 10 ^ 9));
    destruct (Z.ltb_spec delay 0);
    cbn [orb]; repeat destruct (decide _); try reflexivity;
    exfalso; rewrite E9, E63 in *; lia.
Qed.

Lemma retry_run_sleep_cases (outcomes : list (exc exn V)) (naps : list (exc exn unit))
    (delay : Z) (next : prog retry_event (retry_answer V) (exc exn (option V))) :
  retry_run outcomes naps (sleep V delay next)
  = if decide (delay < -9223372036 ∨ 9223372036 < delay)
    then ([], Some (Raise OverflowError))
    else if decide (delay < 0) then ([], Some (Raise ValueError))
    else match hd (Return ()) naps with
         | Return _ => (delay :: (retry_run outcomes (tl naps) next).1,
                        (retry_run outcomes (tl naps) next).2)
         | Raise e => ([delay], Some (Raise e))
         end.
Proof.
  rewrite sleep_cases. repeat destruct (decide _); try reflexivity.
  cbn [retry_run]. destruct (hd (Return ()) naps) as [[]|e]; [|reflexivity].
  by destruct (retry_run outcomes (tl naps) next).
Qed.

Lemma retry_run_sleep (outcomes : list (exc exn V)) (naps : list (exc exn unit))
    (delay : Z) (next : prog retry_event (retry_answer V) (exc exn (option V))) :
  0 ≤ delay ≤ 9223372036 →
  hd (Return ()) naps = Return () →
  retry_run outcomes naps (sleep V delay next)
  = (delay :: (retry_run outcomes (tl naps) next).1, (retry_run outcomes (tl naps) next).2).
Proof.
  intros Hdelay Hnap. rewrite retry_run_sleep_cases, Hnap.
  rewrite decide_False by lia. rewrite decide_False by lia. reflexivity.
Qed.

(** A rejection before the last round is followed by a sleep of the delay
    computed for it. *)
Lemma retry_run_rejected (max_retries base_delay : Z) (rej : rejection)
    (outcomes : list (exc exn V)) (naps : list (exc exn unit)) (rounds : nat)
    (attempt : Z) :
  attempt ≠ max_retries →
  retry_run (rejected rej :: outcomes) naps
            (attempts max_retries base_delay (S rounds) attempt)
  = retry_run outcomes naps
      (sleep V (delay_of base_delay attempt rej)
         (attempts max_retries base_delay rounds (attempt + 1))).
Proof.
  intros Hne. apply Z.eqb_neq in Hne.
  destruct rej as [retry_after limit_type|[retry_after|]];
    cbn [rejected retry_run attempts delay_of option_map]; rewrite Hne; reflexivity.
Qed.

Lemma nap_returns (n : nat) (naps : list (exc exn unit)) :
  Forall (λ nap, nap = Return ()) (take (S n) naps) →
  hd (Return ()) naps = Return ()
  ∧ Forall (λ nap, nap = Return ()) (take n (tl naps)).
Proof.
  destruct naps as [|nap naps]; cbn [take hd tl].
  - intros _. split; [reflexivity|]. by rewrite take_nil.
  - intros H. apply Forall_cons in H as [-> H]. by split.
Qed.

(** The rejections the wrapper sleeps on, followed by whatever comes. *)
Lemma retry_run_prefix (max_retries base_delay : Z) (rest : list (exc exn V))
    (rejections : list rejection) :
  ∀ (rounds : nat) (attempt : Z) (naps : list (exc exn unit)),
    attempt + Z.of_nat (length rejections) ≤ max_retries →
    Forall (λ d, 0 ≤ d ≤ 9223372036) (delays_from base_delay attempt rejections) →
    Forall (λ nap, nap = Return ()) (take (length rejections) naps) →
    retry_run (map rejected rejections ++ rest) naps
              (attempts max_retries base_delay (length rejections + rounds) attempt)
    = (delays_from base_delay attempt rejections
         ++ (retry_run rest (drop (length rejections) naps)
               (attempts max_retries base_delay rounds
                  (attempt + Z.of_nat (length rejections)))).1,
       (retry_run rest (drop (length rejections) naps)
          (attempts max_retries base_delay rounds
             (attempt + Z.of_nat (length rejections)))).2).
Proof.
  induction rejections as [|rej rejections IH]; intros rounds attempt naps Hmax Hpos Hnaps.
  - cbn [map app length delays_from drop Nat.add Z.of_nat]. rewrite Z.add_0_r.
    rewrite drop_0. by destruct (retry_run rest naps _).
  - cbn [length] in Hmax, Hnaps. cbn [delays_from] in Hpos.
    apply Forall_cons in Hpos as [Hd Hpos].
    apply nap_returns in Hnaps as [Hnap Hnaps].
    cbn [map app length delays_from Nat.add].
    rewrite retry_run_rejected by lia.
    rewrite retry_run_sleep by assumption.
    rewrite (IH rounds (attempt + 1) (tl naps)) by (lia || assumption).
    cbn [fst snd].
    replace (drop (length rejections) (tl naps)) with (drop (S (length rejections)) naps)
      by (destruct naps; cbn [tl]; [by rewrite !drop_nil | reflexivity]).
    replace (attempt + 1 + Z.of_nat (length rejections))
      with (attempt + Z.of_nat (S (length rejections))) by lia.
    reflexivity.
Qed.

Lemma delays_from_lookup (base_delay : Z) (rejections : list rejection) (i : nat)
    (rej : rejection) :
  rejections !! i = Some rej →
  ∀ a, delays_from base_delay a rejections !! i
       = Some (delay_of base_delay (a + Z.of_nat i) rej).
Proof.
  revert i. induction rejections as [|r rs IH]; intros i Hi a; [discriminate|].
  cbn [delays_from]. destruct i as [|i].
  - injection Hi as ->. cbn [lookup list_lookup Z.of_nat]. by rewrite Z.add_0_r.
  - change (rs !! i = Some rej) in Hi.
    change (delays_from base_delay (a + 1) rs !! i
            = Some (delay_of base_delay (a + Z.of_nat (S i)) rej)).
    rewrite (IH i Hi (a + 1)). do 2 f_equal. lia.
Qed.

Lemma backoff_rounds (max_retries : Z) (n : nat) :
  Z.of_nat n ≤ max_retries →
  Z.to_nat (max_retries + 1) = (n + S (Z.to_nat (max_retries - Z.of_nat n)))%nat.
Proof. lia. Qed.

(** C8, as the code has it: on rejections numbered [attempt = 0, 1, ...]
    (fewer than [max_retries + 1] of them) followed by a success, the
    wrapper calls [time.sleep], attempt by attempt, with the smaller of
    [base_delay * 2^attempt] and the [retry_after] that a
    [RateLimitExceeded] carries; with the [Retry-After] header of an HTTP
    429 error when it has one that reads as an integer; and with
    [base_delay * 2^attempt] for a 429 without the header; then it returns
    the value of the successful call.  This is so while each delay is one
    that [time.sleep] takes (from 0 to 9223372036 seconds) and each sleep
    returns.  A further rejection ends the retries with the exception of
    [time.sleep] where its delay is out of that range ([OverflowError]
    beyond 9223372036 either way, else [ValueError] below 0), with the
    exception of the platform's sleep where that raises, and with the
    [ValueError] of [int] where the header does not read as an integer. *)
Theorem backoff_delays (max_retries base_delay : Z) (v : V)
    (rejections : list rejection) (naps : list (exc exn unit)) :
  Z.of_nat (length rejections) ≤ max_retries →
  Forall (λ d, 0 ≤ d ≤ 9223372036) (delays_from base_delay 0 rejections) →
  Forall (λ nap, nap = Return ()) (take (length rejections) naps) →
  retry_run (map rejected rejections ++ [Return v]) naps
            (exponential_backoff max_retries base_delay)
  = (delays_from base_delay 0 rejections, Some (Return (Some v)))
  ∧ (∀ i rej, rejections !! i = Some rej →
       delays_from base_delay 0 rejections !! i
       = Some match rej with
              | LimitExceeded retry_after _ =>
                  Z.min (base_delay * 2 ^ Z.of_nat i) retry_after
              | Http429 (Some retry_after) => retry_after
              | Http429 None => base_delay * 2 ^ Z.of_nat i
              end)
  ∧ (∀ (rej : rejection) (rest : list (exc exn V)),
       Z.of_nat (length rejections) < max_retries →
       let delay := delay_of base_delay (Z.of_nat (length rejections)) rej in
       let outcome :=
         retry_run (map rejected rejections ++ rejected rej :: rest) naps
                   (exponential_backoff max_retries base_delay) in
       (delay < -9223372036 ∨ 9223372036 < delay →
          outcome = (delays_from base_delay 0 rejections, Some (Raise OverflowError)))
       ∧ (-9223372036 ≤ delay < 0 →
          outcome = (delays_from base_delay 0 rejections, Some (Raise ValueError)))
       ∧ (0 ≤ delay ≤ 9223372036 →
          ∀ e, naps !! length rejections = Some (Raise e) →
               outcome = (delays_from base_delay 0 rejections ++ [delay],
                          Some (Raise e))))
  ∧ (∀ (text : string) (rest : list (exc exn V)),
       Z.of_nat (length rejections) < max_retries →
       retry_run (map rejected rejections
                    ++ Raise (ResponseError (Some 429) (Some (HText text))) :: rest)
                 naps (exponential_backoff max_retries base_delay)
       = (delays_from base_delay 0 rejections, Some (Raise ValueError))).
Proof.
  intros Hlen Hpos Hnaps.
  unfold exponential_backoff.
  rewrite (backoff_rounds max_retries (length rejections) Hlen).
  split; [|split; [|split]].
  - rewrite retry_run_prefix by (lia || assumption). cbn [retry_run attempts fst snd].
    by rewrite app_nil_r.
  - intros i rej Hi. rewrite (delays_from_lookup base_delay rejections i rej Hi 0).
    cbn [Z.add]. destruct rej as [?|[?|]]; reflexivity.
  - intros rej rest Hmore.
    rewrite retry_run_prefix by (lia || assumption).
    rewrite retry_run_rejected by lia. rewrite retry_run_sleep_cases.
    rewrite !Z.add_0_l.
    set (delay := delay_of base_delay (Z.of_nat (length rejections)) rej).
    split; [|split].
    + intros Hout. rewrite decide_True by exact Hout. cbn [fst snd].
      by rewrite app_nil_r.
    + intros Hneg. rewrite decide_False by lia. rewrite decide_True by lia.
      cbn [fst snd]. by rewrite app_nil_r.
    + intros Hok e He. rewrite decide_False by lia. rewrite decide_False by lia.
      rewrite (drop_S _ _ _ He). cbn [hd fst snd]. reflexivity.
  - intros text rest Hmore.
    rewrite retry_run_prefix by (lia || assumption).
    assert ((0 + Z.of_nat (length rejections) =? max_retries) = false) as Hne
      by (apply Z.eqb_neq; lia).
    cbn [retry_run attempts]. rewrite Hne. cbn [retry_run fst snd].
    by rewrite app_nil_r.
Qed.

End RetryDelays.

Lemma backoff_delays_witness :
  Workflow.retry_run [Raise (Workflow.ResponseError (Some 429) (Some (Workflow.HInt 8)));
             Raise (Workflow.RateLimitExceeded 8 "twitter_api");
             Raise (Workflow.ResponseError (Some 429) None);
             Return 7]
            []
            (Workflow.exponential_backoff 3 2)
  = ([8; 4; 8], Some (Return (Some 7))).
Proof.
  apply (proj1 (backoff_delays Z 3 2 7
                  [Workflow.Http429 (Some 8);
                   Workflow.LimitExceeded 8 "twitter_api";
                   Workflow.Http429 None]
                  []
                  ltac:(cbn; lia)
                  ltac:(repeat constructor; cbn; lia)
                  ltac:(constructor))).
Defined.

(** C8 refuted as stated: a [RateLimitExceeded] that carries the provider's
    retry-after 8 on the first attempt of [exponential_backoff(3, 2)]
    (local backoff 2) is followed by a sleep of 2 seconds, not of the
    larger value 8. *)
Lemma backoff_sleeps_the_smaller_delay :
  Workflow.retry_run [Raise (Workflow.RateLimitExceeded 8 "twitter_api"); Return 7] []
            (Workflow.exponential_backoff 3 2)
  = ([2], Some (Return (Some 7)))
  ∧ [2] ≠ [Z.max (2 * 2 ^ 0) 8].
Proof. split; [vm_compute; reflexivity | discriminate]. Qed.

(** ** The monthly quota when the database fails *)

Section QuotaStoreFailure.
Import Redis Middleware.

Lemma get_current_usage_on_failure (w : world) (user_id : string) (e : exn) (s : store) :
  quota_store_fails w user_id e →
  run (serve w) (get_current_usage user_id) s
  = (match e with APIError => Return no_usage | _ => Raise e end, s).
Proof.
  unfold get_current_usage, get_user_subscription.
  intros [Hsub|(sub & rest & Hsub & Huse)];
    cbn [bind perform trigger run serve]; rewrite Hsub.
  - destruct e; reflexivity.
  - cbn [bind perform trigger run serve head]. rewrite Huse.
    destruct e; reflexivity.
Qed.

(** C1, as the code has it: when a database query of the quota check
    raises, the outcome depends on the exception.  For [APIError],
    [get_current_usage] answers with the empty usage
    [{requests_used: 0, quota: 0, remaining: 0}] and [check_monthly_quota]
    reports [quota_exceeded = True], the outcome of a used-up quota.  For
    any other exception (the store not reached), [check_monthly_quota]
    fails open: [quota_exceeded = False] with the stand-in info
    [{requests_used: 0, quota: 1000, remaining: 1000, tier: "basic"}].
    No outcome of its own names the store failure. *)
Theorem quota_check_on_store_failure (w : world) (user_id : string) (e : exn) (s : store) :
  quota_store_fails w user_id e →
  (e = APIError →
     run (serve w) (get_current_usage user_id) s = (Return no_usage, s)
     ∧ run (serve w) (check_monthly_quota user_id) s
       = ((true, mkQuota 0 0 0 "basic" (Some (None, None))), s))
  ∧ (e ≠ APIError →
     run (serve w) (get_current_usage user_id) s = (Raise e, s)
     ∧ run (serve w) (check_monthly_quota user_id) s
       = ((false, mkQuota 0 1000 1000 "basic" None), s)).
Proof.
  intros Hfail.
  pose proof (get_current_usage_on_failure w user_id e s Hfail) as Husage.
  unfold check_monthly_quota. rewrite run_bind, Husage.
  split; intros He.
  - subst e. split; reflexivity.
  - destruct e; try congruence; split; reflexivity.
Qed.

Lemma quota_check_on_store_failure_witness :
  run (serve failing_database) (check_monthly_quota "42") ∅
    = ((true, mkQuota 0 0 0 "basic" (Some (None, None))), ∅)
  ∧ run (serve unreachable_database) (check_monthly_quota "42") ∅
    = ((false, mkQuota 0 1000 1000 "basic" None), ∅).
Proof.
  split.
  - apply (proj1 (quota_check_on_store_failure failing_database "42" APIError ∅
                    ltac:(left; reflexivity))).
    reflexivity.
  - apply (proj2 (quota_check_on_store_failure unreachable_database "42" ConnectError ∅
                    ltac:(left; reflexivity))).
    discriminate.
Defined.

(** C1 refuted as stated: with the database not reached
    ([ConnectError] on every query) the quota check of tenant "42" does not
    deny: it answers [quota_exceeded = False] and a made-up quota of 1000
    remaining requests. *)
Lemma unreachable_quota_store_grants :
  run (serve unreachable_database) (check_monthly_quota "42") ∅
  = ((false, mkQuota 0 1000 1000 "basic" None), ∅).
Proof. vm_compute. reflexivity. Qed.

End QuotaStoreFailure.

(** ** Two callers at once (workflows limiter) *)

Section Race.
Import Redis Workflow Scenario.

(** C2 on the code: [check_and_increment] counts in one round trip and
    adds in a second one.  With one slot left of 50, two callers whose
    round trips alternate (count, count, add, add) both read 49 and are
    both admitted, and the window then holds 51 entries; made one after
    the other, the second call is denied. *)
Theorem concurrent_checks_overfill_the_window :
  length (zset_at (seconds 1700000001) anthropic_key one_slot_left) = 49%nat
  ∧ interactions (Workflow.serve (seconds 1700000001)) caller_a ([], one_slot_left) = 2%nat
  ∧ (finished race.1.1, finished race.1.2) = (Some (true, 0), Some (true, 0))
  ∧ length (zset_at (seconds 1700000001) anthropic_key race.2) = 51%nat
  ∧ (checks LIMITS "anthropic_api" "user-1"
       [seconds 1700000001; seconds 1700000001 + 1] one_slot_left).1
    = [(true, 0); (false, 59)].
Proof. repeat split; vm_compute; reflexivity. Qed.

End Race.

(** ** Requests within one second (middleware limiter) *)

Section Burst.
Import Redis Middleware Scenario.

(** C6 on the code: 61 calls of
    [is_rate_limited("minute:user:42", limit=60, window_seconds=60)] within
    one second, from an empty window.  None is limited, the 61st neither:
    every call after the first counts one request. *)
Theorem burst_within_one_second_is_never_limited :
  map (λ c, c.2 ÷ ticks_per_second) burst = repeat 1700000000 61
  ∧ map fst (rate_checks "minute:user:42" 60 60 burst ∅).1 = repeat false 61
  ∧ map (λ d, ri_requests d.2) (rate_checks "minute:user:42" 60 60 burst ∅).1
    = 0 :: repeat 1 60.
Proof. repeat split; vm_compute; reflexivity. Qed.

End Burst.

(** ** The upstream sync and the local window (workflows limiter) *)

Section Frame.
Import Redis Workflow.

Lemma exec_frame (now : Z) (c : command) (f : option entry → option entry)
    (k : string) (s : store) :
  key_of c ≠ k →
  exec now c (partial_alter f k s)
  = ((exec now c s).1, partial_alter f k (exec now c s).2).
Proof.
  intros Hne. unfold exec. rewrite lookup_partial_alter_ne by done.
  destruct (step now c (s !! key_of c)) as [r slot]. cbn [fst snd].
  f_equal. symmetry. apply partial_alter_partial_alter_ne. done.
Qed.

Lemma exec_all_frame (now : Z) (cmds : list command) (f : option entry → option entry)
    (k : string) (s : store) :
  Forall (λ c, key_of c ≠ k) cmds →
  exec_all now cmds (partial_alter f k s)
  = ((exec_all now cmds s).1, partial_alter f k (exec_all now cmds s).2).
Proof.
  intros Hall. revert s. induction Hall as [|c cmds Hc _ IH]; intros s; [reflexivity|].
  cbn [exec_all]. rewrite exec_frame by exact Hc.
  destruct (exec now c s) as [r s1]. cbn [fst snd]. rewrite IH.
  destruct (exec_all now cmds s1) as [rs s2]. reflexivity.
Qed.

Lemma round_trip_frame (up : bool) (now : Z) (cmds : list command)
    (f : option entry → option entry) (k : string) (s : store) :
  Forall (λ c, key_of c ≠ k) cmds →
  round_trip up now cmds (partial_alter f k s)
  = ((round_trip up now cmds s).1, partial_alter f k (round_trip up now cmds s).2).
Proof.
  intros Hall. unfold round_trip. destruct up; [|reflexivity].
  rewrite exec_all_frame by exact Hall.
  destruct (exec_all now cmds s) as [rs s1]. reflexivity.
Qed.

Lemma call_frame {A} (now : Z) (f : option entry → option entry) (k : string)
    (p : redis_prog A) :
  avoids k p →
  ∀ net s, call net now p (partial_alter f k s)
           = ((call net now p s).1, partial_alter f k (call net now p s).2).
Proof.
  induction 1 as [a|cmds cont Hcmds _ IH]; intros net s.
  - reflexivity.
  - rewrite !call_vis, round_trip_frame by exact Hcmds. cbn [fst snd]. apply IH.
Qed.

Lemma check_and_increment_avoids (limits : gmap string limit_config)
    (service user_id : string) (now : Z) (k : string) :
  k ≠ _get_key service user_id →
  avoids k (check_and_increment limits service user_id now).
Proof.
  intros Hne. unfold check_and_increment.
  destruct (limits !! service) as [config|]; [|constructor].
  cbn [bind execute trigger].
  constructor; [repeat constructor; cbn [key_of]; congruence|].
  intros [rs|[]]; [|constructor].
  destruct (requests config <=? default 0 (int_at rs 1)); cbn [bind execute trigger].
  - constructor; [repeat constructor; cbn [key_of]; congruence|].
    intros [[|[n|[|[m o] l]|] [|r2 rs2]]|[]]; constructor.
  - constructor; [repeat constructor; cbn [key_of]; congruence|].
    intros r. constructor.
Qed.

Lemma checks_frame (limits : gmap string limit_config) (service user_id : string)
    (f : option entry → option entry) (k : string) (times : list Z) :
  k ≠ _get_key service user_id →
  ∀ s, checks limits service user_id times (partial_alter f k s)
       = ((checks limits service user_id times s).1,
          partial_alter f k (checks limits service user_id times s).2).
Proof.
  intros Hne. induction times as [|now times IH]; intros s; [reflexivity|].
  cbn [checks].
  rewrite (call_frame now f k _ (check_and_increment_avoids limits service user_id now k Hne)).
  destruct (call [] now (check_and_increment limits service user_id now) s) as [d s1].
  cbn [fst snd]. rewrite IH.
  destruct (checks limits service user_id times s1) as [ds s2]. reflexivity.
Qed.

Lemma reset_key_is_no_window_key (service user_id service' user_id' : string) :
  reset_key service user_id ≠ _get_key service' user_id'.
Proof. unfold reset_key, _get_key. cbn. discriminate. Qed.

(** What the sync leaves in the store: at most the key [twitter_reset:...]
    is changed. *)
Lemma sync_changes_reset_key_only (tz : zone) (service user_id : string)
    (headers : gmap string header_value) (now : Z) (net : list bool) (s : store) :
  ∃ f, (call net now (sync_with_twitter_headers tz service user_id headers now) s).2
       = partial_alter f (reset_key service user_id) s.
Proof.
  unfold sync_with_twitter_headers.
  destruct (parse_twitter_headers tz headers now) as [[info|]|[]];
    try (exists (λ o, o); rewrite call_ret; cbn [snd];
         symmetry; by apply partial_alter_id).
  cbn [bind execute trigger]. rewrite call_vis.
  unfold round_trip. destruct (hd true net).
  - cbn [exec_all]. unfold exec. cbn [key_of].
    destruct (step now _ (s !! reset_key service user_id)) as [r slot].
    exists (λ _, slot).
    destruct (existsb is_error [r]); reflexivity.
  - exists (λ o, o). cbn [fst snd]. rewrite call_ret. cbn [snd].
    symmetry. by apply partial_alter_id.
Qed.

(** [sync_with_twitter_headers] writes the provider's reset time under the
    key [twitter_reset:{service}:{user_id}] and nothing else; no
    [ratelimit:...] window is touched and [check_and_increment] never reads
    the key.  So whatever the provider reports, the local checks made after
    the sync (for any service and caller) decide exactly as they would have
    without it: the sync does not loosen the local capacity, and it does
    not tighten it either. *)
Theorem sync_leaves_local_checks_unchanged
    (limits : gmap string limit_config) (tz : zone) (service user_id : string)
    (headers : gmap string header_value) (now : Z) (net : list bool) (s : store)
    (service' user_id' : string) (times : list Z) :
  (checks limits service' user_id' times
     (call net now (sync_with_twitter_headers tz service user_id headers now) s).2).1
  = (checks limits service' user_id' times s).1.
Proof.
  destruct (sync_changes_reset_key_only tz service user_id headers now net s) as [f ->].
  rewrite checks_frame by apply reset_key_is_no_window_key. reflexivity.
Qed.

End Frame.

Section Sync.
Import Redis Workflow Scenario.

(** C5 on the code: the local window has 50 requests left, the provider
    reports 5 left until its reset 30 seconds later.  The sync stores the
    reset time and that is all: the six checks of the next seconds are
    admitted, one more than the provider allows, and the local usage still
    reads 850 of 900. *)
Theorem sync_does_not_tighten :
  (after_sync.1,
   after_sync.2 !! reset_key "twitter_user_timeline" "user-1",
   (call [] (seconds 1700000001)
      (get_current_usage LIMITS "twitter_user_timeline" "user-1" (seconds 1700000001))
      after_sync.2).1,
   (checks LIMITS "twitter_user_timeline" "user-1" (readings 1700000002 6)
      after_sync.2).1)
  = (Return (),
     Some (mkEntry (VString 1700000031) (Some (seconds 1700000091))),
     Return (850, 900),
     repeat (true, 0) 6).
Proof. vm_compute. reflexivity. Qed.

End Sync.

(** ** Pipelines on one key *)

Section OneKey.
Import Redis.

Lemma exec_all_on_key (now : Z) (cmds : list command) (k : string) (s : store) :
  Forall (λ c, key_of c = k) cmds →
  exec_all now cmds s
  = ((steps now cmds (s !! k)).1,
     partial_alter (λ _, (steps now cmds (s !! k)).2) k s).
Proof.
  intros Hall. revert s. induction Hall as [|c cmds Hc _ IH]; intros s.
  - cbn [exec_all steps fst snd]. by rewrite partial_alter_self.
  - cbn [exec_all steps]. unfold exec. rewrite Hc.
    destruct (step now c (s !! k)) as [r slot1]. rewrite IH.
    rewrite lookup_partial_alter_eq.
    destruct (steps now cmds slot1) as [rs slot2]. cbn [fst snd].
    by rewrite partial_alter_partial_alter_eq.
Qed.

Lemma round_trip_on_key (now : Z) (cmds : list command) (k : string) (s : store) :
  Forall (λ c, key_of c = k) cmds →
  round_trip true now cmds s
  = (if existsb is_error (steps now cmds (s !! k)).1 then Raise ()
     else Return (steps now cmds (s !! k)).1,
     partial_alter (λ _, (steps now cmds (s !! k)).2) k s).
Proof.
  intros Hall. unfold round_trip. rewrite (exec_all_on_key now cmds k s Hall).
  reflexivity.
Qed.

Lemma live_cases (now : Z) (slot : option entry) :
  live now slot = None ∨ live now slot = slot.
Proof.
  destruct slot as [e|]; [|by left]. unfold live.
  destruct (expired now e); [by left | by right].
Qed.

Lemma live_idem (now : Z) (slot : option entry) :
  live now (live now slot) = live now slot.
Proof.
  destruct slot as [e|]; [|reflexivity]. unfold live.
  destruct (expired now e) eqn:E; [reflexivity|]. by rewrite E.
Qed.

Lemma live_same_ttl (now : Z) (v v' : value) (ttl : option Z) :
  live now (Some (mkEntry v ttl)) = Some (mkEntry v ttl) →
  live now (Some (mkEntry v' ttl)) = Some (mkEntry v' ttl).
Proof.
  unfold live, expired. cbn [e_expire].
  destruct ttl as [t|]; [|reflexivity]. destruct (t <=? now); [discriminate|reflexivity].
Qed.

Lemma zset_of_live_sublist (now : Z) (slot : option entry) :
  zset_of (live now slot) `sublist_of` zset_of slot.
Proof.
  destruct (live_cases now slot) as [-> | ->]; [apply sublist_nil_l | reflexivity].
Qed.

Lemma filter_sublist_mono {A} (P : A → Prop) `{∀ x, Decision (P x)} (l1 l2 : list A) :
  l1 `sublist_of` l2 → filter P l1 `sublist_of` filter P l2.
Proof.
  induction 1 as [|x l1 l2 _ IH|x l1 l2 _ IH]; [constructor| |];
    rewrite ?filter_cons; destruct (decide (P x));
    try (by apply sublist_skip); try (by apply sublist_cons); assumption.
Qed.

(** The count-and-evict pipeline of both limiters, on a key that holds no
    string: the count is that of the members left, which stay under the
    key with its time to live. *)
Lemma steps_evict_count (now : Z) (k : string) (lo hi : Z) (slot : option entry) :
  holds_string (live now slot) = false →
  ∃ n,
    steps now [ZREMRANGEBYSCORE k lo hi; ZCARD k] slot
    = ([RInt n; RInt (Z.of_nat (length (zremrangebyscore lo hi (zset_of (live now slot)))))],
       match live now slot with
       | Some e => zset_entry (zremrangebyscore lo hi (zset_of (live now slot))) (e_expire e)
       | None => None
       end).
Proof.
  intros Hstr. cbn [steps step].
  destruct (live now slot) as [[[z|v] ttl]|] eqn:Hlive; [| discriminate | by exists 0].
  cbn [zset_of e_expire].
  assert (live now (Some (mkEntry (VZSet z) ttl)) = Some (mkEntry (VZSet z) ttl)) as Hl.
  { rewrite <- Hlive. apply live_idem. }
  destruct (zremrangebyscore lo hi z) as [|p z'] eqn:Hz; cbn [zset_entry].
  - cbn [live length]. eexists. reflexivity.
  - rewrite (live_same_ttl now _ (VZSet (p :: z')) ttl Hl). eexists. reflexivity.
Qed.

Lemma steps_app (now : Z) (cmds1 cmds2 : list command) (slot : option entry) :
  steps now (cmds1 ++ cmds2) slot
  = ((steps now cmds1 slot).1 ++ (steps now cmds2 (steps now cmds1 slot).2).1,
     (steps now cmds2 (steps now cmds1 slot).2).2).
Proof.
  revert slot. induction cmds1 as [|c cmds1 IH]; intros slot; cbn [app steps fst snd].
  - by destruct (steps now cmds2 slot).
  - destruct (step now c slot) as [r slot1]. rewrite IH.
    destruct (steps now cmds1 slot1) as [rs1 slot2]. cbn [fst snd].
    by destruct (steps now cmds2 slot2).
Qed.

Lemma evicted_spec (now lo hi : Z) (slot : option entry) :
  holds_string (live now slot) = false →
  live now (evicted now lo hi slot) = evicted now lo hi slot
  ∧ zset_of (evicted now lo hi slot) = zremrangebyscore lo hi (zset_of (live now slot))
  ∧ holds_string (evicted now lo hi slot) = false.
Proof.
  intros Hstr. unfold evicted.
  destruct (live now slot) as [[[z|v] ttl]|] eqn:Hlive; [| discriminate | done].
  cbn [zset_of e_expire].
  assert (live now (Some (mkEntry (VZSet z) ttl)) = Some (mkEntry (VZSet z) ttl)) as Hl.
  { rewrite <- Hlive. apply live_idem. }
  destruct (zremrangebyscore lo hi z) as [|p z'] eqn:Hz; cbn [zset_entry]; [done|].
  split; [|done]. by apply (live_same_ttl now (VZSet z)).
Qed.

(** The add-and-expire pipeline on a key that holds no string. *)
Lemma steps_add_expire (now : Z) (k : string) (m : member) (score seconds : Z)
    (slot : option entry) :
  holds_string (live now slot) = false →
  ∃ a,
    steps now [ZADD k m score; EXPIRE k seconds] slot
    = ([RInt a; RInt 1],
       if seconds <=? 0 then None
       else Some (mkEntry (VZSet (zadd m score (zset_of (live now slot))))
                          (Some (now + seconds * ticks_per_second)))).
Proof.
  intros Hstr. cbn [steps step].
  destruct (live now slot) as [[[z|v] ttl]|] eqn:Hlive; [| discriminate |].
  - assert (live now (Some (mkEntry (VZSet z) ttl)) = Some (mkEntry (VZSet z) ttl)) as Hl.
    { rewrite <- Hlive. apply live_idem. }
    rewrite (live_same_ttl now _ (VZSet (zadd m score z)) ttl Hl).
    cbn [zset_of]. destruct (seconds <=? 0); eexists; reflexivity.
  - cbn [live expired e_expire zset_of]. destruct (seconds <=? 0); eexists; reflexivity.
Qed.

(** On a key that holds a string every sorted-set command fails. *)
Lemma steps_on_string (now : Z) (c : command) (cmds : list command) (slot : option entry) :
  holds_string (live now slot) = true →
  match c with ZREMRANGEBYSCORE _ _ _ | ZCARD _ | ZADD _ _ _ | ZRANGE_0_0_WITHSCORES _ => True
          | _ => False end →
  existsb is_error (steps now (c :: cmds) slot).1 = true
  ∧ (step now c slot).2 = live now slot.
Proof.
  intros Hstr Hc. cbn [steps].
  destruct (live now slot) as [[[z|v] ttl]|] eqn:Hlive; try discriminate.
  destruct c; try contradiction; cbn [step]; rewrite Hlive;
    destruct (steps now cmds _) as [rs slot2]; done.
Qed.

End OneKey.

(** ** One entry a second (middleware limiter) *)

Section OneEntryPerSecond.
Import Redis Middleware.

Lemma window_cmds_key (k : string) (current_time window_seconds : Z) :
  Forall (λ c, key_of c = k) (window_cmds k current_time window_seconds).
Proof. repeat constructor. Qed.

(** The pipeline of [is_rate_limited] on the key's slot. *)
Lemma steps_window (now : Z) (k : string) (current_time window_seconds : Z)
    (slot : option entry) :
  let z' := zremrangebyscore 0 (current_time - window_seconds) (zset_of (live now slot)) in
  let out := steps now (window_cmds k current_time window_seconds) slot in
  if holds_string (live now slot) then
    existsb is_error out.1 = true ∧ zset_of out.2 = []
  else
    existsb is_error out.1 = false
    ∧ int_at out.1 1 = Some (Z.of_nat (length z'))
    ∧ out.2 = if window_seconds <=? 0 then None
              else Some (mkEntry (VZSet (zadd (MSecond current_time) current_time z'))
                                 (Some (now + window_seconds * ticks_per_second))).
Proof.
  intros z' out. destruct (holds_string (live now slot)) eqn:Hstr.
  - subst out. unfold window_cmds.
    destruct (live now slot) as [[[z|v] ttl]|] eqn:Hlive; try discriminate.
    cbn [steps step]. rewrite Hlive.
    assert (live now (Some (mkEntry (VString v) ttl)) = Some (mkEntry (VString v) ttl)) as Hl.
    { rewrite <- Hlive. apply live_idem. }
    rewrite !Hl. by destruct (window_seconds <=? 0).
  - subst out.
    change (window_cmds k current_time window_seconds)
      with ([ZREMRANGEBYSCORE k 0 (current_time - window_seconds); ZCARD k]
            ++ [ZADD k (MSecond current_time) current_time; EXPIRE k window_seconds]).
    rewrite steps_app.
    destruct (steps_evict_count now k 0 (current_time - window_seconds) slot Hstr)
      as [n ->].
    cbn [fst snd]. fold (evicted now 0 (current_time - window_seconds) slot).
    destruct (evicted_spec now 0 (current_time - window_seconds) slot Hstr)
      as (Hlive & Hz & Hs).
    destruct (steps_add_expire now k (MSecond current_time) current_time window_seconds
                (evicted now 0 (current_time - window_seconds) slot)) as [a ->].
    { by rewrite Hlive. }
    rewrite Hlive, Hz. cbn. done.
Qed.

Lemma run_is_rate_limited (w : world) (key : string) (limit window_seconds now : Z)
    (s : store) :
  redis_up w = true →
  let rk := redis_key key window_seconds in
  let current_time := now ÷ ticks_per_second in
  let out := steps (server_now w) (window_cmds rk current_time window_seconds) (s !! rk) in
  run (serve w) (is_rate_limited key limit window_seconds now) s
  = (if existsb is_error out.1
     then (false, mkRate 0 limit limit (current_time + window_seconds) window_seconds)
     else (limit <=? default 0 (int_at out.1 1),
           mkRate (default 0 (int_at out.1 1)) limit
                  (Z.max 0 (limit - default 0 (int_at out.1 1)))
                  (current_time + window_seconds) window_seconds),
     partial_alter (λ _, out.2) rk s).
Proof.
  intros Hup rk current_time out. unfold is_rate_limited.
  cbn [bind perform trigger run serve]. rewrite Hup.
  fold rk current_time. fold (window_cmds rk current_time window_seconds).
  rewrite (round_trip_on_key _ _ rk) by apply window_cmds_key.
  fold out. destruct (existsb is_error out.1); reflexivity.
Qed.

Section SameSecond.

Variables (key : string) (limit window_seconds t : Z) (z0 : zset).

Let rk : string := redis_key key window_seconds.
Let stamp : member * Z := (MSecond t, t).
Let base : Z := Z.of_nat (length (zremrangebyscore 0 (t - window_seconds) z0)).

(** The window is what was there, or the one entry of the second [t] on
    top of what was there and is still inside the window. *)
Let window_inv (z : zset) : Prop :=
  z `sublist_of` z0
  ∨ z `sublist_of`
      stamp :: filter (λ p, p.1 ≠ MSecond t) (zremrangebyscore 0 (t - window_seconds) z0).

Let decision_ok (d : bool * rate_info) : Prop :=
  ri_requests d.2 ≤ base + 1 ∧ (d.1 = true → limit ≤ ri_requests d.2).

Lemma window_inv_live (now : Z) (slot : option entry) :
  window_inv (zset_of slot) → window_inv (zset_of (live now slot)).
Proof.
  intros [H|H]; [left|right];
    (etrans; [apply zset_of_live_sublist | exact H]).
Qed.

Lemma window_inv_evicted (z : zset) :
  window_inv z →
  filter (λ p, p.1 ≠ MSecond t) (zremrangebyscore 0 (t - window_seconds) z)
    `sublist_of`
    filter (λ p, p.1 ≠ MSecond t) (zremrangebyscore 0 (t - window_seconds) z0)
  ∧ Z.of_nat (length (zremrangebyscore 0 (t - window_seconds) z)) ≤ base + 1.
Proof.
  intros [H|H].
  - split.
    + by do 2 apply filter_sublist_mono.
    + apply (filter_sublist_mono (λ p, ¬ in_range 0 (t - window_seconds) p)) in H.
      apply sublist_length in H. subst base. unfold zremrangebyscore at 1 2. lia.
  - set (X := filter (λ p, p.1 ≠ MSecond t)
                (zremrangebyscore 0 (t - window_seconds) z0)) in *.
    apply (filter_sublist_mono (λ p, ¬ in_range 0 (t - window_seconds) p)) in H.
    fold (zremrangebyscore 0 (t - window_seconds) z) in H.
    assert (zremrangebyscore 0 (t - window_seconds) X `sublist_of` X) as HX
      by apply sublist_filter.
    assert (X `sublist_of` zremrangebyscore 0 (t - window_seconds) z0) as HX0
      by apply sublist_filter.
    split.
    + apply (filter_sublist_mono (λ p, p.1 ≠ MSecond t)) in H.
      etrans; [exact H|]. rewrite filter_cons.
      destruct (decide (¬ in_range 0 (t - window_seconds) stamp)).
      * rewrite filter_cons. cbn [stamp fst]. rewrite decide_False by tauto.
        etrans; [apply sublist_filter | exact HX].
      * etrans; [apply sublist_filter | exact HX].
    + apply sublist_length in H. apply sublist_length in HX, HX0.
      rewrite filter_cons in H.
      fold (zremrangebyscore 0 (t - window_seconds) X) in H.
      destruct (decide (¬ in_range 0 (t - window_seconds) stamp)); cbn [length] in H;
        subst base; lia.
Qed.

Lemma window_step (up : bool) (now : Z) (s : store) :
  now ÷ ticks_per_second = t →
  window_inv (zset_of (s !! rk)) →
  let out := run (serve (if up then online now else offline now))
                 (is_rate_limited key limit window_seconds now) s in
  decision_ok out.1 ∧ window_inv (zset_of (out.2 !! rk)).
Proof.
  intros Ht Hinv out. subst out. destruct up.
  - rewrite run_is_rate_limited by reflexivity. cbn [server_now online]. rewrite Ht.
    fold rk. cbn [fst snd]. rewrite lookup_partial_alter_eq.
    pose proof (steps_window now rk t window_seconds (s !! rk)) as Hsteps.
    cbv zeta in Hsteps.
    destruct (steps now (window_cmds rk t window_seconds) (s !! rk)) as [rs slot1].
    cbn [fst snd] in Hsteps |- *.
    apply (window_inv_live now) in Hinv.
    destruct (window_inv_evicted _ Hinv) as [Hsub Hcount].
    destruct (holds_string (live now (s !! rk))).
    + destruct Hsteps as [-> ->]. split.
      * split; cbn; [subst base; lia | discriminate].
      * left. apply sublist_nil_l.
    + destruct Hsteps as (-> & -> & ->). split.
      * split; cbn [fst snd ri_requests default]; [exact Hcount|].
        intros Hlim. by apply Z.leb_le.
      * destruct (window_seconds <=? 0); cbn [zset_of].
        -- left. apply sublist_nil_l.
        -- right. unfold zadd. by apply sublist_skip.
  - rewrite is_rate_limited_fails_open by reflexivity. cbn [fst snd].
    split; [|exact Hinv]. split; cbn; [subst base; lia | discriminate].
Qed.

Lemma window_steps (calls : list (bool * Z)) :
  Forall (λ c, c.2 ÷ ticks_per_second = t) calls →
  ∀ s, window_inv (zset_of (s !! rk)) →
       Forall decision_ok (rate_checks key limit window_seconds calls s).1
       ∧ window_inv (zset_of ((rate_checks key limit window_seconds calls s).2 !! rk)).
Proof.
  induction 1 as [|[up now] calls Hnow _ IH]; intros s Hinv; cbn [rate_checks].
  - split; [constructor | exact Hinv].
  - pose proof (window_step up now s Hnow Hinv) as Hstep. cbv zeta in Hstep.
    destruct (run _ (is_rate_limited key limit window_seconds now) s) as [d s1].
    cbn [fst snd] in Hstep. destruct Hstep as [Hd Hinv1].
    specialize (IH s1 Hinv1).
    destruct (rate_checks key limit window_seconds calls s1) as [ds s2].
    cbn [fst snd] in IH |- *. destruct IH as [Hds Hinv2].
    split; [by constructor | exact Hinv2].
Qed.

Lemma window_inv_final (z : zset) :
  window_inv z →
  (∀ p, p ∈ z → p ∈ z0 ∨ p = stamp) ∧ (length z ≤ length z0 + 1)%nat.
Proof.
  intros [H|H]; split.
  - intros p Hp. left. by eapply elem_of_sublist.
  - apply sublist_length in H. lia.
  - intros p Hp. eapply elem_of_sublist in Hp; [|exact H].
    apply elem_of_cons in Hp as [->|Hp]; [by right|left].
    apply list_elem_of_filter in Hp as [_ Hp].
    by apply list_elem_of_filter in Hp as [_ Hp].
  - apply sublist_length in H. cbn [length] in H.
    pose proof (length_filter (λ p : member * Z, p.1 ≠ MSecond t)
                  (zremrangebyscore 0 (t - window_seconds) z0)).
    pose proof (length_filter (λ p, ¬ in_range 0 (t - window_seconds) p) z0).
    unfold zremrangebyscore in *. lia.
Qed.

End SameSecond.

(** C9: the entry added for a request is [(str(current_time),
    current_time)], the integer second alone.  So whatever calls of
    [is_rate_limited] on one key fall into the second [t] (Redis reached or
    not, any limit): every member of the window afterwards was there before
    or is the one entry of [t]; the window has grown by one entry at most;
    every call reports at most one request more than the entries that were
    inside the window before; and where the limit is above that count plus
    one, no call is limited, however many there are. *)
Theorem one_window_entry_per_second
    (key : string) (limit window_seconds t : Z) (calls : list (bool * Z)) (s : store) :
  Forall (λ c, c.2 ÷ ticks_per_second = t) calls →
  let rk := redis_key key window_seconds in
  let z0 := zset_of (s !! rk) in
  let base := Z.of_nat (length (zremrangebyscore 0 (t - window_seconds) z0)) in
  let out := rate_checks key limit window_seconds calls s in
  (∀ p, p ∈ zset_of (out.2 !! rk) → p ∈ z0 ∨ p = (MSecond t, t))
  ∧ (length (zset_of (out.2 !! rk)) ≤ length z0 + 1)%nat
  ∧ Forall (λ d, ri_requests d.2 ≤ base + 1) out.1
  ∧ (base + 1 < limit → Forall (λ d, d.1 = false) out.1).
Proof.
  intros Hsame rk z0 base out.
  destruct (window_steps key limit window_seconds t z0 calls Hsame s) as [Hds Hinv].
  { left. reflexivity. }
  fold rk out in Hds, Hinv.
  destruct (window_inv_final window_seconds t z0 _ Hinv) as [Hmem Hlen].
  split; [exact Hmem|]. split; [exact Hlen|]. split.
  - eapply Forall_impl; [exact Hds|]. intros d [Hd _]. exact Hd.
  - intros Hlimit. eapply Forall_impl; [exact Hds|]. intros d [Hd Himp].
    destruct d.1; [|reflexivity]. specialize (Himp eq_refl). fold base in Hd. lia.
Qed.

Lemma one_window_entry_per_second_witness :
  (length (zset_of ((rate_checks "minute:user:42" 60 60 Scenario.burst ∅).2
                      !! redis_key "minute:user:42" 60)) ≤ 1)%nat
  ∧ Forall (λ d, d.1 = false) (rate_checks "minute:user:42" 60 60 Scenario.burst ∅).1.
Proof.
  assert (Forall (λ c : bool * Z, c.2 ÷ ticks_per_second = 1700000000) Scenario.burst)
    as Hsame.
  { apply (bool_decide_unpack _). vm_compute. reflexivity. }
  destruct (one_window_entry_per_second "minute:user:42" 60 60 1700000000
              Scenario.burst ∅ Hsame) as (_ & Hlen & _ & Hfree).
  split; [exact Hlen|]. apply Hfree. vm_compute. reflexivity.
Defined.

End OneEntryPerSecond.

(** ** Denials and the wait they announce *)

Section Window.
Import Redis.

Lemma zmin_elem (z : zset) (p : member * Z) : zmin z = Some p → p ∈ z.
Proof.
  revert p. induction z as [|q z IH]; intros p; cbn [zmin]; [discriminate|].
  destruct (zmin z) as [r|].
  - destruct (q.2 <=? r.2); intros [= <-]; [left | right; by apply IH].
  - intros [= <-]. left.
Qed.

Lemma zmin_least (z : zset) (p : member * Z) :
  zmin z = Some p → ∀ q, q ∈ z → p.2 ≤ q.2.
Proof.
  revert p. induction z as [|r z IH]; intros p; cbn [zmin]; [discriminate|].
  destruct (zmin z) as [m|] eqn:Hm.
  - destruct (Z.leb_spec r.2 m.2) as [Hle|Hlt]; intros [= <-] q Hq;
      apply elem_of_cons in Hq as [->|Hq].
    + lia.
    + specialize (IH m eq_refl q Hq). lia.
    + lia.
    + exact (IH m eq_refl q Hq).
  - intros [= <-] q Hq. apply elem_of_cons in Hq as [->|Hq]; [lia|].
    destruct z; [by apply elem_of_nil in Hq|]. cbn [zmin] in Hm.
    destruct (zmin z); [destruct (_ <=? _)|]; discriminate.
Qed.

Lemma zmin_is_Some (z : zset) : z ≠ [] → is_Some (zmin z).
Proof.
  destruct z as [|p z]; [done|]. intros _. cbn [zmin].
  destruct (zmin z); [destruct (_ <=? _)|]; eauto.
Qed.

Lemma evict_all (lo hi : Z) (z : zset) :
  Forall (in_range lo hi) z → zremrangebyscore lo hi z = [].
Proof.
  induction 1 as [|p z Hp _ IH]; [reflexivity|].
  unfold zremrangebyscore in *. rewrite filter_cons, decide_False by tauto. exact IH.
Qed.

Lemma steps_zrange (now : Z) (k : string) (slot : option entry) :
  holds_string slot = false →
  live now slot = slot →
  steps now [ZRANGE_0_0_WITHSCORES k] slot
  = ([RPairs (option_list (zmin (zset_of slot)))], slot).
Proof.
  intros Hstr Hlive. cbn [steps step]. rewrite Hlive.
  destruct slot as [[[z|v] ttl]|]; [reflexivity | discriminate | reflexivity].
Qed.

(** What one [check_and_increment] does to a window, the server reached. *)
Lemma call_check_and_increment
    (limits : gmap string Workflow.limit_config) (service user_id : string)
    (config : Workflow.limit_config) (now : Z) (s : store) :
  limits !! service = Some config →
  let k := Workflow._get_key service user_id in
  let W := Workflow.window_seconds config in
  let ws := now - W * ticks_per_second in
  let z' := zremrangebyscore 0 ws (zset_at now k s) in
  holds_string (live now (s !! k)) = false →
  Workflow.call [] now (Workflow.check_and_increment limits service user_id now) s
  = if Workflow.requests config <=? Z.of_nat (length z') then
      ((false, match zmin z' with
               | Some p => Workflow.retry_after_of p.2 W now
               | None => W
               end),
       partial_alter (λ _, evicted now 0 ws (s !! k)) k s)
    else
      ((true, 0),
       partial_alter
         (λ _, if W + 60 <=? 0 then None
               else Some (mkEntry (VZSet (zadd (MStamp now user_id) now z'))
                                  (Some (now + (W + 60) * ticks_per_second))))
         k s).
Proof.
  intros Hcfg k W ws z' Hstr. unfold Workflow.check_and_increment. rewrite Hcfg.
  cbn [bind Workflow.execute trigger]. rewrite call_vis. cbn [hd tl].
  fold k W ws.
  rewrite (round_trip_on_key _ _ k) by (repeat constructor).
  destruct (steps_evict_count now k 0 ws (s !! k) Hstr) as [n ->].
  fold (evicted now 0 ws (s !! k)). fold (zset_at now k s). fold z'.
  cbn [fst snd existsb is_error orb int_at lookup list_lookup default].
  destruct (evicted_spec now 0 ws (s !! k) Hstr) as (Hlive & Hz & Hs).
  fold (zset_at now k s) in Hz. fold z' in Hz.
  unfold id.
  destruct (Workflow.requests config <=? Z.of_nat (length z'));
    cbn [bind Workflow.execute trigger]; rewrite call_vis; cbn [hd tl];
    rewrite (round_trip_on_key _ _ k) by (repeat constructor);
    rewrite lookup_partial_alter_eq, partial_alter_partial_alter_eq.
  - rewrite (steps_zrange now k _ Hs Hlive), Hz.
    cbn [fst snd existsb is_error orb].
    destruct (zmin z') as [[m o]|]; reflexivity.
  - destruct (steps_add_expire now k (MStamp now user_id) now (W + 60)
                (evicted now 0 ws (s !! k))) as [a ->].
    { by rewrite Hlive. }
    rewrite Hlive, Hz. cbn [fst snd existsb is_error orb]. reflexivity.
Qed.

(** A key that holds a string makes the count fail: the check is admitted. *)
Lemma call_check_and_increment_on_string
    (limits : gmap string Workflow.limit_config) (service user_id : string)
    (now : Z) (s : store) :
  holds_string (live now (s !! Workflow._get_key service user_id)) = true →
  (Workflow.call [] now (Workflow.check_and_increment limits service user_id now) s).1
  = (true, 0).
Proof.
  intros Hstr. unfold Workflow.check_and_increment.
  destruct (limits !! service) as [config|]; [|reflexivity].
  cbn [bind Workflow.execute trigger]. rewrite call_vis. cbn [hd tl].
  rewrite (round_trip_on_key _ _ (Workflow._get_key service user_id))
    by (repeat constructor).
  destruct (steps_on_string now
              (ZREMRANGEBYSCORE (Workflow._get_key service user_id) 0
                 (now - Workflow.window_seconds config * ticks_per_second))
              [ZCARD (Workflow._get_key service user_id)] _ Hstr I) as [-> _].
  reflexivity.
Qed.

Lemma quot_succ_gt (x : Z) : x < (x ÷ ticks_per_second + 1) * ticks_per_second.
Proof.
  unfold ticks_per_second.
  pose proof (Z.quot_rem' x 1000000) as Hqr.
  pose proof (Z.rem_bound_abs x 1000000 ltac:(lia)). lia.
Qed.

(** The workflows limiter: a denial names the wait until the oldest entry
    leaves the window, and after that wait the next check is admitted. *)
Lemma denial_then_wait_workflow
    (limits : gmap string Workflow.limit_config) (service user_id : string)
    (config : Workflow.limit_config) (now retry_after : Z) (s s1 : store) :
  limits !! service = Some config →
  1 ≤ Workflow.requests config →
  Z.of_nat (length (zset_at now (Workflow._get_key service user_id) s))
    ≤ Workflow.requests config →
  Forall (λ p, 0 ≤ p.2) (zset_at now (Workflow._get_key service user_id) s) →
  Workflow.call [] now (Workflow.check_and_increment limits service user_id now) s
    = ((false, retry_after), s1) →
  (∃ oldest,
     zmin (zremrangebyscore 0 (now - Workflow.window_seconds config * ticks_per_second)
             (zset_at now (Workflow._get_key service user_id) s)) = Some oldest
     ∧ (∀ q, q ∈ zremrangebyscore 0
                   (now - Workflow.window_seconds config * ticks_per_second)
                   (zset_at now (Workflow._get_key service user_id) s) →
             oldest.2 ≤ q.2)
     ∧ retry_after
       = (oldest.2 + Workflow.window_seconds config * ticks_per_second - now)
           ÷ ticks_per_second + 1)
  ∧ (∀ now', now + retry_after * ticks_per_second ≤ now' →
       (Workflow.call [] now'
          (Workflow.check_and_increment limits service user_id now') s1).1 = (true, 0)).
Proof.
  intros Hcfg Hmax Hlen Hpos Hcall.
  set (k := Workflow._get_key service user_id) in *.
  set (W := Workflow.window_seconds config) in *.
  set (z' := zremrangebyscore 0 (now - W * ticks_per_second) (zset_at now k s)) in *.
  destruct (holds_string (live now (s !! k))) eqn:Hstr.
  { pose proof (call_check_and_increment_on_string limits service user_id now s Hstr) as H.
    rewrite Hcall in H. discriminate. }
  rewrite (call_check_and_increment limits service user_id config now s Hcfg Hstr) in Hcall.
  fold k W z' in Hcall.
  destruct (Z.leb_spec (Workflow.requests config) (Z.of_nat (length z'))) as [Hfull|_];
    [|discriminate].
  injection Hcall as Hra Hs1.
  assert (z' `sublist_of` zset_at now k s) as Hsub by apply sublist_filter.
  pose proof (sublist_length _ _ Hsub) as Hsublen.
  destruct (zmin_is_Some z') as [oldest Hold].
  { intros Hnil. rewrite Hnil in Hfull. cbn in Hfull. lia. }
  rewrite Hold in Hra. split.
  - exists oldest. split; [exact Hold|]. split; [by apply zmin_least|].
    subst retry_after. reflexivity.
  - intros now' Hwait.
    assert (holds_string (live now' (s1 !! k)) = false) as Hstr1.
    { subst s1. rewrite lookup_partial_alter_eq.
      destruct (evicted_spec now 0 (now - W * ticks_per_second) (s !! k) Hstr)
        as (_ & _ & Hs).
      destruct (live_cases now' (evicted now 0 (now - W * ticks_per_second) (s !! k)))
        as [-> | ->]; [reflexivity | exact Hs]. }
    rewrite (call_check_and_increment limits service user_id config now' s1 Hcfg Hstr1).
    fold k W.
    assert (zset_at now' k s1 = [] ∨ zset_at now' k s1 = z') as Hz1.
    { unfold zset_at. subst s1. rewrite lookup_partial_alter_eq.
      destruct (evicted_spec now 0 (now - W * ticks_per_second) (s !! k) Hstr)
        as (_ & Hz & _).
      destruct (live_cases now' (evicted now 0 (now - W * ticks_per_second) (s !! k)))
        as [-> | ->]; [by left | right; exact Hz]. }
    assert (Z.of_nat (length (zremrangebyscore 0 (now' - W * ticks_per_second)
                                (zset_at now' k s1)))
            < Workflow.requests config) as Hfree.
    { destruct Hz1 as [-> | ->]; [cbn; lia|].
      pose proof (zmin_elem z' oldest Hold) as Hin.
      assert (in_range 0 (now' - W * ticks_per_second) oldest) as Hrange.
      { split.
        - rewrite Forall_forall in Hpos. apply Hpos. by eapply elem_of_sublist.
        - pose proof (quot_succ_gt (oldest.2 + W * ticks_per_second - now)) as Hq.
          unfold Workflow.retry_after_of in Hra. lia. }
      pose proof (length_filter_lt (λ p, ¬ in_range 0 (now' - W * ticks_per_second) p)
                    z' oldest Hin ltac:(tauto)) as Hlt.
      unfold zremrangebyscore at 1. lia. }
    destruct (Z.leb_spec (Workflow.requests config)
                (Z.of_nat (length (zremrangebyscore 0 (now' - W * ticks_per_second)
                                     (zset_at now' k s1))))); [lia | reflexivity].
Qed.

(** What a denial of the workflows limiter carries: the wait until the
    oldest entry left in the window is out of it or, the window empty,
    the window length. *)
Lemma denial_retry_after_workflow
    (limits : gmap string Workflow.limit_config) (service user_id : string)
    (config : Workflow.limit_config) (now retry_after : Z) (s s1 : store) :
  limits !! service = Some config →
  Workflow.call [] now (Workflow.check_and_increment limits service user_id now) s
    = ((false, retry_after), s1) →
  let z' := zremrangebyscore 0 (now - Workflow.window_seconds config * ticks_per_second)
              (zset_at now (Workflow._get_key service user_id) s) in
  Workflow.requests config ≤ Z.of_nat (length z')
  ∧ match zmin z' with
    | Some oldest =>
        (∀ q, q ∈ z' → oldest.2 ≤ q.2)
        ∧ retry_after
          = (oldest.2 + Workflow.window_seconds config * ticks_per_second - now)
              ÷ ticks_per_second + 1
    | None => z' = [] ∧ retry_after = Workflow.window_seconds config
    end.
Proof.
  intros Hcfg Hcall z'.
  set (k := Workflow._get_key service user_id) in *.
  destruct (holds_string (live now (s !! k))) eqn:Hstr.
  { pose proof (call_check_and_increment_on_string limits service user_id now s Hstr) as H.
    rewrite Hcall in H. discriminate. }
  rewrite (call_check_and_increment limits service user_id config now s Hcfg Hstr) in Hcall.
  fold k z' in Hcall.
  destruct (Z.leb_spec (Workflow.requests config) (Z.of_nat (length z'))) as [Hfull|_];
    [|discriminate].
  injection Hcall as Hra _. split; [exact Hfull|].
  destruct (zmin z') as [oldest|] eqn:Hold.
  - split; [by apply zmin_least | by subst retry_after].
  - split; [|by subst retry_after].
    destruct z' as [|p z'']; [reflexivity|].
    destruct (zmin_is_Some (p :: z'')) as [oldest Hsome]; [discriminate|]. congruence.
Qed.

End Window.

Section MiddlewareDenial.
Import Redis Middleware.

Lemma is_rate_limited_window (w : world) (key : string) (limit window_seconds now : Z)
    (s : store) :
  ri_window_seconds (run (serve w) (is_rate_limited key limit window_seconds now) s).1.2
  = window_seconds.
Proof.
  unfold is_rate_limited. cbn [bind perform trigger run].
  destruct (serve w _ s) as [[rs|[]] s1]; reflexivity.
Qed.

(** A denial of the minute tier says [Retry-After: 60], one of the hour
    tier [Retry-After: 3600]: the window length, whatever is in the window. *)
Lemma dispatch_denial_header (sha256_hexdigest : string → string) (cfg : settings)
    (req : request) (now_minute now_hour : Z) (w : world) (s : store) :
  _is_exempt (path req) = false →
  let identifier := _get_identifier sha256_hexdigest req in
  let minute := run (serve w) (is_rate_limited ("minute:" +:+ identifier)
                                 (rate_limit_per_minute cfg) 60 now_minute) s in
  let hour := run (serve w) (is_rate_limited ("hour:" +:+ identifier)
                               (rate_limit_per_hour cfg) 3600 now_hour) minute.2 in
  (minute.1.1 = true →
     raised_header "Retry-After"
       (run (serve w) (dispatch sha256_hexdigest cfg req now_minute now_hour) s).1
     = Some (HStr "60"))
  ∧ (minute.1.1 = false → hour.1.1 = true →
     raised_header "Retry-After"
       (run (serve w) (dispatch sha256_hexdigest cfg req now_minute now_hour) s).1
     = Some (HStr "3600")).
Proof.
  intros Hex identifier minute hour. unfold dispatch. rewrite Hex. fold identifier.
  rewrite run_bind. fold minute.
  pose proof (is_rate_limited_window w ("minute:" +:+ identifier)
                (rate_limit_per_minute cfg) 60 now_minute s) as Hwm.
  fold minute in Hwm.
  pose proof (is_rate_limited_window w ("hour:" +:+ identifier)
                (rate_limit_per_hour cfg) 3600 now_hour minute.2) as Hwh.
  fold hour in Hwh.
  destruct minute as [[lim info] s1]. cbn [fst snd] in *.
  split.
  - intros ->. cbn [run fst raised_header rate_limit_headers header].
    rewrite Hwm. reflexivity.
  - intros -> Hlim. rewrite run_bind. fold hour.
    destruct hour as [[limh infoh] s2]. cbn [fst snd] in *. subst limh.
    cbn [run fst raised_header rate_limit_headers header].
    rewrite Hwh. reflexivity.
Qed.

(** The middleware limiter: once [window_seconds] have passed since a
    denial, with no call on the key in between, the next check is not
    limited. *)
Lemma denial_then_wait_middleware (key : string) (limit window_seconds now now' : Z)
    (w w' : world) (s s1 : store) (info : rate_info) :
  1 ≤ limit →
  Forall (λ p, 0 ≤ p.2 ≤ now ÷ ticks_per_second)
         (zset_of (s !! redis_key key window_seconds)) →
  run (serve w) (is_rate_limited key limit window_seconds now) s = ((true, info), s1) →
  now ÷ ticks_per_second + window_seconds ≤ now' ÷ ticks_per_second →
  (run (serve w') (is_rate_limited key limit window_seconds now') s1).1.1 = false.
Proof.
  intros Hlimit Hpast Hdenied Hwait.
  set (rk := redis_key key window_seconds) in *.
  set (t := now ÷ ticks_per_second) in *.
  destruct (redis_up w') eqn:Hup'; [|by rewrite is_rate_limited_fails_open].
  destruct (redis_up w) eqn:Hup;
    [|rewrite is_rate_limited_fails_open in Hdenied by exact Hup; discriminate].
  rewrite run_is_rate_limited in Hdenied by exact Hup. fold rk t in Hdenied.
  pose proof (steps_window (server_now w) rk t window_seconds (s !! rk)) as Hsteps.
  cbv zeta in Hsteps.
  destruct (steps (server_now w) (window_cmds rk t window_seconds) (s !! rk))
    as [rs slot1].
  cbn [fst snd] in Hsteps, Hdenied.
  destruct (holds_string (live (server_now w) (s !! rk)));
    [destruct Hsteps as [Herr _]; rewrite Herr in Hdenied; discriminate|].
  destruct Hsteps as (Herr & Hcount & Hslot). rewrite Herr, Hcount in Hdenied.
  cbn [default] in Hdenied. unfold id in Hdenied. injection Hdenied as Hfull _ Hs1.
  apply Z.leb_le in Hfull.
  set (z' := zremrangebyscore 0 (t - window_seconds)
               (zset_of (live (server_now w) (s !! rk)))) in *.
  assert (Forall (λ p : member * Z, 0 ≤ p.2 ≤ t) z') as Hz'.
  { rewrite Forall_forall in Hpast |- *. intros p Hp. apply Hpast.
    eapply elem_of_sublist; [|apply zset_of_live_sublist].
    eapply elem_of_sublist; [exact Hp | apply sublist_filter]. }
  assert (0 ≤ t) as Ht.
  { destruct z' as [|p z'']; [cbn in Hfull; lia|].
    apply Forall_cons in Hz' as [Hp _]. lia. }
  assert (Forall (λ p : member * Z, 0 ≤ p.2 ≤ t) (zset_of slot1)) as Hslot1.
  { subst slot1. destruct (window_seconds <=? 0); [constructor|].
    cbn [zset_of]. unfold zadd. constructor; [cbn; lia|].
    rewrite Forall_forall in Hz' |- *. intros p Hp. apply Hz'.
    eapply elem_of_sublist; [exact Hp | apply sublist_filter]. }
  assert (holds_string slot1 = false) as Hstr1.
  { subst slot1. by destruct (window_seconds <=? 0). }
  rewrite run_is_rate_limited by exact Hup'. fold rk. cbn [fst snd].
  subst s1. rewrite lookup_partial_alter_eq.
  set (t' := now' ÷ ticks_per_second) in *.
  pose proof (steps_window (server_now w') rk t' window_seconds slot1) as Hsteps'.
  cbv zeta in Hsteps'.
  destruct (steps (server_now w') (window_cmds rk t' window_seconds) slot1)
    as [rs' slot2].
  cbn [fst snd] in Hsteps' |- *.
  assert (holds_string (live (server_now w') slot1) = false) as Hstr1'.
  { destruct (live_cases (server_now w') slot1) as [-> | ->]; [reflexivity|exact Hstr1]. }
  rewrite Hstr1' in Hsteps'. destruct Hsteps' as (-> & -> & _).
  rewrite evict_all.
  - cbn. apply Z.leb_gt. lia.
  - rewrite Forall_forall in Hslot1 |- *. intros p Hp.
    eapply elem_of_sublist in Hp; [|apply zset_of_live_sublist].
    specialize (Hslot1 p Hp). unfold in_range. cbn beta in Hslot1. lia.
Qed.

(** A denial for the monthly quota is an [HTTPException] with status code
    429 whose headers are [X-Quota-Limit], [X-Quota-Remaining] and
    [X-Quota-Reset]: it says nothing of when to retry. *)
Lemma dispatch_quota_denial (sha256_hexdigest : string → string) (cfg : settings)
    (req : request) (now_minute now_hour : Z) (w : world) (s : store)
    (user_id : string) :
  _is_exempt (path req) = false →
  let identifier := _get_identifier sha256_hexdigest req in
  let minute := run (serve w) (is_rate_limited ("minute:" +:+ identifier)
                                 (rate_limit_per_minute cfg) 60 now_minute) s in
  let hour := run (serve w) (is_rate_limited ("hour:" +:+ identifier)
                               (rate_limit_per_hour cfg) 3600 now_hour) minute.2 in
  minute.1.1 = false →
  hour.1.1 = false →
  authenticated req = Some user_id →
  (run (serve w) (check_monthly_quota user_id) hour.2).1.1 = true →
  raised_status
    (run (serve w) (dispatch sha256_hexdigest cfg req now_minute now_hour) s).1
  = Some HTTP_429_TOO_MANY_REQUESTS
  ∧ raised_header "Retry-After"
      (run (serve w) (dispatch sha256_hexdigest cfg req now_minute now_hour) s).1
    = None.
Proof.
  intros Hex identifier minute hour Hminute Hhour Hauth Hquota.
  unfold dispatch. rewrite Hex. fold identifier.
  rewrite run_bind. fold minute.
  destruct minute as [[lim info] s1]. cbn [fst snd] in *. subst lim.
  rewrite run_bind. fold hour.
  destruct hour as [[limh infoh] s2]. cbn [fst snd] in *. subst limh.
  rewrite Hauth. rewrite !run_bind.
  destruct (run (serve w) (check_monthly_quota user_id) s2) as [[exceeded quota] s3].
  cbn [fst snd] in *. subst exceeded.
  cbn [run fst raised_status raised_header header].
  split; [reflexivity|].
  repeat (destruct (decide _) as [Heq|_]; [discriminate Heq|]). reflexivity.
Qed.

End MiddlewareDenial.

Section RetryAfter.
Import Redis Scenario.

(** C7, as the code has it.  A denial of [check_and_increment] means
    that the window left after eviction holds [max_requests] entries or
    more, and carries [int(oldest + window_seconds - now) + 1] for the
    oldest of them or, that window being empty (a limit of 0 or less),
    [window_seconds].  A denial of the middleware for the minute or the
    hour limit carries the window length as [Retry-After] (60, 3600),
    whatever the age of the entries; a denial for the monthly quota
    carries no [Retry-After].  In both limiters the first check on the key
    made that long or longer after the denial, with no call in between, is
    admitted: where the limit is at least 1, no entry of the window is
    stamped before the epoch (workflows) or outside the epoch and the
    present (middleware), and the window of the workflows limiter held no
    more than [max_requests] entries. *)
Theorem retry_after_of_a_denial :
  (∀ (limits : gmap string Workflow.limit_config) (service user_id : string)
     (config : Workflow.limit_config) (now retry_after : Z) (s s1 : store),
     limits !! service = Some config →
     Workflow.call [] now (Workflow.check_and_increment limits service user_id now) s
       = ((false, retry_after), s1) →
     let z' := zremrangebyscore 0
                 (now - Workflow.window_seconds config * ticks_per_second)
                 (zset_at now (Workflow._get_key service user_id) s) in
     Workflow.requests config ≤ Z.of_nat (length z')
     ∧ match zmin z' with
       | Some oldest =>
           (∀ q, q ∈ z' → oldest.2 ≤ q.2)
           ∧ retry_after
             = (oldest.2 + Workflow.window_seconds config * ticks_per_second - now)
                 ÷ ticks_per_second + 1
       | None => z' = [] ∧ retry_after = Workflow.window_seconds config
       end)
  ∧ (∀ (limits : gmap string Workflow.limit_config) (service user_id : string)
       (config : Workflow.limit_config) (now retry_after : Z) (s s1 : store),
       limits !! service = Some config →
       1 ≤ Workflow.requests config →
       Z.of_nat (length (zset_at now (Workflow._get_key service user_id) s))
         ≤ Workflow.requests config →
       Forall (λ p, 0 ≤ p.2) (zset_at now (Workflow._get_key service user_id) s) →
       Workflow.call [] now (Workflow.check_and_increment limits service user_id now) s
         = ((false, retry_after), s1) →
       ∀ now', now + retry_after * ticks_per_second ≤ now' →
         (Workflow.call [] now'
            (Workflow.check_and_increment limits service user_id now') s1).1
         = (true, 0))
  ∧ (∀ (sha256_hexdigest : string → string) (cfg : Middleware.settings)
       (req : Middleware.request) (now_minute now_hour : Z) (w : Middleware.world)
       (s : store),
       Middleware._is_exempt (Middleware.path req) = false →
       let identifier := Middleware._get_identifier sha256_hexdigest req in
       let minute :=
         run (Middleware.serve w)
             (Middleware.is_rate_limited ("minute:" +:+ identifier)
                (Middleware.rate_limit_per_minute cfg) 60 now_minute) s in
       let hour :=
         run (Middleware.serve w)
             (Middleware.is_rate_limited ("hour:" +:+ identifier)
                (Middleware.rate_limit_per_hour cfg) 3600 now_hour) minute.2 in
       let raised :=
         (run (Middleware.serve w)
              (Middleware.dispatch sha256_hexdigest cfg req now_minute now_hour) s).1 in
       (minute.1.1 = true →
          Middleware.raised_header "Retry-After" raised = Some (Middleware.HStr "60"))
       ∧ (minute.1.1 = false → hour.1.1 = true →
          Middleware.raised_header "Retry-After" raised
          = Some (Middleware.HStr "3600"))
       ∧ (minute.1.1 = false → hour.1.1 = false →
          ∀ user_id, Middleware.authenticated req = Some user_id →
            (run (Middleware.serve w) (Middleware.check_monthly_quota user_id)
                 hour.2).1.1 = true →
            Middleware.raised_status raised = Some 429
            ∧ Middleware.raised_header "Retry-After" raised = None))
  ∧ (∀ (key : string) (limit window_seconds now now' : Z) (w w' : Middleware.world)
       (s s1 : store) (info : Middleware.rate_info),
       1 ≤ limit →
       Forall (λ p, 0 ≤ p.2 ≤ now ÷ ticks_per_second)
              (zset_of (s !! Middleware.redis_key key window_seconds)) →
       run (Middleware.serve w) (Middleware.is_rate_limited key limit window_seconds now) s
         = ((true, info), s1) →
       now ÷ ticks_per_second + window_seconds ≤ now' ÷ ticks_per_second →
       (run (Middleware.serve w')
            (Middleware.is_rate_limited key limit window_seconds now') s1).1.1 = false).
Proof.
  split; [|split; [|split]].
  - intros. by eapply denial_retry_after_workflow.
  - intros limits service user_id config now retry_after s s1 Hcfg Hmax Hlen Hpos Hcall.
    by apply (denial_then_wait_workflow limits service user_id config now retry_after s s1).
  - intros sha256_hexdigest cfg req now_minute now_hour w s Hex identifier minute hour
      raised.
    destruct (dispatch_denial_header sha256_hexdigest cfg req now_minute now_hour w s Hex)
      as [Hminute Hhour].
    split; [exact Hminute|]. split; [exact Hhour|].
    intros Hm Hh user_id Hauth Hquota.
    by apply (dispatch_quota_denial sha256_hexdigest cfg req now_minute now_hour w s
                user_id).
  - intros. by eapply denial_then_wait_middleware.
Qed.

Lemma retry_after_of_a_denial_witness :
  denial.1 = (false, 51)
  ∧ (Workflow.call [] (seconds 1700000061)
       (Workflow.check_and_increment Workflow.LIMITS "anthropic_api" "user-1"
          (seconds 1700000061)) denial.2).1 = (true, 0)
  ∧ Middleware.raised_header "Retry-After"
      (run (Middleware.serve (database (seconds 1700000060)))
           (Middleware.dispatch (λ x, x) Middleware.default_settings tenant_request
              (seconds 1700000060) (seconds 1700000060)) full_minute).1
    = Some (Middleware.HStr "60")
  ∧ Middleware.raised_header "Retry-After"
      (run (Middleware.serve (database (seconds 1700000003)))
           (Middleware.dispatch (λ x, x) two_an_hour tenant_request
              (seconds 1700000003) (seconds 1700000003)) full_hour).1
    = Some (Middleware.HStr "3600")
  ∧ Middleware.raised_header "Retry-After"
      (run (Middleware.serve (no_subscriptions (seconds 1700000000)))
           (Middleware.dispatch (λ x, x) Middleware.default_settings tenant_request
              (seconds 1700000000) (seconds 1700000000)) ∅).1
    = None
  ∧ (run (Middleware.serve (Middleware.online (seconds 1700000120)))
         (Middleware.is_rate_limited "minute:user:42" 60 60 (seconds 1700000120))
         (run (Middleware.serve (Middleware.online (seconds 1700000060)))
              (Middleware.is_rate_limited "minute:user:42" 60 60 (seconds 1700000060))
              full_minute).2).1.1 = false.
Proof.
  destruct retry_after_of_a_denial as (Hdenial & Hworkflow & Hheader & Hmiddleware).
  split; [vm_compute; reflexivity|]. split; [|split; [|split; [|split]]].
  - refine (Hworkflow Workflow.LIMITS "anthropic_api"%string "user-1"%string
              (Workflow.mkLimit 50 60 "Anthropic Claude API")
              (seconds 1700000010) 51 full_window denial.2 _ _ _ _ _
              (seconds 1700000061) _).
    + vm_compute. reflexivity.
    + vm_compute. discriminate.
    + vm_compute. discriminate.
    + apply (bool_decide_unpack _). vm_compute. reflexivity.
    + vm_compute. reflexivity.
    + vm_compute. discriminate.
  - refine (proj1 (Hheader (λ x, x) Middleware.default_settings tenant_request
                     (seconds 1700000060) (seconds 1700000060)
                     (database (seconds 1700000060)) full_minute _) _).
    + vm_compute. reflexivity.
    + vm_compute. reflexivity.
  - refine (proj1 (proj2 (Hheader (λ x, x) two_an_hour tenant_request
                     (seconds 1700000003) (seconds 1700000003)
                     (database (seconds 1700000003)) full_hour _)) _ _).
    + vm_compute. reflexivity.
    + vm_compute. reflexivity.
    + vm_compute. reflexivity.
  - refine (proj2 (proj2 (proj2 (Hheader (λ x, x) Middleware.default_settings
                     tenant_request (seconds 1700000000) (seconds 1700000000)
                     (no_subscriptions (seconds 1700000000)) ∅ _)) _ _
                     "42"%string _ _)).
    + vm_compute. reflexivity.
    + vm_compute. reflexivity.
    + vm_compute. reflexivity.
    + reflexivity.
    + vm_compute. reflexivity.
  - refine (Hmiddleware "minute:user:42"%string 60 60 (seconds 1700000060)
              (seconds 1700000120) (Middleware.online (seconds 1700000060))
              (Middleware.online (seconds 1700000120)) full_minute _
              (run (Middleware.serve (Middleware.online (seconds 1700000060)))
                   (Middleware.is_rate_limited "minute:user:42" 60 60
                      (seconds 1700000060)) full_minute).1.2 _ _ _ _).
    + vm_compute. discriminate.
    + apply (bool_decide_unpack _). vm_compute. reflexivity.
    + vm_compute. reflexivity.
    + vm_compute. discriminate.
Defined.

(** C7 refuted as stated: tenant "42" has one request in each of the last
    60 seconds; the next request is denied (an [HTTPException] with status
    code 429) with [Retry-After: 60], the window length, though the oldest
    entry of the window is 59 seconds old, and the same request one second
    later is let through to the handler. *)
Lemma retry_after_header_is_the_window_length :
  map Middleware.raised_status
      (Middleware.dispatches (λ x, x) Middleware.default_settings database tenant_request
         [seconds 1700000060; seconds 1700000061] full_minute).1
  = [Some 429; None]
  ∧ (∃ resp,
       (Middleware.dispatches (λ x, x) Middleware.default_settings database
          tenant_request [seconds 1700000060; seconds 1700000061] full_minute).1
         !! 1%nat
       = Some (Return resp))
  ∧ Middleware.raised_header "Retry-After"
      (run (Middleware.serve (database (seconds 1700000060)))
           (Middleware.dispatch (λ x, x) Middleware.default_settings tenant_request
              (seconds 1700000060) (seconds 1700000060)) full_minute).1
    = Some (Middleware.HStr "60")
  ∧ zmin (zset_at (seconds 1700000060) minute_key full_minute)
    = Some (MSecond 1700000001, 1700000001).
Proof.
  split; [vm_compute; reflexivity|]. split; [|split; vm_compute; reflexivity].
  eexists. vm_compute. reflexivity.
Qed.

End RetryAfter.

(** ** A window filled by one caller (workflows limiter) *)

Section Filling.
Import Redis Workflow.

Variables (limits : gmap string limit_config) (service user_id : string)
          (config : limit_config).

Hypothesis Hconfig : limits !! service = Some config.
Hypothesis Hwindow : 0 < window_seconds config.

Let k : string := _get_key service user_id.
Let W : Z := window_seconds config * ticks_per_second.

(** The window before the next call: [c] entries, all stamped by earlier
    calls of this caller and not older than [horizon - W]; the key lives
    at least until [horizon]. *)
Let filling (horizon last : Z) (c : nat) (s : store) : Prop :=
  holds_string (s !! k) = false
  ∧ (∀ now, now < horizon → live now (s !! k) = s !! k)
  ∧ Forall (λ p, horizon - W ≤ p.2 ∧ ∃ t, p.1 = MStamp t user_id ∧ t ≤ last)
           (zset_of (s !! k))
  ∧ length (zset_of (s !! k)) = c.

Lemma evict_none (lo hi : Z) (z : zset) :
  Forall (λ p, hi < p.2) z → zremrangebyscore lo hi z = z.
Proof.
  induction 1 as [|p z Hp _ IH]; [reflexivity|].
  unfold zremrangebyscore in *. rewrite filter_cons, decide_True, IH; [done|].
  unfold in_range. lia.
Qed.

Lemma zadd_fresh (m : member) (score : Z) (z : zset) :
  Forall (λ p, p.1 ≠ m) z → zadd m score z = (m, score) :: z.
Proof.
  intros Hall. unfold zadd. f_equal.
  induction Hall as [|p z Hp _ IH]; [reflexivity|].
  by rewrite filter_cons, decide_True, IH.
Qed.

Lemma filling_step (horizon last now : Z) (c : nat) (s : store) :
  filling horizon last c s →
  last < now → now < horizon → horizon - W ≤ now →
  let out := call [] now (check_and_increment limits service user_id now) s in
  if requests config <=? Z.of_nat c
  then out.1.1 = false ∧ filling horizon last c out.2
  else out.1 = (true, 0) ∧ filling horizon now (S c) out.2.
Proof.
  intros (Hstr & Hlive & Hz & Hlen) Hlast Hnow Hfirst out. subst out.
  pose proof (Hlive now Hnow) as Hl.
  rewrite (call_check_and_increment limits service user_id config now s Hconfig)
    by (fold k; by rewrite Hl).
  fold k. unfold zset_at. rewrite Hl.
  assert (zremrangebyscore 0 (now - window_seconds config * ticks_per_second)
            (zset_of (s !! k)) = zset_of (s !! k)) as Hkeep.
  { apply evict_none. eapply Forall_impl; [exact Hz|]. intros p [Hp _].
    fold W. cbn beta. lia. }
  rewrite Hkeep, Hlen.
  destruct (requests config <=? Z.of_nat c); cbn [fst snd].
  - split; [reflexivity|]. unfold filling. rewrite lookup_partial_alter_eq.
    destruct (evicted_spec now 0 (now - window_seconds config * ticks_per_second)
                (s !! k)) as (_ & Hez & Hes); [by rewrite Hl|].
    rewrite Hl, Hkeep in Hez. rewrite Hez. repeat split; try assumption.
    intros now' Hnow'. unfold evicted. rewrite Hl.
    destruct (s !! k) as [[v ttl]|] eqn:Hslot; [|reflexivity].
    cbn [e_expire]. destruct (zremrangebyscore _ _ _); cbn [zset_entry]; [reflexivity|].
    apply (live_same_ttl now' v). exact (Hlive now' Hnow').
  - split; [reflexivity|]. unfold filling. rewrite lookup_partial_alter_eq.
    assert ((window_seconds config + 60 <=? 0) = false) as -> by (apply Z.leb_gt; lia).
    cbn [zset_of holds_string].
    rewrite zadd_fresh.
    + repeat split.
      * intros now' Hnow'. unfold live, expired. cbn [e_expire].
        destruct (Z.leb_spec ((now + (window_seconds config + 60) * ticks_per_second)) now');
          [|reflexivity].
        unfold W, ticks_per_second in *. lia.
      * constructor; [split; [cbn; lia | exists now; split; [reflexivity|lia]]|].
        eapply Forall_impl; [exact Hz|]. intros p (Hp & t & Hm & Ht).
        split; [exact Hp|]. exists t. split; [exact Hm|lia].
      * cbn [length]. by rewrite Hlen.
    + eapply Forall_impl; [exact Hz|]. intros p (_ & t & Hm & Ht) Heq.
      rewrite Heq in Hm. injection Hm as ->. lia.
Qed.

Lemma filling_steps (horizon : Z) (times : list Z) :
  ∀ (last : Z) (c : nat) (s : store),
    filling horizon last c s →
    StronglySorted Z.lt (last :: times) →
    Forall (λ now, horizon - W ≤ now ∧ now < horizon) times →
    map fst (checks limits service user_id times s).1
    = map (λ i, bool_decide (Z.of_nat (c + i) < requests config)) (seq 0 (length times)).
Proof.
  induction times as [|now times IH]; intros last c s Hfill Hsorted Hin; [reflexivity|].
  apply StronglySorted_inv in Hsorted as [Hsorted Hlast].
  apply Forall_cons in Hlast as [Hlast _].
  apply Forall_cons in Hin as [[Hlo Hhi] Hin].
  cbn [checks length seq map].
  pose proof (filling_step horizon last now c s Hfill Hlast Hhi Hlo) as Hstep.
  cbv zeta in Hstep.
  destruct (call [] now (check_and_increment limits service user_id now) s) as [d s1].
  cbn [fst snd] in Hstep.
  destruct (Z.leb_spec (requests config) (Z.of_nat c)) as [Hfull|Hfree].
  - destruct Hstep as [Hd Hfill1].
    assert (StronglySorted Z.lt (last :: times)) as Hsorted1.
    { apply StronglySorted_inv in Hsorted as [Hs Hall]. constructor; [exact Hs|].
      eapply Forall_impl; [exact Hall|]. intros t Ht. cbn beta in Ht. lia. }
    specialize (IH last c s1 Hfill1 Hsorted1 Hin).
    destruct (checks limits service user_id times s1) as [ds s2]. cbn [fst snd map] in IH |- *.
    rewrite Hd, IH. rewrite bool_decide_eq_false_2 by lia. f_equal.
    rewrite <- seq_shift, map_map. apply map_ext_in. intros i _.
    rewrite !bool_decide_eq_false_2 by lia. reflexivity.
  - destruct Hstep as [Hd Hfill1].
    specialize (IH now (S c) s1 Hfill1 Hsorted Hin).
    destruct (checks limits service user_id times s1) as [ds s2]. cbn [fst snd map] in IH |- *.
    rewrite Hd, IH. cbn [fst]. rewrite bool_decide_eq_true_2 by lia. f_equal.
    rewrite <- seq_shift, map_map. apply map_ext_in. intros i _.
    replace (c + S i)%nat with (S c + i)%nat by lia. reflexivity.
Qed.

(** From an empty window, calls of one caller at increasing clock readings
    that all fall within [window_seconds] of the first: the first
    [max_requests] are admitted and every later one is denied. *)
Lemma window_fills_then_denies (first : Z) (times : list Z) (s : store) :
  s !! k = None →
  StronglySorted Z.lt (first :: times) →
  Forall (λ now, now < first + W) times →
  map fst (checks limits service user_id (first :: times) s).1
  = map (λ i, bool_decide (Z.of_nat i < requests config))
        (seq 0 (S (length times))).
Proof.
  intros Hempty Hsorted Hin.
  apply (filling_steps (first + W) (first :: times) (first - 1) 0 s).
  - unfold filling. rewrite Hempty. repeat split; constructor.
  - constructor; [exact Hsorted|]. constructor; [lia|].
    apply StronglySorted_inv in Hsorted as [_ Hall].
    eapply Forall_impl; [exact Hall|]. intros t Ht. cbn beta in Ht. lia.
  - assert (0 < W) as HW.
    { unfold W, ticks_per_second. lia. }
    constructor; [lia|].
    apply StronglySorted_inv in Hsorted as [_ Hall].
    rewrite Forall_forall in Hall, Hin |- *. intros t Ht.
    specialize (Hall t Ht). specialize (Hin t Ht). cbn beta in Hin. lia.
Qed.

End Filling.

(** * Further properties of the code *)

(** ** The window of the workflows limiter *)

Section WorkflowWindow.
Import Redis Workflow.

(** X3: from an empty window, for calls of one caller at increasing clock
    readings that all fall within [window_seconds] of the first, the
    limiter admits exactly the first [max_requests] calls and denies every
    later one. *)
Theorem window_admits_exactly_the_limit
    (limits : gmap string limit_config) (service user_id : string)
    (config : limit_config) (first : Z) (times : list Z) (s : store) :
  limits !! service = Some config →
  0 < window_seconds config →
  s !! _get_key service user_id = None →
  StronglySorted Z.lt (first :: times) →
  Forall (λ now, now < first + window_seconds config * ticks_per_second) times →
  map fst (checks limits service user_id (first :: times) s).1
  = map (λ i, bool_decide (Z.of_nat i < requests config)) (seq 0 (S (length times))).
Proof. intros. by apply (window_fills_then_denies limits service user_id config). Qed.

(** The repository's own test of the limiter: a service of 3 requests in
    10 seconds, four calls within a second. *)
Lemma window_admits_exactly_the_limit_witness :
  map fst (checks Scenario.test_limits "test_service" "u"
             (Scenario.seconds 1700000000 :: Scenario.quarter_seconds) ∅).1
  = [true; true; true; false].
Proof.
  assert (Scenario.test_limits !! "test_service"%string = Some (mkLimit 3 10 "")) as Hcfg
    by (vm_compute; reflexivity).
  apply (window_admits_exactly_the_limit Scenario.test_limits "test_service" "u"
           (mkLimit 3 10 "") (Scenario.seconds 1700000000) Scenario.quarter_seconds ∅
           Hcfg ltac:(reflexivity)).
  - vm_compute. reflexivity.
  - repeat constructor; vm_compute; reflexivity.
  - repeat constructor; vm_compute; reflexivity.
Defined.

Lemma steps_evict_count_string (now : Z) (k : string) (lo hi : Z) (slot : option entry) :
  holds_string (live now slot) = true →
  steps now [ZREMRANGEBYSCORE k lo hi; ZCARD k] slot = ([RError; RError], live now slot).
Proof.
  intros Hstr. cbn [steps step].
  destruct (live now slot) as [[[z|v] ttl]|] eqn:Hlive; try discriminate.
  assert (live now (Some (mkEntry (VString v) ttl)) = Some (mkEntry (VString v) ttl)) as ->.
  { rewrite <- Hlive. apply live_idem. }
  reflexivity.
Qed.

Lemma evict_nothing (lo hi : Z) (z : zset) :
  Forall (λ p, hi < p.2) z → zremrangebyscore lo hi z = z.
Proof.
  induction 1 as [|p z Hp _ IH]; [reflexivity|].
  unfold zremrangebyscore in *. rewrite filter_cons, decide_True, IH; [done|].
  unfold in_range. clear IH. lia.
Qed.

Lemma length_zadd (m : member) (score : Z) (z : zset) :
  (length (zadd m score z) ≤ S (length z))%nat.
Proof.
  unfold zadd. cbn [length]. pose proof (length_filter (λ p : member * Z, p.1 ≠ m) z). lia.
Qed.

Lemma length_evict (lo hi : Z) (z : zset) :
  (length (zremrangebyscore lo hi z) ≤ length z)%nat.
Proof. apply length_filter. Qed.

Lemma length_zset_of_live (now : Z) (slot : option entry) :
  (length (zset_of (live now slot)) ≤ length (zset_of slot))%nat.
Proof. apply sublist_length, zset_of_live_sublist. Qed.

(** What is under the caller's key after one check, whichever round trips
    reach the server. *)
Lemma check_and_increment_slot
    (limits : gmap string limit_config) (service user_id : string)
    (config : limit_config) (now : Z) (net : list bool) (s : store) :
  limits !! service = Some config →
  let k := _get_key service user_id in
  let ws := now - window_seconds config * ticks_per_second in
  let z' := zremrangebyscore 0 ws (zset_of (live now (s !! k))) in
  let s' := (call net now (check_and_increment limits service user_id now) s).2 in
  s' = s
  ∨ s' = partial_alter (λ _, live now (s !! k)) k s
       ∧ holds_string (live now (s !! k)) = true
  ∨ s' = partial_alter (λ _, evicted now 0 ws (s !! k)) k s
       ∧ holds_string (live now (s !! k)) = false
  ∨ s' = partial_alter
           (λ _, if window_seconds config + 60 <=? 0 then None
                 else Some (mkEntry (VZSet (zadd (MStamp now user_id) now z'))
                              (Some (now + (window_seconds config + 60)
                                           * ticks_per_second))))
           k s
       ∧ holds_string (live now (s !! k)) = false
       ∧ Z.of_nat (length z') < requests config.
Proof.
  intros Hcfg k ws z' s'. subst s'. unfold check_and_increment. rewrite Hcfg.
  cbn [bind execute trigger]. rewrite call_vis. fold k ws.
  destruct (hd true net); [|rewrite round_trip_down; left; reflexivity].
  rewrite (round_trip_on_key _ _ k) by (repeat constructor).
  destruct (holds_string (live now (s !! k))) eqn:Hstr.
  { rewrite steps_evict_count_string by exact Hstr. cbn [fst snd existsb is_error orb].
    rewrite call_ret. right. left. split; reflexivity. }
  destruct (steps_evict_count now k 0 ws (s !! k) Hstr) as [n ->].
  fold (evicted now 0 ws (s !! k)). fold z'.
  cbn [fst snd existsb is_error orb int_at lookup list_lookup default]. unfold id.
  destruct (evicted_spec now 0 ws (s !! k) Hstr) as (Hlive & Hz & Hs). fold z' in Hz.
  destruct (Z.leb_spec (requests config) (Z.of_nat (length z'))) as [Hfull|Hfree];
    cbn [bind execute trigger]; rewrite call_vis;
    (destruct (hd true (tl net));
     [|rewrite round_trip_down; cbn [fst snd]; rewrite call_ret;
       right; right; left; split; reflexivity]).
  - rewrite (round_trip_on_key _ _ k) by (repeat constructor).
    rewrite lookup_partial_alter_eq, partial_alter_partial_alter_eq.
    rewrite (steps_zrange now k _ Hs Hlive). cbn [fst snd existsb is_error orb].
    right. right. left. split; [|reflexivity].
    rewrite Hz. by destruct (zmin z') as [[m o]|].
  - rewrite (round_trip_on_key _ _ k) by (repeat constructor).
    rewrite lookup_partial_alter_eq, partial_alter_partial_alter_eq.
    destruct (steps_add_expire now k (MStamp now user_id) now (window_seconds config + 60)
                (evicted now 0 ws (s !! k))) as [a ->].
    { by rewrite Hlive. }
    rewrite Hlive, Hz. cbn [fst snd existsb is_error orb]. rewrite call_ret.
    right. right. right. split; [reflexivity|]. split; [reflexivity | exact Hfree].
Qed.

Lemma window_bound_step
    (limits : gmap string limit_config) (service user_id : string)
    (config : limit_config) (now : Z) (net : list bool) (s : store) :
  limits !! service = Some config →
  Z.of_nat (length (zset_of (s !! _get_key service user_id))) ≤ requests config →
  Z.of_nat (length (zset_of
    ((call net now (check_and_increment limits service user_id now) s).2
       !! _get_key service user_id))) ≤ requests config.
Proof.
  intros Hcfg Hlen.
  pose proof (check_and_increment_slot limits service user_id config now net s Hcfg) as H.
  cbv zeta in H. set (k := _get_key service user_id) in *.
  pose proof (length_zset_of_live now (s !! k)) as Hlive.
  pose proof (length_evict 0 (now - window_seconds config * ticks_per_second)
                (zset_of (live now (s !! k)))) as Hev.
  destruct H as [-> | [[-> Hstr] | [[-> Hstr] | (-> & Hstr & Hfree)]]];
    rewrite ?lookup_partial_alter_eq.
  - exact Hlen.
  - lia.
  - destruct (evicted_spec now 0 (now - window_seconds config * ticks_per_second)
                (s !! k) Hstr) as (_ & -> & _). lia.
  - destruct (window_seconds config + 60 <=? 0); cbn [zset_of length]; [lia|].
    pose proof (length_zadd (MStamp now user_id) now
                  (zremrangebyscore 0 (now - window_seconds config * ticks_per_second)
                     (zset_of (live now (s !! k))))). lia.
Qed.

(** X1: a window that holds no more than [max_requests] entries never
    holds more after a check, whichever of its round trips reach the
    server; so consecutive checks of a caller never overfill a window that
    started within the limit. *)
Theorem window_stays_within_the_limit
    (limits : gmap string limit_config) (service user_id : string)
    (config : limit_config) (s : store) :
  limits !! service = Some config →
  Z.of_nat (length (zset_of (s !! _get_key service user_id))) ≤ requests config →
  (∀ now net,
     Z.of_nat (length (zset_of
       ((call net now (check_and_increment limits service user_id now) s).2
          !! _get_key service user_id))) ≤ requests config)
  ∧ (∀ times,
       Z.of_nat (length (zset_of
         ((checks limits service user_id times s).2 !! _get_key service user_id)))
       ≤ requests config).
Proof.
  intros Hcfg Hlen. split.
  - intros now net. by apply (window_bound_step limits service user_id config).
  - intros times. revert s Hlen.
    induction times as [|now times IH]; intros s Hlen; [exact Hlen|].
    cbn [checks].
    pose proof (window_bound_step limits service user_id config now [] s Hcfg Hlen) as H1.
    destruct (call [] now (check_and_increment limits service user_id now) s) as [d s1].
    cbn [snd] in H1. specialize (IH s1 H1).
    by destruct (checks limits service user_id times s1) as [ds s2].
Qed.

Lemma window_stays_within_the_limit_witness :
  Z.of_nat (length (zset_of
    ((checks LIMITS "anthropic_api" "user-1" (Scenario.readings 1700000000 60) ∅).2
       !! _get_key "anthropic_api" "user-1"))) ≤ 50.
Proof.
  refine (proj2 (window_stays_within_the_limit LIMITS "anthropic_api" "user-1"
                   (mkLimit 50 60 "Anthropic Claude API") ∅ _ _) _).
  - vm_compute. reflexivity.
  - vm_compute. discriminate.
Defined.

(** A check changes the store under the caller's key only. *)
Lemma check_and_increment_touches_own_key
    (limits : gmap string limit_config) (service user_id : string)
    (now : Z) (net : list bool) (s : store) :
  ∃ f, (call net now (check_and_increment limits service user_id now) s).2
       = partial_alter f (_get_key service user_id) s.
Proof.
  destruct (limits !! service) as [config|] eqn:Hcfg.
  - pose proof (check_and_increment_slot limits service user_id config now net s Hcfg) as H.
    cbv zeta in H.
    destruct H as [-> | [[-> _] | [[-> _] | (-> & _ & _)]]]; eauto.
    exists (λ o, o). symmetry. by apply partial_alter_id.
  - unfold check_and_increment. rewrite Hcfg, call_ret.
    exists (λ o, o). symmetry. by apply partial_alter_id.
Qed.

Lemma checks_touch_own_key
    (limits : gmap string limit_config) (service user_id : string) (times : list Z) :
  ∀ s, ∃ f, (checks limits service user_id times s).2
            = partial_alter f (_get_key service user_id) s.
Proof.
  induction times as [|now times IH]; intros s.
  - exists (λ o, o). symmetry. by apply partial_alter_id.
  - cbn [checks].
    destruct (check_and_increment_touches_own_key limits service user_id now [] s)
      as [f Hf].
    destruct (call [] now (check_and_increment limits service user_id now) s) as [d s1].
    cbn [snd] in Hf. destruct (IH s1) as [g Hg].
    destruct (checks limits service user_id times s1) as [ds s2]. cbn [snd] in Hg |- *.
    exists (g ∘ f). by rewrite Hg, Hf, partial_alter_partial_alter_eq.
Qed.

(** X2: the windows of two callers are independent.  Whatever checks one
    caller makes, the decisions of a caller with another key are those it
    would have got without them; two users of one service have different
    keys. *)
Theorem other_callers_are_unaffected
    (limits : gmap string limit_config) (service user_id service' user_id' : string)
    (times times' : list Z) (s : store) :
  _get_key service user_id ≠ _get_key service' user_id' →
  (checks limits service' user_id' times'
     (checks limits service user_id times s).2).1
  = (checks limits service' user_id' times' s).1
  ∧ (∀ a b, a ≠ b → _get_key service a ≠ _get_key service b).
Proof.
  intros Hne. split.
  - destruct (checks_touch_own_key limits service user_id times s) as [f ->].
    by rewrite checks_frame.
  - intros a b Hab Heq. apply Hab. unfold _get_key in Heq.
    by repeat apply String.app_inj in Heq.
Qed.

Lemma other_callers_are_unaffected_witness :
  (checks Scenario.test_limits "test_service" "user2" [Scenario.seconds 1700000001]
     (checks Scenario.test_limits "test_service" "user1"
        (Scenario.seconds 1700000000 :: Scenario.quarter_seconds) ∅).2).1
  = [(true, 0)].
Proof.
  refine (proj1 (other_callers_are_unaffected Scenario.test_limits
                   "test_service" "user1" "test_service" "user2"
                   (Scenario.seconds 1700000000 :: Scenario.quarter_seconds)
                   [Scenario.seconds 1700000001] ∅ _)).
  vm_compute. discriminate.
Defined.

(** X4: the wait a denial announces is at least one second and at most
    [window_seconds + 1], where the limit is at least 1 and the entries of
    the window are stamped between the epoch and the present. *)
Theorem denial_wait_is_within_the_window
    (limits : gmap string limit_config) (service user_id : string)
    (config : limit_config) (now retry_after : Z) (s s1 : store) :
  limits !! service = Some config →
  1 ≤ requests config →
  Forall (λ p, 0 ≤ p.2 ≤ now) (zset_at now (_get_key service user_id) s) →
  call [] now (check_and_increment limits service user_id now) s
    = ((false, retry_after), s1) →
  1 ≤ retry_after ≤ window_seconds config + 1.
Proof.
  intros Hcfg Hmax Hpast Hcall.
  set (k := _get_key service user_id) in *.
  destruct (holds_string (live now (s !! k))) eqn:Hstr.
  { pose proof (call_check_and_increment_on_string limits service user_id now s Hstr) as H.
    rewrite Hcall in H. discriminate. }
  rewrite (call_check_and_increment limits service user_id config now s Hcfg Hstr) in Hcall.
  fold k in Hcall.
  set (z' := zremrangebyscore 0 (now - window_seconds config * ticks_per_second)
               (zset_at now k s)) in *.
  destruct (Z.leb_spec (requests config) (Z.of_nat (length z'))) as [Hfull|_];
    [|discriminate].
  injection Hcall as Hra _.
  destruct (zmin_is_Some z') as [oldest Hold].
  { intros Hnil. rewrite Hnil in Hfull. cbn in Hfull. lia. }
  rewrite Hold in Hra. subst retry_after.
  pose proof (zmin_elem z' oldest Hold) as Hin.
  apply list_elem_of_filter in Hin as [Hout Hin].
  rewrite Forall_forall in Hpast. specialize (Hpast oldest Hin).
  unfold in_range in Hout. unfold retry_after_of, ticks_per_second in *.
  pose proof (Z.quot_rem' (oldest.2 + window_seconds config * 1000000 - now) 1000000).
  pose proof (Z.rem_bound_pos (oldest.2 + window_seconds config * 1000000 - now) 1000000).
  lia.
Qed.

Lemma denial_wait_is_within_the_window_witness :
  1 ≤ Scenario.denial.1.2 ≤ 61.
Proof.
  refine (denial_wait_is_within_the_window LIMITS "anthropic_api" "user-1"
            (mkLimit 50 60 "Anthropic Claude API") (Scenario.seconds 1700000010)
            Scenario.denial.1.2 Scenario.full_window Scenario.denial.2 _ _ _ _).
  - vm_compute. reflexivity.
  - vm_compute. discriminate.
  - apply (bool_decide_unpack _). vm_compute. reflexivity.
  - vm_compute. reflexivity.
Defined.

(** X5: a denial stands until the oldest entry leaves the window: a check
    made [d] seconds after a denial that announced [retry_after], with
    [d + 2 <= retry_after], is denied again (the key not having expired,
    no other call in between). *)
Theorem retry_before_the_wait_is_denied
    (limits : gmap string limit_config) (service user_id : string)
    (config : limit_config) (now retry_after d : Z) (s s1 : store) :
  limits !! service = Some config →
  1 ≤ requests config →
  call [] now (check_and_increment limits service user_id now) s
    = ((false, retry_after), s1) →
  d + 2 ≤ retry_after →
  live (now + d * ticks_per_second) (s1 !! _get_key service user_id)
    = s1 !! _get_key service user_id →
  (call [] (now + d * ticks_per_second)
     (check_and_increment limits service user_id (now + d * ticks_per_second)) s1).1.1
  = false.
Proof.
  intros Hcfg Hmax Hcall Hd Hlive1.
  set (k := _get_key service user_id) in *.
  set (now' := now + d * ticks_per_second) in *.
  destruct (holds_string (live now (s !! k))) eqn:Hstr.
  { pose proof (call_check_and_increment_on_string limits service user_id now s Hstr) as H.
    rewrite Hcall in H. discriminate. }
  rewrite (call_check_and_increment limits service user_id config now s Hcfg Hstr) in Hcall.
  fold k in Hcall.
  set (ws := now - window_seconds config * ticks_per_second) in *.
  set (z' := zremrangebyscore 0 ws (zset_at now k s)) in *.
  destruct (Z.leb_spec (requests config) (Z.of_nat (length z'))) as [Hfull|_];
    [|discriminate].
  injection Hcall as Hra Hs1.
  destruct (zmin_is_Some z') as [oldest Hold].
  { intros Hnil. rewrite Hnil in Hfull. cbn in Hfull. lia. }
  rewrite Hold in Hra.
  destruct (evicted_spec now 0 ws (s !! k) Hstr) as (_ & Hz & Hs).
  fold (zset_at now k s) in Hz. fold z' in Hz.
  assert (s1 !! k = evicted now 0 ws (s !! k)) as Hslot
    by (subst s1; by rewrite lookup_partial_alter_eq).
  assert (holds_string (live now' (s1 !! k)) = false) as Hstr1
    by (rewrite Hlive1, Hslot; exact Hs).
  rewrite (call_check_and_increment limits service user_id config now' s1 Hcfg Hstr1).
  fold k. unfold zset_at at 1. rewrite Hlive1, Hslot, Hz.
  rewrite evict_nothing.
  - destruct (Z.leb_spec (requests config) (Z.of_nat (length z'))); [reflexivity | lia].
  - rewrite Forall_forall. intros p Hp.
    pose proof (zmin_least z' oldest Hold p Hp) as Hle.
    unfold retry_after_of, ticks_per_second in *. subst now'.
    pose proof (Z.quot_rem' (oldest.2 + window_seconds config * 1000000 - now) 1000000).
    pose proof (Z.rem_bound_abs (oldest.2 + window_seconds config * 1000000 - now) 1000000).
    assert (0 ≤ oldest.2 + window_seconds config * 1000000 - now
            → 0 ≤ (oldest.2 + window_seconds config * 1000000 - now) `rem` 1000000)
      by (intros; apply Z.rem_bound_pos; lia).
    lia.
Qed.

Lemma retry_before_the_wait_is_denied_witness :
  (call [] (Scenario.seconds 1700000010 + 2 * ticks_per_second)
     (check_and_increment LIMITS "anthropic_api" "user-1"
        (Scenario.seconds 1700000010 + 2 * ticks_per_second)) Scenario.denial.2).1.1
  = false.
Proof.
  refine (retry_before_the_wait_is_denied LIMITS "anthropic_api" "user-1"
            (mkLimit 50 60 "Anthropic Claude API") (Scenario.seconds 1700000010)
            51 2 Scenario.full_window Scenario.denial.2 _ _ _ _ _).
  - vm_compute. reflexivity.
  - vm_compute. discriminate.
  - vm_compute. reflexivity.
  - vm_compute. discriminate.
  - vm_compute. reflexivity.
Defined.

Lemma call_get_current_usage
    (limits : gmap string limit_config) (service user_id : string)
    (config : limit_config) (now : Z) (s : store) :
  limits !! service = Some config →
  let k := _get_key service user_id in
  let ws := now - window_seconds config * ticks_per_second in
  call [] now (get_current_usage limits service user_id now) s
  = if holds_string (live now (s !! k))
    then (Raise (), partial_alter (λ _, live now (s !! k)) k s)
    else (Return (Z.of_nat (length (zremrangebyscore 0 ws (zset_at now k s))),
                  requests config),
          partial_alter (λ _, evicted now 0 ws (s !! k)) k s).
Proof.
  intros Hcfg k ws. unfold get_current_usage. rewrite Hcfg.
  cbn [bind execute trigger]. rewrite call_vis. cbn [hd tl]. fold k ws.
  rewrite (round_trip_on_key _ _ k) by (repeat constructor).
  destruct (holds_string (live now (s !! k))) eqn:Hstr.
  - rewrite steps_evict_count_string by exact Hstr. reflexivity.
  - destruct (steps_evict_count now k 0 ws (s !! k) Hstr) as [n ->]. reflexivity.
Qed.

(** X6: [get_current_usage] and [check_and_increment] agree.  On one store
    and at one clock reading, the server reached: where the usage reads
    [(n, max)], [max] is the service's limit and the check is allowed
    exactly when [n < max]; where the usage raises (the key holds no
    sorted set), the check is admitted. *)
Theorem usage_agrees_with_the_check
    (limits : gmap string limit_config) (service user_id : string)
    (config : limit_config) (now : Z) (s : store) :
  limits !! service = Some config →
  match (call [] now (get_current_usage limits service user_id now) s).1 with
  | Return (n, max) =>
      max = requests config ∧ 0 ≤ n
      ∧ (call [] now (check_and_increment limits service user_id now) s).1.1
        = bool_decide (n < max)
  | Raise _ =>
      (call [] now (check_and_increment limits service user_id now) s).1 = (true, 0)
  end.
Proof.
  intros Hcfg. rewrite (call_get_current_usage limits service user_id config now s Hcfg).
  destruct (holds_string (live now (s !! _get_key service user_id))) eqn:Hstr; cbn [fst].
  - by apply call_check_and_increment_on_string.
  - rewrite (call_check_and_increment limits service user_id config now s Hcfg Hstr).
    split; [reflexivity|]. split; [lia|].
    destruct (Z.leb_spec (requests config)
                (Z.of_nat (length (zremrangebyscore 0
                   (now - window_seconds config * ticks_per_second)
                   (zset_at now (_get_key service user_id) s))))); cbn [fst].
    + by rewrite bool_decide_eq_false_2 by lia.
    + by rewrite bool_decide_eq_true_2 by lia.
Qed.

Lemma usage_agrees_with_the_check_witness :
  (call [] (Scenario.seconds 1700000010)
     (get_current_usage LIMITS "anthropic_api" "user-1" (Scenario.seconds 1700000010))
     Scenario.full_window).1 = Return (50, 50)
  ∧ (call [] (Scenario.seconds 1700000010)
       (check_and_increment LIMITS "anthropic_api" "user-1" (Scenario.seconds 1700000010))
       Scenario.full_window).1.1 = false.
Proof.
  pose proof (usage_agrees_with_the_check LIMITS "anthropic_api" "user-1"
                (mkLimit 50 60 "Anthropic Claude API") (Scenario.seconds 1700000010)
                Scenario.full_window ltac:(vm_compute; reflexivity)) as H.
  assert ((call [] (Scenario.seconds 1700000010)
             (get_current_usage LIMITS "anthropic_api" "user-1"
                (Scenario.seconds 1700000010)) Scenario.full_window).1
          = Return (50, 50)) as Husage by (vm_compute; reflexivity).
  rewrite Husage in H. destruct H as (_ & _ & H).
  split; [exact Husage | exact H].
Defined.

(** X7: [reset_limit] empties the caller's window whatever was under the
    key: the store afterwards is the store without the key, the next check
    of a service whose limit is at least 1 is admitted and the usage reads
    [(0, max_requests)]. *)
Theorem reset_limit_empties_the_window
    (limits : gmap string limit_config) (service user_id : string)
    (config : limit_config) (now now' : Z) (s : store) :
  limits !! service = Some config →
  1 ≤ requests config →
  call [] now (reset_limit service user_id) s
    = (Return (), delete (_get_key service user_id) s)
  ∧ (call [] now' (check_and_increment limits service user_id now')
       (delete (_get_key service user_id) s)).1 = (true, 0)
  ∧ (call [] now' (get_current_usage limits service user_id now')
       (delete (_get_key service user_id) s)).1 = Return (0, requests config).
Proof.
  intros Hcfg Hmax. set (k := _get_key service user_id).
  split; [|split].
  - unfold reset_limit. cbn [bind execute trigger]. rewrite call_vis. cbn [hd tl].
    rewrite (round_trip_on_key _ _ k) by (repeat constructor).
    cbn [steps step]. by destruct (live now (s !! k)).
  - rewrite (call_check_and_increment limits service user_id config now' _ Hcfg);
      fold k; unfold zset_at; rewrite lookup_delete_eq; [|reflexivity].
    cbn [live zset_of zremrangebyscore filter list_filter length].
    change (Z.of_nat 0) with 0.
    destruct (Z.leb_spec (requests config) 0); [lia | reflexivity].
  - rewrite (call_get_current_usage limits service user_id config now' _ Hcfg).
    fold k. unfold zset_at. rewrite lookup_delete_eq. reflexivity.
Qed.

Lemma reset_limit_empties_the_window_witness :
  (call [] (Scenario.seconds 1700000011)
     (check_and_increment LIMITS "anthropic_api" "user-1" (Scenario.seconds 1700000011))
     (delete (_get_key "anthropic_api" "user-1") Scenario.full_window)).1 = (true, 0).
Proof.
  refine (proj1 (proj2 (reset_limit_empties_the_window LIMITS "anthropic_api" "user-1"
                          (mkLimit 50 60 "Anthropic Claude API")
                          (Scenario.seconds 1700000011) (Scenario.seconds 1700000011)
                          Scenario.full_window _ _))).
  - vm_compute. reflexivity.
  - vm_compute. discriminate.
Defined.

End WorkflowWindow.

(** ** The provider's headers (workflows limiter) *)

Section ProviderHeaders.
Import Redis Workflow.

Lemma local_Datetime (tz : zone) (timet wall : Z) :
  local tz timet = Datetime wall →
  ∃ utcoffset, tz timet = Some utcoffset
               ∧ wall = (timet + utcoffset) * ticks_per_second.
Proof.
  unfold local. destruct (tz timet) as [utcoffset|]; [|discriminate].
  destruct (year_in_range (timet + utcoffset)); [|discriminate].
  intros [= <-]. by exists utcoffset.
Qed.

Lemma datetime_from_timet_Datetime (tz : zone) (timet wall : Z) :
  datetime_from_timet tz timet = Datetime wall →
  ∃ utcoffset, tz timet = Some utcoffset
               ∧ wall = (timet + utcoffset) * ticks_per_second.
Proof.
  unfold datetime_from_timet.
  destruct (local tz timet) as [result| | |] eqn:Hlocal; try discriminate.
  intros H. apply local_Datetime in Hlocal as (utcoffset & Htz & ->).
  exists utcoffset. split; [exact Htz|].
  destruct (local tz (timet - max_fold_seconds)); try discriminate.
  destruct (_ <? 0); [|congruence].
  destruct (local tz _); try discriminate. congruence.
Qed.

Lemma parse_twitter_headers_Some (tz : zone) (headers : gmap string header_value)
    (now : Z) (info : limit_info) :
  parse_twitter_headers tz headers now = Return (Some info) →
  header_int headers "x-rate-limit-limit" 0 = Some (li_limit info)
  ∧ header_int headers "x-rate-limit-remaining" 0 = Some (li_remaining info)
  ∧ header_int headers "x-rate-limit-reset" 0 = Some (li_reset info)
  ∧ ∃ utcoffset_reset utcoffset_now,
      tz (li_reset info) = Some utcoffset_reset
      ∧ tz (now / ticks_per_second) = Some utcoffset_now
      ∧ li_retry_after info
        = Z.max 0 (timedelta_seconds
                     ((li_reset info + utcoffset_reset) * ticks_per_second)
                     ((now / ticks_per_second + utcoffset_now) * ticks_per_second
                      + now mod ticks_per_second)).
Proof.
  unfold parse_twitter_headers.
  destruct (header_int headers "x-rate-limit-limit" 0) as [limit|]; [|discriminate].
  destruct (header_int headers "x-rate-limit-remaining" 0) as [remaining|]; [|discriminate].
  destruct (header_int headers "x-rate-limit-reset" 0) as [reset|]; [|discriminate].
  destruct (fromtimestamp tz reset) as [reset_time| | |] eqn:Hreset; try discriminate.
  unfold datetime_now.
  destruct (datetime_from_timet tz (now / ticks_per_second)) as [now_time| | |] eqn:Hnow;
    try discriminate.
  intros [= <-]. cbn [li_limit li_remaining li_reset li_retry_after].
  do 3 (split; [reflexivity|]).
  unfold fromtimestamp in Hreset.
  destruct ((reset <? - 2 ^ 63) || (2 ^ 63 <=? reset)); [discriminate|].
  apply datetime_from_timet_Datetime in Hreset as (utcoffset_reset & Hr & ->).
  apply datetime_from_timet_Datetime in Hnow as (utcoffset_now & Hn & ->).
  by exists utcoffset_reset, utcoffset_now.
Qed.

Lemma parsed_retry_after_range (tz : zone)
    (headers : gmap string header_value) (now : Z) (info : limit_info) :
  parse_twitter_headers tz headers now = Return (Some info) →
  0 ≤ li_retry_after info < 86400.
Proof.
  intros Hparse.
  apply parse_twitter_headers_Some in Hparse as (_ & _ & _ & ? & ? & _ & _ & ->).
  unfold timedelta_seconds, ticks_per_second.
  split; Z.div_mod_to_equations; lia.
Qed.

(** X8: the [retry_after] that [parse_twitter_headers] computes is the
    seconds field of the difference of two local clock readings: it lies
    between 0 and 86399 and is, modulo 86400, the whole seconds from now to
    the reset plus the change of the UTC offset in between.  Where the
    offset is the same at both times, it is the whole seconds left until
    the reset only for a reset less than a day ahead; for a reset up to
    86399 seconds in the past it is 86400 minus the seconds gone by,
    not 0. *)
Theorem parsed_retry_after_is_a_seconds_field (tz : zone)
    (headers : gmap string header_value) (now : Z) (info : limit_info) :
  parse_twitter_headers tz headers now = Return (Some info) →
  0 ≤ li_retry_after info < 86400
  ∧ ∃ utcoffset_reset utcoffset_now,
      tz (li_reset info) = Some utcoffset_reset
      ∧ tz (now / ticks_per_second) = Some utcoffset_now
      ∧ li_retry_after info
        = (((li_reset info + utcoffset_reset - utcoffset_now) * ticks_per_second - now)
             / ticks_per_second) mod 86400
      ∧ (utcoffset_reset = utcoffset_now →
         now ≤ li_reset info * ticks_per_second < now + 86400 * ticks_per_second →
         li_retry_after info
         = (li_reset info * ticks_per_second - now) / ticks_per_second)
      ∧ (utcoffset_reset = utcoffset_now →
         now - 86399 * ticks_per_second ≤ li_reset info * ticks_per_second < now →
         li_retry_after info
           = 86400 - (now - li_reset info * ticks_per_second + ticks_per_second - 1)
                       / ticks_per_second
         ∧ 1 ≤ li_retry_after info).
Proof.
  intros Hparse. split; [by eapply parsed_retry_after_range|].
  apply parse_twitter_headers_Some in Hparse
    as (_ & _ & _ & utcoffset_reset & utcoffset_now & Hr & Hn & ->).
  exists utcoffset_reset, utcoffset_now.
  split; [exact Hr|]. split; [exact Hn|].
  unfold timedelta_seconds, ticks_per_second.
  set (reset := li_reset info). clearbody reset. clear info headers Hr Hn.
  split; [|split].
  - Z.div_mod_to_equations. lia.
  - intros -> H. Z.div_mod_to_equations. lia.
  - intros -> H. split; Z.div_mod_to_equations; lia.
Qed.

Lemma parsed_retry_after_is_a_seconds_field_witness :
  0 ≤ li_retry_after (mkInfo 900 5 1730615400 85200) < 86400.
Proof.
  refine (proj1 (parsed_retry_after_is_a_seconds_field Scenario.eastern
                   Scenario.clock_change_headers (Scenario.seconds 1730613000)
                   (mkInfo 900 5 1730615400 85200) _)).
  vm_compute. reflexivity.
Defined.

(** Across a change of the clocks the value is off by the change: read at
    01:50 EDT, a reset 2400 seconds ahead (01:30 EST) gives 85200; the same
    headers read in UTC give 2400. *)
Lemma retry_after_across_a_clock_change :
  parse_twitter_headers Scenario.eastern Scenario.clock_change_headers
    (Scenario.seconds 1730613000)
  = Return (Some (mkInfo 900 5 1730615400 85200))
  ∧ parse_twitter_headers Scenario.utc Scenario.clock_change_headers
      (Scenario.seconds 1730613000)
    = Return (Some (mkInfo 900 5 1730615400 2400)).
Proof. split; vm_compute; reflexivity. Qed.

(** X9: whenever the headers parse and the server is reached, the sync
    succeeds and puts the provider's reset time under
    [twitter_reset:{service}:{user_id}], in place of whatever was there;
    the time to live it sets is between 60 and 86459 seconds, so the
    [SETEX] is never refused for its expiry and the value can be read for
    at least a minute. *)
Theorem sync_stores_the_reset_time (tz : zone)
    (service user_id : string) (headers : gmap string header_value) (now : Z)
    (info : limit_info) (s : store) :
  parse_twitter_headers tz headers now = Return (Some info) →
  call [] now (sync_with_twitter_headers tz service user_id headers now) s
    = (Return (),
       <[reset_key service user_id :=
           mkEntry (VString (li_reset info))
                   (Some (now + (li_retry_after info + 60) * ticks_per_second))]> s)
  ∧ 60 ≤ li_retry_after info + 60 ≤ 86459
  ∧ (∀ t, t < now + 60 * ticks_per_second →
       live t ((call [] now (sync_with_twitter_headers tz service user_id headers now)
                  s).2
                 !! reset_key service user_id)
       = Some (mkEntry (VString (li_reset info))
                       (Some (now + (li_retry_after info + 60) * ticks_per_second)))).
Proof.
  intros Hparse.
  pose proof (parsed_retry_after_range tz headers now info Hparse) as Hrange.
  assert (call [] now (sync_with_twitter_headers tz service user_id headers now) s
          = (Return (),
             <[reset_key service user_id :=
                 mkEntry (VString (li_reset info))
                         (Some (now + (li_retry_after info + 60) * ticks_per_second))]> s))
    as Hcall.
  { unfold sync_with_twitter_headers. rewrite Hparse.
    cbn [bind execute trigger]. rewrite call_vis. cbn [hd tl].
    rewrite (round_trip_on_key _ _ (reset_key service user_id)) by (repeat constructor).
    cbn [steps step].
    destruct (Z.leb_spec (li_retry_after info + 60) 0); [lia|]. reflexivity. }
  split; [exact Hcall|]. split; [lia|].
  intros t Ht. rewrite Hcall. cbn [snd]. rewrite lookup_insert_eq.
  unfold live, expired. cbn [e_expire].
  destruct (Z.leb_spec (now + (li_retry_after info + 60) * ticks_per_second) t);
    [|reflexivity].
  unfold ticks_per_second in *. lia.
Qed.

Lemma sync_stores_the_reset_time_witness :
  Scenario.after_sync.2 !! reset_key "twitter_user_timeline" "user-1"
  = Some (mkEntry (VString 1700000031) (Some (Scenario.seconds 1700000091))).
Proof.
  pose proof (proj1 (sync_stores_the_reset_time Scenario.utc
                       "twitter_user_timeline" "user-1"
                       Scenario.provider_headers (Scenario.seconds 1700000001)
                       (mkInfo 900 5 1700000031 30) Scenario.fifty_left
                       ltac:(vm_compute; reflexivity))) as H.
  unfold Scenario.after_sync. rewrite H. cbn [snd]. by rewrite lookup_insert_eq.
Defined.

End ProviderHeaders.

(** ** The retry decorator: how often and how long *)

Section RetryBounds.
Import Workflow.

Variable V : Type.

Lemma status_cases (code : Z) :
  code = 429
  ∨ ∀ (A : Type) (a b : A), match code with 429 => a | _ => b end = b.
Proof.
  destruct (decide (code = 429)) as [->|Hne]; [by left|right].
  intros A a b. destruct code as [|p|p]; try reflexivity.
  do 9 (destruct p as [p|p|]; try reflexivity). congruence.
Qed.

(** One round of the loop: the call ends the wrapper (with a value or an
    exception, not with [None]), or, before the last round, is followed by
    a sleep and the rounds left. *)
Lemma attempts_round (max_retries base_delay : Z) (rounds : nat) (attempt : Z)
    (o : exc exn V) (outcomes : list (exc exn V)) (naps : list (exc exn unit)) :
  (∃ r, r ≠ Return None
        ∧ retry_run (o :: outcomes) naps
            (attempts max_retries base_delay (S rounds) attempt) = ([], Some r)
        ∧ invocations (o :: outcomes) naps
            (attempts max_retries base_delay (S rounds) attempt) = 1%nat)
  ∨ (attempt ≠ max_retries
     ∧ ∃ delay,
         retry_run (o :: outcomes) naps
           (attempts max_retries base_delay (S rounds) attempt)
         = retry_run outcomes naps
             (sleep V delay (attempts max_retries base_delay rounds (attempt + 1)))
         ∧ invocations (o :: outcomes) naps
             (attempts max_retries base_delay (S rounds) attempt)
           = S (invocations outcomes naps
                  (sleep V delay
                     (attempts max_retries base_delay rounds (attempt + 1))))).
Proof.
  cbn [attempts retry_run invocations].
  destruct o as [v|e]; [left; eexists; split; [|split; reflexivity]; discriminate|].
  destruct e as [retry_after limit_type|code header| | |];
    try (left; eexists; split; [|split; reflexivity]; discriminate).
  - destruct (Z.eqb_spec attempt max_retries) as [Heq|Hne].
    + left; eexists; split; [|split; reflexivity]; discriminate.
    + right. split; [exact Hne|]. eexists. split; reflexivity.
  - destruct code as [code|];
      [|left; eexists; split; [|split; reflexivity]; discriminate].
    destruct (status_cases code) as [->|Hother].
    + destruct (Z.eqb_spec attempt max_retries) as [Heq|Hne].
      * left; eexists; split; [|split; reflexivity]; discriminate.
      * destruct header as [[r|text]|].
        -- right. split; [exact Hne|]. eexists. split; reflexivity.
        -- left; eexists; split; [|split; reflexivity]; discriminate.
        -- right. split; [exact Hne|]. eexists. split; reflexivity.
    + rewrite !Hother. left; eexists; split; [|split; reflexivity]; discriminate.
Qed.

(** After a sleep the loop goes on, or the sleep ends the wrapper with an
    exception; the bounds of the rest carry over. *)
Lemma sleep_bounds (outcomes : list (exc exn V)) (naps : list (exc exn unit))
    (delay : Z) (rounds : nat)
    (next : prog retry_event (retry_answer V) (exc exn (option V))) :
  (∀ naps', (invocations outcomes naps' next ≤ S rounds)%nat
            ∧ (length (retry_run outcomes naps' next).1 ≤ rounds)%nat
            ∧ (retry_run outcomes naps' next).2 ≠ Some (Return None)) →
  (invocations outcomes naps (sleep V delay next) ≤ S rounds)%nat
  ∧ (length (retry_run outcomes naps (sleep V delay next)).1 ≤ S rounds)%nat
  ∧ (retry_run outcomes naps (sleep V delay next)).2 ≠ Some (Return None).
Proof.
  intros Hnext. rewrite sleep_cases.
  repeat destruct (decide _);
    try (cbn [invocations retry_run fst snd length];
         repeat split; [lia | lia | discriminate]).
  cbn [invocations retry_run].
  destruct (hd (Return ()) naps) as [[]|e].
  - destruct (Hnext (tl naps)) as (Hinv & Hlen & Hres).
    destruct (retry_run outcomes (tl naps) next) as [ds r]. cbn [fst snd length] in *.
    repeat split; [lia | lia | exact Hres].
  - cbn [invocations retry_run fst snd length].
    repeat split; [lia | lia | discriminate].
Qed.

Lemma attempts_bounds (max_retries base_delay : Z) (rounds : nat) :
  ∀ (attempt : Z) (outcomes : list (exc exn V)) (naps : list (exc exn unit)),
    attempt + Z.of_nat rounds = max_retries →
    (invocations outcomes naps (attempts max_retries base_delay (S rounds) attempt)
     ≤ S rounds)%nat
    ∧ (length (retry_run outcomes naps
                 (attempts max_retries base_delay (S rounds) attempt)).1 ≤ rounds)%nat
    ∧ (retry_run outcomes naps (attempts max_retries base_delay (S rounds) attempt)).2
      ≠ Some (Return None).
Proof.
  induction rounds as [|rounds IH]; intros attempt outcomes naps Hrounds.
  - destruct outcomes as [|o outcomes];
      [cbn; repeat split; [lia | lia | discriminate]|].
    destruct (attempts_round max_retries base_delay 0 attempt o outcomes naps)
      as [(r & Hr & -> & ->)|[Hne _]]; [|lia].
    cbn [fst snd length]. repeat split; [lia | lia | congruence].
  - destruct outcomes as [|o outcomes];
      [cbn; repeat split; [lia | lia | discriminate]|].
    destruct (attempts_round max_retries base_delay (S rounds) attempt o outcomes naps)
      as [(r & Hr & -> & ->)|(Hne & delay & -> & ->)].
    + cbn [fst snd length]. repeat split; [lia | lia | congruence].
    + destruct (sleep_bounds outcomes naps delay rounds
                  (attempts max_retries base_delay (S rounds) (attempt + 1)))
        as (H1 & H2 & H3).
      { intros naps'. apply IH. lia. }
      repeat split; [lia | lia | exact H3].
Qed.

(** X10: whatever the wrapped function and the platform's sleep do, the
    wrapper of [exponential_backoff(max_retries, base_delay)] with
    [max_retries >= 0] calls the function at most [max_retries + 1] times,
    sleeps at most [max_retries] times, and ends with the value of a call
    or with an exception, never with the [None] that follows the loop.
    With a negative [max_retries] the function is not called at all and
    [None] is returned. *)
Theorem retries_are_bounded (max_retries base_delay : Z) (outcomes : list (exc exn V))
    (naps : list (exc exn unit)) :
  (0 ≤ max_retries →
     (invocations outcomes naps (exponential_backoff max_retries base_delay)
      ≤ Z.to_nat (max_retries + 1))%nat
     ∧ (length (retry_run outcomes naps
                  (exponential_backoff max_retries base_delay)).1
        ≤ Z.to_nat max_retries)%nat
     ∧ (retry_run outcomes naps (exponential_backoff max_retries base_delay)).2
       ≠ Some (Return None))
  ∧ (max_retries < 0 →
     exponential_backoff (V:=V) max_retries base_delay = Ret (Return None)).
Proof.
  split.
  - intros Hmax. unfold exponential_backoff.
    replace (Z.to_nat (max_retries + 1)) with (S (Z.to_nat max_retries)) by lia.
    apply attempts_bounds. lia.
  - intros Hneg. unfold exponential_backoff.
    replace (Z.to_nat (max_retries + 1)) with O by lia. reflexivity.
Qed.

(** The rejection of the last round is raised. *)
Lemma retry_run_last (max_retries base_delay : Z) (last : rejection)
    (rest : list (exc exn V)) (naps : list (exc exn unit)) (rounds : nat) :
  retry_run (rejected last :: rest) naps
            (attempts max_retries base_delay (S rounds) max_retries)
  = ([], Some match last with
              | LimitExceeded retry_after limit_type =>
                  Raise (RateLimitExceeded retry_after limit_type)
              | Http429 retry_after =>
                  Raise (ResponseError (Some 429) (option_map HInt retry_after))
              end).
Proof.
  destruct last as [retry_after limit_type|header];
    cbn [rejected retry_run attempts]; rewrite Z.eqb_refl; reflexivity.
Qed.

Lemma length_delays_from (base_delay : Z) (rejections : list rejection) :
  ∀ attempt, length (delays_from base_delay attempt rejections) = length rejections.
Proof.
  induction rejections as [|r rs IH]; intros attempt; [reflexivity|].
  cbn [delays_from length]. f_equal. apply IH.
Qed.

(** X11: when the wrapped function is rejected [max_retries + 1] times in
    a row, each delay being one that [time.sleep] takes (from 0 to
    9223372036 seconds) and each sleep returning, the wrapper sleeps after
    each of the first [max_retries] rejections and then raises the
    exception of the last one. *)
Theorem exhausted_retries_raise_the_last_rejection
    (max_retries base_delay : Z) (rejections : list rejection) (last : rejection)
    (naps : list (exc exn unit)) :
  Z.of_nat (length rejections) = max_retries →
  Forall (λ d, 0 ≤ d ≤ 9223372036) (delays_from base_delay 0 rejections) →
  Forall (λ nap, nap = Return ()) (take (length rejections) naps) →
  retry_run (map rejected rejections ++ [rejected (V:=V) last]) naps
            (exponential_backoff max_retries base_delay)
  = (delays_from base_delay 0 rejections,
     Some match last with
          | LimitExceeded retry_after limit_type =>
              Raise (RateLimitExceeded retry_after limit_type)
          | Http429 retry_after =>
              Raise (ResponseError (Some 429) (option_map HInt retry_after))
          end)
  ∧ length (delays_from base_delay 0 rejections) = Z.to_nat max_retries.
Proof.
  intros Hlen Hpos Hnaps. split.
  - unfold exponential_backoff.
    replace (Z.to_nat (max_retries + 1)) with (length rejections + 1)%nat by lia.
    rewrite (retry_run_prefix V max_retries base_delay) by (lia || assumption).
    rewrite Z.add_0_l, Hlen, retry_run_last. cbn [fst snd]. by rewrite app_nil_r.
  - rewrite length_delays_from. lia.
Qed.

Lemma delays_sum_bound (base_delay : Z) (rejections : list rejection) :
  0 ≤ base_delay →
  Forall local_backoff rejections →
  ∀ attempt, 0 ≤ attempt →
    foldr Z.add 0 (delays_from base_delay attempt rejections)
    ≤ base_delay * 2 ^ attempt * (2 ^ Z.of_nat (length rejections) - 1).
Proof.
  intros Hbase Hall. induction Hall as [|r rs Hr _ IH]; intros attempt Hatt.
  - cbn. lia.
  - cbn [delays_from foldr length]. specialize (IH (attempt + 1) ltac:(lia)).
    rewrite Nat2Z.inj_succ, Z.pow_succ_r by lia.
    rewrite Z.pow_add_r, Z.pow_1_r in IH by lia.
    assert (delay_of base_delay attempt r ≤ base_delay * 2 ^ attempt) as Hd.
    { destruct r as [ra lt|[ra|]]; cbn [delay_of local_backoff] in Hr |- *;
        [lia | contradiction | lia]. }
    assert (0 ≤ 2 ^ attempt) by (apply Z.pow_nonneg; lia).
    assert (0 < 2 ^ Z.of_nat (length rs)) by (apply Z.pow_pos_nonneg; lia).
    nia.
Qed.

(** What is slept before a success is the list of the computed delays, or
    the start of it where [time.sleep] raised. *)
Lemma slept_is_a_prefix (max_retries base_delay : Z) (v : V)
    (rejections : list rejection) :
  ∀ (rounds : nat) (attempt : Z) (naps : list (exc exn unit)),
    (length rejections < rounds)%nat →
    attempt + Z.of_nat (length rejections) ≤ max_retries →
    (retry_run (map rejected rejections ++ [Return v]) naps
               (attempts max_retries base_delay rounds attempt)).1
    `prefix_of` delays_from base_delay attempt rejections.
Proof.
  induction rejections as [|rej rejections IH]; intros rounds attempt naps Hrounds Hmax.
  - destruct rounds as [|rounds]; [cbn in Hrounds; lia|]. apply prefix_nil.
  - destruct rounds as [|rounds]; [cbn in Hrounds; lia|].
    cbn [length] in Hrounds, Hmax. cbn [map app delays_from].
    rewrite (retry_run_rejected V) by lia.
    rewrite (retry_run_sleep_cases V).
    repeat destruct (decide _); cbn [fst]; try apply prefix_nil.
    destruct (hd (Return ()) naps) as [[]|e]; cbn [fst].
    + apply prefix_cons, IH; lia.
    + apply prefix_cons, prefix_nil.
Qed.

Lemma sum_of_a_prefix (l1 l2 : list Z) :
  l1 `prefix_of` l2 → Forall (λ d, 0 ≤ d) l2 → foldr Z.add 0 l1 ≤ foldr Z.add 0 l2.
Proof.
  intros [k ->] Hpos. apply Forall_app in Hpos as [_ Hk].
  rewrite foldr_app.
  assert (0 ≤ foldr Z.add 0 k) as Hsum.
  { induction Hk as [|d k Hd _ IH]; cbn [foldr]; lia. }
  revert Hsum. generalize (foldr Z.add 0 k). intros c Hc.
  induction l1 as [|d l1 IH]; cbn [foldr]; lia.
Qed.

(** X12: the time slept over locally timed retries is bounded.  When every
    rejection is a [RateLimitExceeded] or an HTTP 429 without a
    [Retry-After] header, the delays slept before the call that succeeds
    add up to at most [base_delay * (2^n - 1)] for [n] rejections, hence to
    at most [base_delay * (2^max_retries - 1)]. *)
Theorem local_backoff_total_is_bounded
    (max_retries base_delay : Z) (v : V) (rejections : list rejection)
    (naps : list (exc exn unit)) :
  0 ≤ base_delay →
  Z.of_nat (length rejections) ≤ max_retries →
  Forall local_backoff rejections →
  Forall (λ d, 0 ≤ d) (delays_from base_delay 0 rejections) →
  foldr Z.add 0
    (retry_run (map rejected rejections ++ [Return v]) naps
               (exponential_backoff max_retries base_delay)).1
  ≤ base_delay * (2 ^ Z.of_nat (length rejections) - 1)
  ∧ base_delay * (2 ^ Z.of_nat (length rejections) - 1)
    ≤ base_delay * (2 ^ max_retries - 1).
Proof.
  intros Hbase Hlen Hlocal Hpos. split.
  - unfold exponential_backoff.
    pose proof (slept_is_a_prefix max_retries base_delay v rejections
                  (Z.to_nat (max_retries + 1)) 0 naps ltac:(lia) ltac:(lia)) as Hpre.
    pose proof (sum_of_a_prefix _ _ Hpre Hpos) as Hsum.
    pose proof (delays_sum_bound base_delay rejections Hbase Hlocal 0 ltac:(lia)) as H.
    rewrite Z.pow_0_r, Z.mul_1_r in H. lia.
  - assert (2 ^ Z.of_nat (length rejections) ≤ 2 ^ max_retries)
      by (apply Z.pow_le_mono_r; lia).
    nia.
Qed.

End RetryBounds.

Lemma retries_are_bounded_witness :
  Nat.le
    (Workflow.invocations
       [Raise (Workflow.RateLimitExceeded 8 "twitter_api");
        Raise (Workflow.ResponseError (Some 429) None);
        Raise (Workflow.RateLimitExceeded 1 "twitter_api");
        Raise (Workflow.RateLimitExceeded 1 "twitter_api");
        Return 7]
       []
       (Workflow.exponential_backoff 3 2))
    4.
Proof.
  refine (proj1 (proj1 (retries_are_bounded Z 3 2 _ []) _)). lia.
Defined.

Lemma exhausted_retries_raise_the_last_rejection_witness :
  Workflow.retry_run
    [Raise (Workflow.RateLimitExceeded 51 "anthropic_api");
     Raise (Workflow.RateLimitExceeded 49 "anthropic_api");
     Raise (Workflow.RateLimitExceeded 45 "anthropic_api");
     Raise (Workflow.RateLimitExceeded 37 "anthropic_api")]
    []
    (Workflow.exponential_backoff (V:=Z) 3 2)
  = ([2; 4; 8], Some (Raise (Workflow.RateLimitExceeded 37 "anthropic_api"))).
Proof.
  refine (proj1 (exhausted_retries_raise_the_last_rejection Z 3 2
                   [Workflow.LimitExceeded 51 "anthropic_api";
                    Workflow.LimitExceeded 49 "anthropic_api";
                    Workflow.LimitExceeded 45 "anthropic_api"]
                   (Workflow.LimitExceeded 37 "anthropic_api") [] _ _ _)).
  - reflexivity.
  - repeat constructor; cbn; lia.
  - constructor.
Defined.

Lemma local_backoff_total_is_bounded_witness :
  foldr Z.add 0
    (Workflow.retry_run
       [Raise (Workflow.RateLimitExceeded 51 "anthropic_api");
        Raise (Workflow.ResponseError (Some 429) None);
        Return 7]
       []
       (Workflow.exponential_backoff 3 2)).1
  ≤ 2 * (2 ^ 2 - 1).
Proof.
  refine (proj1 (local_backoff_total_is_bounded Z 3 2 7
                   [Workflow.LimitExceeded 51 "anthropic_api"; Workflow.Http429 None]
                   [] _ _ _ _)).
  - lia.
  - cbn. lia.
  - repeat constructor.
  - repeat constructor; cbn; lia.
Defined.

(** ** The window of the middleware limiter *)

Section MiddlewareWindow.
Import Redis Middleware.

(** X13: the decision of [is_rate_limited] and the info beside it agree,
    Redis reached or not: the info repeats the limit and the window, its
    reset is the current second plus the window, the count is not
    negative, a limited call has a count of at least the limit and 0
    remaining, and a call that is not limited has [limit - requests]
    remaining. *)
Theorem rate_info_is_consistent (w : world) (key : string)
    (limit window_seconds now : Z) (s : store) :
  let out := (run (serve w) (is_rate_limited key limit window_seconds now) s).1 in
  ri_limit out.2 = limit
  ∧ ri_window_seconds out.2 = window_seconds
  ∧ ri_reset_at out.2 = now ÷ ticks_per_second + window_seconds
  ∧ 0 ≤ ri_requests out.2
  ∧ (out.1 = true → limit ≤ ri_requests out.2 ∧ ri_remaining out.2 = 0)
  ∧ (out.1 = false → ri_remaining out.2 = limit - ri_requests out.2).
Proof.
  intros out. subst out.
  destruct (redis_up w) eqn:Hup.
  - rewrite run_is_rate_limited by exact Hup. cbn [fst].
    pose proof (steps_window (server_now w) (redis_key key window_seconds)
                  (now ÷ ticks_per_second) window_seconds
                  (s !! redis_key key window_seconds)) as Hsteps.
    cbv zeta in Hsteps.
    destruct (steps (server_now w) _ (s !! redis_key key window_seconds)) as [rs slot1].
    cbn [fst snd] in Hsteps |- *.
    destruct (holds_string (live (server_now w) (s !! redis_key key window_seconds))).
    + destruct Hsteps as [-> _]. cbn. repeat split; try lia; discriminate.
    + destruct Hsteps as (-> & -> & _). cbn [fst snd default]. unfold id.
      cbn [ri_limit ri_window_seconds ri_reset_at ri_requests ri_remaining].
      do 3 (split; [reflexivity|]). split; [lia|]. split.
      * intros H. apply Z.leb_le in H. split; lia.
      * intros H. apply Z.leb_gt in H. lia.
  - rewrite is_rate_limited_fails_open by exact Hup. cbn.
    repeat split; try lia; discriminate.
Qed.

Lemma rate_info_is_consistent_witness :
  60 ≤ ri_requests
         (run (serve (online (Scenario.seconds 1700000060)))
            (is_rate_limited "minute:user:42" 60 60 (Scenario.seconds 1700000060))
            Scenario.full_minute).1.2
  ∧ ri_remaining
      (run (serve (online (Scenario.seconds 1700000060)))
         (is_rate_limited "minute:user:42" 60 60 (Scenario.seconds 1700000060))
         Scenario.full_minute).1.2 = 0.
Proof.
  pose proof (rate_info_is_consistent (online (Scenario.seconds 1700000060))
                "minute:user:42" 60 60 (Scenario.seconds 1700000060)
                Scenario.full_minute) as H.
  cbv zeta in H. destruct H as (_ & _ & _ & _ & H & _).
  apply H. vm_compute. reflexivity.
Defined.

(** X14: a call that reaches Redis is recorded whether it is limited or
    not: on a key that holds no string and for a positive window, the
    window afterwards contains the entry of the current second and the
    key's time to live is a full window again. *)
Theorem every_reached_call_is_recorded (w : world) (key : string)
    (limit window_seconds now : Z) (s : store) :
  redis_up w = true →
  0 < window_seconds →
  holds_string (live (server_now w) (s !! redis_key key window_seconds)) = false →
  ∃ z, (run (serve w) (is_rate_limited key limit window_seconds now) s).2
         !! redis_key key window_seconds
       = Some (mkEntry (VZSet z)
                 (Some (server_now w + window_seconds * ticks_per_second)))
       ∧ (MSecond (now ÷ ticks_per_second), now ÷ ticks_per_second) ∈ z.
Proof.
  intros Hup Hwin Hstr. rewrite run_is_rate_limited by exact Hup. cbn [snd].
  rewrite lookup_partial_alter_eq.
  pose proof (steps_window (server_now w) (redis_key key window_seconds)
                (now ÷ ticks_per_second) window_seconds
                (s !! redis_key key window_seconds)) as Hsteps.
  cbv zeta in Hsteps. rewrite Hstr in Hsteps. destruct Hsteps as (_ & _ & ->).
  destruct (Z.leb_spec window_seconds 0); [lia|].
  eexists. split; [reflexivity|]. unfold zadd. left.
Qed.

Lemma every_reached_call_is_recorded_witness :
  ∃ z, (run (serve (online (Scenario.seconds 1700000060)))
            (is_rate_limited "minute:user:42" 60 60 (Scenario.seconds 1700000060))
            Scenario.full_minute).2 !! redis_key "minute:user:42" 60
       = Some (mkEntry (VZSet z)
                 (Some (Scenario.seconds 1700000060 + 60 * ticks_per_second)))
       ∧ (MSecond (Scenario.seconds 1700000060 ÷ ticks_per_second),
          Scenario.seconds 1700000060 ÷ ticks_per_second) ∈ z.
Proof.
  apply (every_reached_call_is_recorded (online (Scenario.seconds 1700000060))
           "minute:user:42" 60 60 (Scenario.seconds 1700000060) Scenario.full_minute).
  - reflexivity.
  - lia.
  - vm_compute. reflexivity.
Defined.

Lemma limited_is_full (w : world) (key : string)
    (limit window_seconds now : Z) (s : store) :
  (run (serve w) (is_rate_limited key limit window_seconds now) s).1.1 = true →
  limit ≤ ri_requests (run (serve w) (is_rate_limited key limit window_seconds now) s).1.2.
Proof.
  destruct (redis_up w) eqn:Hup.
  - rewrite run_is_rate_limited by exact Hup. cbn [fst].
    destruct (existsb is_error _); cbn [fst snd ri_requests]; [discriminate|].
    intros H. by apply Z.leb_le in H.
  - rewrite is_rate_limited_fails_open by exact Hup. cbn. discriminate.
Qed.

Lemma distinct_in_range_length (l : list Z) (a n : Z) :
  NoDup l → Forall (λ x, a < x ≤ a + n) l → Z.of_nat (length l) ≤ Z.max 0 n.
Proof.
  intros Hnodup Hall.
  assert (l ⊆+ seqZ (a + 1) n) as Hsub.
  { apply NoDup_submseteq; [exact Hnodup|]. intros x Hx.
    rewrite Forall_forall in Hall. specialize (Hall x Hx).
    apply elem_of_seqZ. lia. }
  apply submseteq_length in Hsub. rewrite length_seqZ in Hsub. lia.
Qed.

Section Reachable.

Variables (key : string) (limit window_seconds : Z).

Let rk : string := redis_key key window_seconds.

(** The windows that calls of [is_rate_limited] up to the second [t]
    build: one entry per second, none stamped before the epoch or after
    [t]. *)
Let built (t : Z) (slot : option entry) : Prop :=
  holds_string slot = false
  ∧ Forall (λ p, p.1 = MSecond p.2 ∧ 0 ≤ p.2 ≤ t) (zset_of slot)
  ∧ NoDup ((zset_of slot).*2).

Lemma built_step (t_last : Z) (up : bool) (now : Z) (s : store) :
  built t_last (s !! rk) →
  t_last ≤ now ÷ ticks_per_second →
  0 ≤ now ÷ ticks_per_second →
  let out := run (serve (if up then online now else offline now))
                 (is_rate_limited key limit window_seconds now) s in
  ri_requests out.1.2 ≤ Z.max 0 window_seconds
  ∧ built (now ÷ ticks_per_second) (out.2 !! rk).
Proof.
  intros (Hstr & Hall & Hnodup) Hlast Hpos out. subst out.
  set (t := now ÷ ticks_per_second) in *.
  destruct up.
  - rewrite run_is_rate_limited by reflexivity. cbn [server_now online fst snd].
    fold t rk. rewrite lookup_partial_alter_eq.
    pose proof (steps_window now rk t window_seconds (s !! rk)) as Hsteps.
    cbv zeta in Hsteps.
    destruct (steps now (window_cmds rk t window_seconds) (s !! rk)) as [rs slot1].
    cbn [fst snd] in Hsteps |- *.
    assert (holds_string (live now (s !! rk)) = false) as Hstr'.
    { destruct (live_cases now (s !! rk)) as [-> | ->]; [reflexivity | exact Hstr]. }
    rewrite Hstr' in Hsteps. destruct Hsteps as (-> & -> & ->).
    set (z' := zremrangebyscore 0 (t - window_seconds) (zset_of (live now (s !! rk)))).
    assert (z' `sublist_of` zset_of (s !! rk)) as Hsub.
    { etrans; [apply sublist_filter | apply zset_of_live_sublist]. }
    assert (Forall (λ p : member * Z,
              p.1 = MSecond p.2 ∧ 0 ≤ p.2 ∧ t - window_seconds < p.2 ≤ t) z')
      as Hz'.
    { rewrite Forall_forall in Hall |- *. intros p Hp.
      pose proof (Hall p (elem_of_sublist _ _ _ Hp Hsub)) as [Hm Hr].
      apply list_elem_of_filter in Hp as [Hout _]. unfold in_range in Hout.
      split; [exact Hm | lia]. }
    assert (NoDup (z'.*2)) as Hnd.
    { eapply sublist_NoDup; [exact Hnodup|]. by apply fmap_sublist. }
    split.
    + cbn [fst snd default ri_requests]. unfold id.
      rewrite <- (length_fmap snd z').
      apply (distinct_in_range_length _ (t - window_seconds)); [exact Hnd|].
      apply Forall_fmap. eapply Forall_impl; [exact Hz'|].
      intros p (_ & _ & Hr). cbn. lia.
    + destruct (window_seconds <=? 0); [repeat split; constructor|].
      unfold built. cbn [zset_of holds_string]. unfold zadd.
      assert (filter (λ p : member * Z, p.1 ≠ MSecond t) z' `sublist_of` z') as Hf
        by apply sublist_filter.
      split; [reflexivity|]. split.
      * constructor; [cbn; split; [reflexivity | lia]|].
        rewrite Forall_forall in Hz' |- *. intros p Hp.
        destruct (Hz' p (elem_of_sublist _ _ _ Hp Hf)) as (Hm & H0 & Hr).
        split; [exact Hm|lia].
      * cbn [fmap list_fmap snd]. constructor.
        -- intros Hin. apply list_elem_of_fmap in Hin as (p & Hp2 & Hp).
           apply list_elem_of_filter in Hp as [Hne Hp].
           rewrite Forall_forall in Hz'. destruct (Hz' p Hp) as [Hm _].
           apply Hne. rewrite Hm. by rewrite <- Hp2.
        -- eapply sublist_NoDup; [exact Hnd|]. by apply fmap_sublist.
  - rewrite is_rate_limited_fails_open by reflexivity. cbn [fst snd ri_requests].
    split; [lia|]. unfold built. repeat split; [exact Hstr | | exact Hnodup].
    eapply Forall_impl; [exact Hall|]. intros p [Hm Hr]. split; [exact Hm | lia].
Qed.

Lemma built_steps (calls : list (bool * Z)) :
  ∀ (t_last : Z) (s : store),
    built t_last (s !! rk) →
    StronglySorted Z.le (t_last :: map (λ c, c.2 ÷ ticks_per_second) calls) →
    Forall (λ c, 0 ≤ c.2 ÷ ticks_per_second) calls →
    Forall (λ d, ri_requests d.2 ≤ Z.max 0 window_seconds)
           (rate_checks key limit window_seconds calls s).1.
Proof.
  induction calls as [|[up now] calls IH]; intros t_last s Hbuilt Hsorted Hpos;
    [constructor|].
  cbn [map snd] in Hsorted.
  apply StronglySorted_inv in Hsorted as [Hsorted Hlast].
  apply Forall_cons in Hlast as [Hlast _].
  apply Forall_cons in Hpos as [Hnow Hpos]. cbn [snd] in Hnow.
  cbn [rate_checks].
  pose proof (built_step t_last up now s Hbuilt Hlast Hnow) as Hstep. cbv zeta in Hstep.
  destruct (run _ (is_rate_limited key limit window_seconds now) s) as [d s1].
  cbn [fst snd] in Hstep. destruct Hstep as [Hd Hbuilt1].
  specialize (IH (now ÷ ticks_per_second) s1 Hbuilt1 Hsorted Hpos).
  destruct (rate_checks key limit window_seconds calls s1) as [ds s2].
  cbn [fst] in IH |- *. by constructor.
Qed.

End Reachable.

(** X15: the window of the middleware limiter holds one entry a second, so
    its count cannot pass the window length.  From an empty window, for
    calls at clock readings that do not go back (and not before the epoch),
    every call reports at most [window_seconds] requests; a limit above
    the window length is therefore never enforced. *)
Theorem count_is_at_most_the_window_length
    (key : string) (limit window_seconds : Z) (calls : list (bool * Z)) (s : store) :
  s !! redis_key key window_seconds = None →
  StronglySorted Z.le (map (λ c, c.2 ÷ ticks_per_second) calls) →
  Forall (λ c, 0 ≤ c.2 ÷ ticks_per_second) calls →
  Forall (λ d, ri_requests d.2 ≤ Z.max 0 window_seconds)
         (rate_checks key limit window_seconds calls s).1
  ∧ (Z.max 0 window_seconds < limit →
     Forall (λ d, d.1 = false) (rate_checks key limit window_seconds calls s).1).
Proof.
  intros Hempty Hsorted Hpos.
  assert (Forall (λ d : bool * rate_info, ri_requests d.2 ≤ Z.max 0 window_seconds)
            (rate_checks key limit window_seconds calls s).1) as Hcount.
  { apply (built_steps key limit window_seconds calls 0 s).
    - rewrite Hempty. repeat split; constructor.
    - constructor; [exact Hsorted|]. apply Forall_fmap.
      eapply Forall_impl; [exact Hpos|]. intros c Hc. exact Hc.
    - exact Hpos. }
  split; [exact Hcount|]. intros Hlimit.
  assert (∀ cs s0, Forall (λ d : bool * rate_info, d.1 = true → limit ≤ ri_requests d.2)
                     (rate_checks key limit window_seconds cs s0).1) as Hlim.
  { induction cs as [|[up now] cs IH]; intros s0; [constructor|].
    cbn [rate_checks].
    pose proof (limited_is_full (if up then online now else offline now)
                  key limit window_seconds now s0) as Hinfo.
    destruct (run _ (is_rate_limited key limit window_seconds now) s0) as [d s1].
    cbn [fst] in Hinfo. specialize (IH s1).
    destruct (rate_checks key limit window_seconds cs s1) as [ds s2]. cbn [fst] in IH |- *.
    constructor; [|exact IH]. exact Hinfo. }
  specialize (Hlim calls s).
  rewrite Forall_forall in Hcount, Hlim |- *. intros d Hd.
  specialize (Hcount d Hd). specialize (Hlim d Hd).
  destruct d.1; [|reflexivity]. specialize (Hlim eq_refl). lia.
Qed.

Lemma count_is_at_most_the_window_length_witness :
  Forall (λ d, ri_requests d.2 ≤ Z.max 0 2)
         (rate_checks "minute:user:42" 5 2
            (map (λ now, (true, now)) Scenario.quarter_seconds) ∅).1.
Proof.
  refine (proj1 (count_is_at_most_the_window_length "minute:user:42" 5 2
                   (map (λ now, (true, now)) Scenario.quarter_seconds) ∅ _ _ _)).
  - reflexivity.
  - repeat constructor; vm_compute; discriminate.
  - repeat constructor; vm_compute; discriminate.
Defined.

End MiddlewareWindow.

(** ** The middleware as a whole *)

Section MiddlewareDispatch.
Import Redis Middleware Backend.

Lemma events_bind {A B} (w : world) (p : app_prog A) (f : A → app_prog B) (s : store) :
  events w (bind p f) s
  = events w p s ++ events w (f (run (serve w) p s).1) (run (serve w) p s).2.
Proof.
  revert s. induction p as [a|e k IH]; intros s; cbn [bind events run]; [reflexivity|].
  destruct (serve w e s) as [r s1]. rewrite IH. reflexivity.
Qed.

Lemma events_is_rate_limited (w : world) (key : string) (limit window_seconds now : Z)
    (s : store) :
  events w (is_rate_limited key limit window_seconds now) s
  = [Pipeline (window_cmds (redis_key key window_seconds)
                 (now ÷ ticks_per_second) window_seconds)].
Proof.
  unfold is_rate_limited. cbn [bind perform trigger events].
  destruct (serve w _ s) as [[rs|[]] s1]; reflexivity.
Qed.

Lemma is_rate_limited_frame (w : world) (key : string) (limit window_seconds now : Z)
    (s : store) (k : string) :
  k ≠ redis_key key window_seconds →
  (run (serve w) (is_rate_limited key limit window_seconds now) s).2 !! k = s !! k.
Proof.
  intros Hk. destruct (redis_up w) eqn:Hup.
  - rewrite run_is_rate_limited by exact Hup. cbn [snd].
    apply lookup_partial_alter_ne. congruence.
  - rewrite is_rate_limited_fails_open by exact Hup. reflexivity.
Qed.

Lemma is_rate_limited_limit (w : world) (key : string) (limit window_seconds now : Z)
    (s : store) :
  ri_limit (run (serve w) (is_rate_limited key limit window_seconds now) s).1.2 = limit
  ∧ ri_reset_at (run (serve w) (is_rate_limited key limit window_seconds now) s).1.2
    = now ÷ ticks_per_second + window_seconds.
Proof.
  unfold is_rate_limited. cbn [bind perform trigger run].
  destruct (serve w _ s) as [[rs|[]] s1]; split; reflexivity.
Qed.

Lemma run_get_current_usage_store (w : world) (user_id : string) (s : store) :
  (run (serve w) (get_current_usage user_id) s).2 = s.
Proof.
  unfold get_current_usage, get_user_subscription.
  cbn [bind perform trigger run serve].
  destruct (subscriptions w user_id) as [[|sub rest]|e]; cbn [head bind run snd].
  - reflexivity.
  - cbn [perform trigger bind run serve].
    destruct (api_usage w user_id (current_period_start sub)) as [data|e];
      [destruct (sub_tier sub) | destruct e]; reflexivity.
  - destruct e; reflexivity.
Qed.

Lemma events_get_current_usage (w : world) (user_id : string) (s : store) :
  Forall (λ e, is_call_next e = false) (events w (get_current_usage user_id) s).
Proof.
  unfold get_current_usage, get_user_subscription.
  cbn [bind perform trigger events serve].
  destruct (subscriptions w user_id) as [[|sub rest]|e]; cbn [head bind events].
  - repeat constructor.
  - cbn [perform trigger bind events serve].
    destruct (api_usage w user_id (current_period_start sub)) as [data|e];
      [destruct (sub_tier sub) | destruct e]; repeat constructor.
  - destruct e; repeat constructor.
Qed.

Lemma run_check_monthly_quota_store (w : world) (user_id : string) (s : store) :
  (run (serve w) (check_monthly_quota user_id) s).2 = s.
Proof.
  unfold check_monthly_quota. rewrite run_bind.
  rewrite run_get_current_usage_store.
  destruct (run (serve w) (get_current_usage user_id) s).1; reflexivity.
Qed.

Lemma events_check_monthly_quota (w : world) (user_id : string) (s : store) :
  Forall (λ e, is_call_next e = false) (events w (check_monthly_quota user_id) s).
Proof.
  unfold check_monthly_quota. rewrite events_bind. apply Forall_app. split.
  - apply events_get_current_usage.
  - destruct (run (serve w) (get_current_usage user_id) s).1; constructor.
Qed.

Lemma string_length_app (s t : string) :
  String.length (s +:+ t) = (String.length s + String.length t)%nat.
Proof. induction s as [|c s IH]; simpl; [reflexivity | by f_equal]. Qed.

Lemma string_app_inj_r (t s1 s2 : string) : s1 +:+ t = s2 +:+ t → s1 = s2.
Proof.
  revert s2. induction s1 as [|c1 s1 IH]; intros [|c2 s2] H; simpl in H.
  - reflexivity.
  - exfalso. apply (f_equal String.length) in H.
    rewrite !string_length_app in H. simpl in H. lia.
  - exfalso. apply (f_equal String.length) in H.
    rewrite !string_length_app in H. simpl in H. lia.
  - injection H as -> H. f_equal. by apply IH.
Qed.

Lemma user_key_inj (tier u1 u2 : string) (window_seconds : Z) :
  redis_key (tier +:+ "user:" +:+ u1) window_seconds
  = redis_key (tier +:+ "user:" +:+ u2) window_seconds →
  u1 = u2.
Proof.
  unfold redis_key. intros H.
  apply String.app_inj in H.
  assert (∀ a b c : string, (a +:+ b) +:+ c = a +:+ (b +:+ c)) as Hassoc.
  { intros a b c. induction a as [|x a IH]; [reflexivity|].
    change (String x ((a +:+ b) +:+ c) = String x (a +:+ (b +:+ c))). by rewrite IH. }
  rewrite !Hassoc in H. do 2 apply String.app_inj in H.
  by apply string_app_inj_r in H.
Qed.

Lemma minute_key_is_no_hour_key (id1 id2 : string) (w1 w2 : Z) :
  redis_key ("minute:" +:+ id1) w1 ≠ redis_key ("hour:" +:+ id2) w2.
Proof. unfold redis_key. intros H. apply String.app_inj in H. discriminate. Qed.

Section Dispatched.

Variables (sha256_hexdigest : string → string) (cfg : settings).

Lemma dispatch_frame (req : request) (now_minute now_hour : Z) (w : world) (s : store)
    (k : string) :
  k ≠ redis_key ("minute:" +:+ _get_identifier sha256_hexdigest req) 60 →
  k ≠ redis_key ("hour:" +:+ _get_identifier sha256_hexdigest req) 3600 →
  (run (serve w) (dispatch sha256_hexdigest cfg req now_minute now_hour) s).2 !! k
  = s !! k.
Proof.
  intros Hm Hh. unfold dispatch. destruct (_is_exempt (path req)).
  { cbn [perform trigger run serve]. reflexivity. }
  rewrite run_bind.
  pose proof (is_rate_limited_frame w _ (rate_limit_per_minute cfg) 60 now_minute s k Hm)
    as Hfm.
  destruct (run (serve w) (is_rate_limited _ (rate_limit_per_minute cfg) 60 now_minute) s)
    as [[lim info] s1].
  cbn [fst snd] in *. destruct lim; [exact Hfm|].
  rewrite run_bind.
  pose proof (is_rate_limited_frame w _ (rate_limit_per_hour cfg) 3600 now_hour s1 k Hh)
    as Hfh.
  destruct (run (serve w) (is_rate_limited _ (rate_limit_per_hour cfg) 3600 now_hour) s1)
    as [[limh infoh] s2].
  cbn [fst snd] in *. destruct limh; [cbn [run snd]; congruence|].
  rewrite run_bind. destruct (authenticated req) as [user_id|].
  - rewrite run_bind.
    pose proof (run_check_monthly_quota_store w user_id s2) as Hq.
    destruct (run (serve w) (check_monthly_quota user_id) s2) as [[exceeded quota] s3].
    cbn [fst snd] in *. subst s3.
    destruct exceeded; cbn [run fst snd]; [congruence|].
    cbn [perform trigger bind run serve].
    destruct (app w _); cbn [run snd]; congruence.
  - cbn [run fst snd perform trigger bind serve].
    destruct (app w _); cbn [run snd]; congruence.
Qed.

(** X16: the windows of one signed-in user are out of reach of another's
    requests.  Whatever a request of user [u1] does (exempt or not, served
    or denied, Redis reached or not), the minute and the hour window of a
    different user [u2] are afterwards what they were. *)
Theorem distinct_users_have_separate_windows
    (req1 req2 : request) (u1 u2 : string) (now_minute now_hour : Z)
    (w : world) (s : store) :
  authenticated req1 = Some u1 →
  authenticated req2 = Some u2 →
  u1 ≠ u2 →
  let after := (run (serve w) (dispatch sha256_hexdigest cfg req1 now_minute now_hour) s).2 in
  after !! redis_key ("minute:" +:+ _get_identifier sha256_hexdigest req2) 60
    = s !! redis_key ("minute:" +:+ _get_identifier sha256_hexdigest req2) 60
  ∧ after !! redis_key ("hour:" +:+ _get_identifier sha256_hexdigest req2) 3600
    = s !! redis_key ("hour:" +:+ _get_identifier sha256_hexdigest req2) 3600.
Proof.
  intros H1 H2 Hne after. subst after.
  split; apply dispatch_frame; unfold _get_identifier; rewrite H1, H2.
  - intros H. by apply user_key_inj in H.
  - apply minute_key_is_no_hour_key.
  - intros H. symmetry in H. by apply minute_key_is_no_hour_key in H.
  - intros H. by apply user_key_inj in H.
Qed.

(** X17: a request over the minute limit goes no further.  The run of
    [dispatch] is the one round trip of the minute check: the hour window
    is not touched (the denied request does not count against the hour),
    no quota query is made, the handler is not called, and [dispatch]
    raises an [HTTPException] with status code 429 and the figures of the
    minute window as headers. *)
Theorem minute_denial_ends_the_request
    (req : request) (now_minute now_hour : Z) (w : world) (s : store) :
  _is_exempt (path req) = false →
  let identifier := _get_identifier sha256_hexdigest req in
  (run (serve w) (is_rate_limited ("minute:" +:+ identifier)
                    (rate_limit_per_minute cfg) 60 now_minute) s).1.1 = true →
  events w (dispatch sha256_hexdigest cfg req now_minute now_hour) s
    = [Pipeline (window_cmds (redis_key ("minute:" +:+ identifier) 60)
                   (now_minute ÷ ticks_per_second) 60)]
  ∧ (run (serve w) (dispatch sha256_hexdigest cfg req now_minute now_hour) s).1
    = Raise (HTTPException HTTP_429_TOO_MANY_REQUESTS
               "Rate limit exceeded. Please try again later."
               (rate_limit_headers
                  (run (serve w) (is_rate_limited ("minute:" +:+ identifier)
                                    (rate_limit_per_minute cfg) 60 now_minute) s).1.2))
  ∧ (run (serve w) (dispatch sha256_hexdigest cfg req now_minute now_hour) s).2
      !! redis_key ("hour:" +:+ identifier) 3600
    = s !! redis_key ("hour:" +:+ identifier) 3600.
Proof.
  intros Hex identifier Hlim. unfold dispatch. rewrite Hex. fold identifier.
  rewrite events_bind, run_bind, events_is_rate_limited.
  pose proof (is_rate_limited_frame w ("minute:" +:+ identifier)
                (rate_limit_per_minute cfg) 60 now_minute s
                (redis_key ("hour:" +:+ identifier) 3600)) as Hframe.
  destruct (run (serve w) (is_rate_limited ("minute:" +:+ identifier)
                             (rate_limit_per_minute cfg) 60 now_minute) s)
    as [[lim info] s1].
  cbn [fst snd] in *. subst lim. cbn [events run fst snd].
  split; [reflexivity|]. split; [reflexivity|].
  apply Hframe. intros H. symmetry in H. by apply minute_key_is_no_hour_key in H.
Qed.

(** X18: a request without a signed-in user never reaches the database:
    among the interactions of [dispatch] there is no query, and the handler
    is given the request as it came in. *)
Theorem anonymous_requests_make_no_query
    (req : request) (now_minute now_hour : Z) (w : world) (s : store) :
  authenticated req = None →
  Forall (λ e, is_query e = false ∧ (is_call_next e = true → e = CallNext req))
         (events w (dispatch sha256_hexdigest cfg req now_minute now_hour) s).
Proof.
  intros Hanon. unfold dispatch. destruct (_is_exempt (path req)).
  { cbn [perform trigger events serve]. repeat constructor. }
  rewrite events_bind, events_is_rate_limited.
  constructor; [split; [reflexivity | discriminate]|]. cbn [app].
  destruct (run (serve w) (is_rate_limited _ (rate_limit_per_minute cfg) 60 now_minute) s)
    as [[lim info] s1].
  cbn [fst snd]. destruct lim; [constructor|].
  rewrite events_bind, events_is_rate_limited.
  constructor; [split; [reflexivity | discriminate]|]. cbn [app].
  destruct (run (serve w) (is_rate_limited _ (rate_limit_per_hour cfg) 3600 now_hour) s1)
    as [[limh infoh] s2].
  cbn [fst snd]. destruct limh; [constructor|].
  rewrite Hanon. cbn [bind perform trigger events serve].
  destruct (app w req); repeat constructor.
Qed.

Lemma check_monthly_quota_without_subscription (w : world) (user_id : string) (s : store) :
  subscriptions w user_id = Return [] →
  run (serve w) (check_monthly_quota user_id) s
    = ((true, mkQuota 0 0 0 "basic" (Some (None, None))), s)
  ∧ events w (check_monthly_quota user_id) s = [SelectSubscription user_id].
Proof.
  intros Hsub. unfold check_monthly_quota, get_current_usage, get_user_subscription.
  cbn [bind perform trigger run events serve]. rewrite Hsub. split; reflexivity.
Qed.

(** X19: a signed-in user who has no row in [subscriptions] is never
    served on a route that is not exempt: whatever the state of the rate
    windows, [dispatch] raises an [HTTPException] with status code 429 and
    the handler is not called. *)
Theorem user_without_subscription_is_never_served
    (req : request) (user_id : string) (now_minute now_hour : Z) (w : world) (s : store) :
  _is_exempt (path req) = false →
  authenticated req = Some user_id →
  subscriptions w user_id = Return [] →
  raised_status (run (serve w)
                   (dispatch sha256_hexdigest cfg req now_minute now_hour) s).1
    = Some HTTP_429_TOO_MANY_REQUESTS
  ∧ Forall (λ e, is_call_next e = false)
           (events w (dispatch sha256_hexdigest cfg req now_minute now_hour) s).
Proof.
  intros Hex Hauth Hsub. unfold dispatch. rewrite Hex.
  rewrite events_bind, run_bind, events_is_rate_limited.
  destruct (run (serve w) (is_rate_limited _ (rate_limit_per_minute cfg) 60 now_minute) s)
    as [[lim info] s1].
  cbn [fst snd]. destruct lim; [split; [reflexivity | repeat constructor]|].
  rewrite events_bind, run_bind, events_is_rate_limited.
  destruct (run (serve w) (is_rate_limited _ (rate_limit_per_hour cfg) 3600 now_hour) s1)
    as [[limh infoh] s2].
  cbn [fst snd]. destruct limh; [split; [reflexivity | repeat constructor]|].
  rewrite Hauth. rewrite events_bind, run_bind. rewrite events_bind, run_bind.
  destruct (check_monthly_quota_without_subscription w user_id s2 Hsub) as [-> ->].
  cbn [fst snd run events app raised_status].
  split; [reflexivity | repeat constructor].
Qed.

Lemma set_header_elem (name value : string) (hs : list (string * string)) :
  (name, value) ∈ set_header name value hs.
Proof.
  induction hs as [|[n v] hs IH]; cbn [set_header]; [left|].
  destruct (decide (n = name)); [left | right; exact IH].
Qed.

Lemma set_header_keeps (name value name' value' : string) (hs : list (string * string)) :
  name' ≠ name → (name', value') ∈ hs → (name', value') ∈ set_header name value hs.
Proof.
  intros Hne. induction hs as [|[n v] hs IH]; cbn [set_header]; intros Hin.
  - by apply elem_of_nil in Hin.
  - apply elem_of_cons in Hin as [Heq|Hin].
    + injection Heq as <- <-. rewrite decide_False by exact Hne. left.
    + destruct (decide (n = name)); right; [exact Hin | by apply IH].
Qed.

(** X20: a response that comes back through [dispatch] on a route that
    is not exempt is the handler's, with its status code, and carries the
    figures of the minute window (never the hour's): the configured
    per-minute limit and the end of a window that starts now.  For a
    signed-in caller it also reports a remaining monthly quota, which is
    positive. *)
Theorem served_response_reports_the_minute_window
    (req : request) (now_minute now_hour : Z) (w : world) (s : store) (served : response) :
  _is_exempt (path req) = false →
  (run (serve w) (dispatch sha256_hexdigest cfg req now_minute now_hour) s).1
    = Return served →
  (∃ req' resp, app w req' = Return resp ∧ path req' = path req
                ∧ status_code served = status_code resp)
  ∧ ("X-RateLimit-Limit"%string, pretty (rate_limit_per_minute cfg)) ∈ headers served
  ∧ ("X-RateLimit-Reset"%string, pretty (now_minute ÷ ticks_per_second + 60))
      ∈ headers served
  ∧ (is_Some (authenticated req) →
     ∃ remaining, 0 < remaining
                  ∧ ("X-Quota-Remaining"%string, pretty remaining) ∈ headers served).
Proof.
  intros Hex. unfold dispatch. rewrite Hex. rewrite run_bind.
  pose proof (is_rate_limited_limit w ("minute:" +:+ _get_identifier sha256_hexdigest req)
                (rate_limit_per_minute cfg) 60 now_minute s) as [Hlimit Hreset].
  destruct (run (serve w) (is_rate_limited _ (rate_limit_per_minute cfg) 60 now_minute) s)
    as [[lim info] s1].
  cbn [fst snd] in *. destruct lim; [discriminate|].
  rewrite run_bind.
  destruct (run (serve w) (is_rate_limited _ (rate_limit_per_hour cfg) 3600 now_hour) s1)
    as [[limh infoh] s2].
  cbn [fst snd]. destruct limh; [discriminate|].
  rewrite run_bind. destruct (authenticated req) as [user_id|] eqn:Hauth.
  - rewrite run_bind.
    assert (∀ exceeded quota s3,
              run (serve w) (check_monthly_quota user_id) s2 = ((exceeded, quota), s3) →
              exceeded = false → 0 < q_remaining quota) as Hpositive.
    { unfold check_monthly_quota. rewrite run_bind.
      destruct (run (serve w) (get_current_usage user_id) s2) as [[usage|e] s3'].
      - cbn [fst snd run]. intros exceeded quota s3 [= <- <- _] Hle.
        apply Z.leb_gt in Hle. exact Hle.
      - cbn [fst snd run]. intros exceeded quota s3 [= _ <- _] _. reflexivity. }
    destruct (run (serve w) (check_monthly_quota user_id) s2) as [[exceeded quota] s3]
      eqn:Hquota.
    specialize (Hpositive exceeded quota s3 eq_refl).
    cbn [fst snd]. destruct exceeded; cbn [run fst snd]; [discriminate|].
    cbn [perform trigger bind run serve].
    destruct (app w _) as [resp|e] eqn:Happ; cbn [run fst]; [|discriminate].
    intros [= <-]. cbn [status_code headers state_quota_info].
    split; [eexists _, resp; split; [exact Happ | split; reflexivity]|].
    rewrite Hlimit, Hreset.
    split; [|split].
    + repeat first [apply set_header_elem | apply set_header_keeps; [discriminate|]].
    + repeat first [apply set_header_elem | apply set_header_keeps; [discriminate|]].
    + intros _. exists (q_remaining quota). split; [by apply Hpositive|].
      repeat first [apply set_header_elem | apply set_header_keeps; [discriminate|]].
  - cbn [run fst snd perform trigger bind serve].
    destruct (app w req) as [resp|e] eqn:Happ; cbn [run fst]; [|discriminate].
    intros [= <-]. cbn [status_code headers].
    split; [exists req, resp; split; [exact Happ | split; reflexivity]|].
    rewrite Hlimit, Hreset.
    split; [|split].
    + destruct (state_quota_info req);
        repeat first [apply set_header_elem | apply set_header_keeps; [discriminate|]].
    + destruct (state_quota_info req);
        repeat first [apply set_header_elem | apply set_header_keeps; [discriminate|]].
    + intros [u Hu]. discriminate.
Qed.

End Dispatched.

Lemma distinct_users_have_separate_windows_witness :
  let after := (run (serve (Scenario.database (Scenario.seconds 1700000060)))
                  (dispatch (λ x, x) default_settings Scenario.tenant_request
                     (Scenario.seconds 1700000060) (Scenario.seconds 1700000060))
                  Scenario.full_minute).2 in
  after !! redis_key ("minute:" +:+ _get_identifier (λ x, x) Scenario.other_tenant_request) 60
    = Scenario.full_minute
        !! redis_key ("minute:" +:+ _get_identifier (λ x, x) Scenario.other_tenant_request) 60
  ∧ after !! redis_key ("hour:" +:+ _get_identifier (λ x, x) Scenario.other_tenant_request) 3600
    = Scenario.full_minute
        !! redis_key ("hour:" +:+ _get_identifier (λ x, x) Scenario.other_tenant_request) 3600.
Proof.
  apply (distinct_users_have_separate_windows (λ x, x) default_settings
           Scenario.tenant_request Scenario.other_tenant_request "42" "7"
           (Scenario.seconds 1700000060) (Scenario.seconds 1700000060)
           (Scenario.database (Scenario.seconds 1700000060)) Scenario.full_minute).
  - reflexivity.
  - reflexivity.
  - discriminate.
Defined.

Lemma minute_denial_ends_the_request_witness :
  events (Scenario.database (Scenario.seconds 1700000060))
    (dispatch (λ x, x) default_settings Scenario.tenant_request
       (Scenario.seconds 1700000060) (Scenario.seconds 1700000060)) Scenario.full_minute
    = [Pipeline (window_cmds
                   (redis_key ("minute:" +:+ _get_identifier (λ x, x) Scenario.tenant_request) 60)
                   (Scenario.seconds 1700000060 ÷ ticks_per_second) 60)]
  ∧ (run (serve (Scenario.database (Scenario.seconds 1700000060)))
       (dispatch (λ x, x) default_settings Scenario.tenant_request
          (Scenario.seconds 1700000060) (Scenario.seconds 1700000060))
       Scenario.full_minute).1
    = Raise (HTTPException HTTP_429_TOO_MANY_REQUESTS
               "Rate limit exceeded. Please try again later."
               (rate_limit_headers
                  (run (serve (Scenario.database (Scenario.seconds 1700000060)))
                     (is_rate_limited
                        ("minute:" +:+ _get_identifier (λ x, x) Scenario.tenant_request)
                        (rate_limit_per_minute default_settings) 60
                        (Scenario.seconds 1700000060))
                     Scenario.full_minute).1.2))
  ∧ (run (serve (Scenario.database (Scenario.seconds 1700000060)))
       (dispatch (λ x, x) default_settings Scenario.tenant_request
          (Scenario.seconds 1700000060) (Scenario.seconds 1700000060))
       Scenario.full_minute).2
      !! redis_key ("hour:" +:+ _get_identifier (λ x, x) Scenario.tenant_request) 3600
    = Scenario.full_minute
        !! redis_key ("hour:" +:+ _get_identifier (λ x, x) Scenario.tenant_request) 3600.
Proof.
  apply (minute_denial_ends_the_request (λ x, x) default_settings Scenario.tenant_request
           (Scenario.seconds 1700000060) (Scenario.seconds 1700000060)
           (Scenario.database (Scenario.seconds 1700000060)) Scenario.full_minute).
  - vm_compute. reflexivity.
  - vm_compute. reflexivity.
Defined.

Lemma anonymous_requests_make_no_query_witness :
  Forall (λ e, is_query e = false
               ∧ (is_call_next e = true → e = CallNext Scenario.anonymous_request))
         (events unreachable_database
            (dispatch (λ x, x) default_settings Scenario.anonymous_request
               (Scenario.seconds 1700000000) (Scenario.seconds 1700000000)) ∅).
Proof.
  apply (anonymous_requests_make_no_query (λ x, x) default_settings
           Scenario.anonymous_request (Scenario.seconds 1700000000)
           (Scenario.seconds 1700000000) unreachable_database ∅).
  reflexivity.
Defined.

Lemma user_without_subscription_is_never_served_witness :
  raised_status
    (run (serve (Scenario.no_subscriptions (Scenario.seconds 1700000000)))
       (dispatch (λ x, x) default_settings Scenario.tenant_request
          (Scenario.seconds 1700000000) (Scenario.seconds 1700000000)) ∅).1
    = Some HTTP_429_TOO_MANY_REQUESTS
  ∧ Forall (λ e, is_call_next e = false)
      (events (Scenario.no_subscriptions (Scenario.seconds 1700000000))
         (dispatch (λ x, x) default_settings Scenario.tenant_request
            (Scenario.seconds 1700000000) (Scenario.seconds 1700000000)) ∅).
Proof.
  apply (user_without_subscription_is_never_served (λ x, x) default_settings
           Scenario.tenant_request "42" (Scenario.seconds 1700000000)
           (Scenario.seconds 1700000000)
           (Scenario.no_subscriptions (Scenario.seconds 1700000000)) ∅).
  - vm_compute. reflexivity.
  - reflexivity.
  - reflexivity.
Defined.

Lemma served_response_reports_the_minute_window_witness :
  ("X-RateLimit-Limit"%string, pretty (rate_limit_per_minute default_settings))
    ∈ headers (mkResponse 200
                 [("X-RateLimit-Limit", "60"); ("X-RateLimit-Remaining", "60");
                  ("X-RateLimit-Reset", "1700000060"); ("X-Quota-Limit", "1000");
                  ("X-Quota-Remaining", "995"); ("X-Quota-Used", "5")]%string).
Proof.
  refine (proj1 (proj2 (served_response_reports_the_minute_window (λ x, x)
           default_settings Scenario.tenant_request (Scenario.seconds 1700000000)
           (Scenario.seconds 1700000000)
           (Scenario.database (Scenario.seconds 1700000000)) ∅ _ _ _))).
  - vm_compute. reflexivity.
  - vm_compute. reflexivity.
Defined.

End MiddlewareDispatch.

(** ** Monthly quota, exempt routes, health check *)

Section QuotaAndHealth.
Import Redis Middleware Backend.

(** X21: what [check_monthly_quota] returns hangs together, whatever the
    database answers (rows, no rows, an error response, an exception): the
    store is not touched, [remaining] is [max(0, quota - requests_used)],
    the quota counts as exceeded exactly when [requests_used] has reached
    it, and the quota is 0 (no subscription, or an error response of the
    database), 1000 or 10000. *)
Theorem quota_info_is_consistent (w : world) (user_id : string) (s : store) :
  let out := run (serve w) (check_monthly_quota user_id) s in
  out.2 = s
  ∧ q_remaining out.1.2 = Z.max 0 (q_quota out.1.2 - q_requests_used out.1.2)
  ∧ (out.1.1 = true ↔ q_quota out.1.2 ≤ q_requests_used out.1.2)
  ∧ (q_quota out.1.2 = 0 ∨ q_quota out.1.2 = 1000 ∨ q_quota out.1.2 = 10000).
Proof.
  intros out. subst out.
  unfold check_monthly_quota, get_current_usage, get_user_subscription.
  cbn [bind perform trigger run serve].
  assert (∀ used : Z, (Z.max 0 (0 - used) <=? 0) = true ↔ 0 ≤ used) as Hzero.
  { intros used. rewrite Z.leb_le. lia. }
  destruct (subscriptions w user_id) as [[|sub rest]|e]; cbn [head bind run].
  - cbn. split; [reflexivity|]. split; [reflexivity|]. split; [|by left].
    split; [lia | reflexivity].
  - cbn [perform trigger bind run serve].
    destruct (api_usage w user_id (current_period_start sub)) as [data|e].
    + destruct (sub_tier sub) as [tier|]; cbn [bind run fst snd].
      * cbn [u_remaining u_requests_used u_quota u_more q_remaining q_quota
               q_requests_used].
        split; [reflexivity|]. split; [reflexivity|]. split.
        -- rewrite Z.leb_le. lia.
        -- unfold get_monthly_quota. destruct (decide _); [right; right | right; left];
             reflexivity.
      * cbn. split; [reflexivity|]. split; [reflexivity|]. split; [|right; by left].
        split; [discriminate | lia].
    + destruct e; cbn; (split; [reflexivity|]); (split; [reflexivity|]);
        first [ split; [split; [lia | reflexivity] | by left]
              | split; [split; [discriminate | lia] | right; by left] ].
  - destruct e; cbn; (split; [reflexivity|]); (split; [reflexivity|]);
      first [ split; [split; [lia | reflexivity] | by left]
            | split; [split; [discriminate | lia] | right; by left] ].
Qed.

Lemma prefix_app (route p rest : string) :
  String.prefix route p = true → String.prefix route (p +:+ rest) = true.
Proof.
  revert p. induction route as [|a route IH]; intros [|b p] H.
  - by destruct ("" +:+ rest).
  - by destruct (String b p +:+ rest).
  - cbn [String.prefix] in H. discriminate.
  - change (String b p +:+ rest) with (String b (p +:+ rest)).
    cbn [String.prefix] in *. destruct (ascii_dec a b); [by apply IH | discriminate].
Qed.

(** X22: exemption goes by the start of the path only: whatever is
    appended to an exempt path, segment or not, the result is exempt. *)
Theorem exemption_extends_to_longer_paths (p rest : string) :
  _is_exempt p = true → _is_exempt (p +:+ rest) = true.
Proof.
  unfold _is_exempt. rewrite !existsb_exists.
  intros (route & Hin & Hpre). exists route. split; [exact Hin | by apply prefix_app].
Qed.

Lemma exemption_extends_to_longer_paths_witness :
  _is_exempt ("/docs" +:+ "-internal/users") = true.
Proof.
  apply (exemption_extends_to_longer_paths "/docs" "-internal/users"). reflexivity.
Defined.

(** X23: [check_quota] of the database client and [check_monthly_quota]
    of the limiter read the same usage and never disagree while the
    database answers; when a query raises, [check_quota] raises and
    [check_monthly_quota] grants. *)
Theorem check_quota_agrees_with_the_monthly_check (w : world) (user_id : string)
    (s : store) :
  match (run (serve w) (check_quota user_id) s).1 with
  | Return has_quota =>
      (run (serve w) (check_monthly_quota user_id) s).1.1 = negb has_quota
  | Raise _ => (run (serve w) (check_monthly_quota user_id) s).1.1 = false
  end.
Proof.
  unfold check_quota, check_monthly_quota. rewrite !run_bind.
  destruct (run (serve w) (get_current_usage user_id) s) as [[usage|e] s1];
    cbn [fst snd run]; [|reflexivity].
  apply Z.leb_antisym.
Qed.

(** X24: the Redis health check cannot fail once [connect] has returned:
    [is_rate_limited] swallows every Redis error, so the endpoint answers
    200 whether Redis is reached or not; with Redis out of reach the store
    is left as it was.  Only a [connect] that raises gives 503. *)
Theorem redis_health_check_ignores_redis_errors
    (w : world) (now clock : Z) (e : exn) (s : store) :
  (run (serve w) (health_check_redis (Return ()) now) s).1 = HTTP_200_OK
  ∧ run (serve (offline clock)) (health_check_redis (Return ()) now) s = (HTTP_200_OK, s)
  ∧ run (serve w) (health_check_redis (Raise e) now) s = (HTTP_503_SERVICE_UNAVAILABLE, s).
Proof.
  unfold health_check_redis. rewrite !run_bind.
  split; [reflexivity|]. split; [|reflexivity].
  rewrite is_rate_limited_fails_open by reflexivity. reflexivity.
Qed.

End QuotaAndHealth.
